(** * The clusters manager of weave-gitops (core/clustersmngr/factory.go)

    A shallow embedding of the manager that tracks a fleet of clusters,
    caches per-user clients and namespaces, and notifies watchers of
    changes to the cluster set.

    - Go [error] values are an inductive type built by [errors.New],
      [fmt.Errorf], [ClientError] and [multierror].
    - Go channels are records with a capacity, a FIFO buffer and a closed
      flag; [chan_send], [chan_recv] and [chan_close] follow the language
      specification (a send on a full channel parks the goroutine, a send on
      a closed channel panics, a receive on a closed and drained channel
      returns the zero value with [ok = false]).
    - The methods of [clustersManager] are written in a small monad over the
      manager's state whose outcomes are: returns, parks on a watcher
      channel (with the rest of the method as a continuation), hangs, or
      panics.
    - The goroutines of a fan-out run to completion one after the other in
      the order chosen by a [scheduler], an arbitrary permutation of the
      cluster list. *)

From stdpp Require Import gmap strings list fin_maps sorting.

Open Scope string_scope.
Open Scope list_scope.
Open Scope nat_scope.
Set Warnings "-register-all".

(** ** Go errors *)

Inductive error : Type :=
| errors_New (msg : string)
    (* errors.New(msg), and fmt.Errorf without a %w verb *)
| fmt_Errorf (before : string) (wrapped : error)
    (* fmt.Errorf("<before>%w", wrapped) *)
| fmt_Errorf_after (wrapped : error) (after : string)
    (* fmt.Errorf("%w<after>", wrapped) *)
| ClientError (ClusterName : string) (Err : error)
    (* &ClientError{ClusterName: ..., Err: ...} *)
| multierror (Errors : list error).
    (* a *multierror.Error and its Errors slice *)

(** errors.Unwrap: the error a [fmt.Errorf] with [%w] wraps. *)
Definition errors_Unwrap (e : error) : option error :=
  match e with
  | fmt_Errorf _ wrapped => Some wrapped
  | fmt_Errorf_after wrapped _ => Some wrapped
  | _ => None
  end.

(** [multierror.Append(result, err)] on a [*multierror.Error] accumulator
    ([None] is the nil pointer): the errors of a multierror are flattened
    into the accumulator, any other error is appended. *)
Definition multierror_Append (result : option (list error)) (err : error)
  : option (list error) :=
  let errs := default [] result in
  match err with
  | multierror es => Some (errs ++ es)
  | _ => Some (errs ++ [err])
  end.

(** [result.ErrorOrNil()]: nil for the nil pointer and for an empty list. *)
Definition ErrorOrNil (result : option (list error)) : option error :=
  match result with
  | None => None
  | Some [] => None
  | Some es => Some (multierror es)
  end.

(** ** Go channels *)

Record chan (A : Type) : Type := mkChan {
  chan_cap : nat;        (* make(chan A, cap) *)
  chan_buf : list A;     (* sent and not yet received, oldest first *)
  chan_recvd : list A;   (* ghost: the values received so far, oldest first *)
  chan_closed : bool;
}.
Arguments mkChan {A}.
Arguments chan_cap {A}.
Arguments chan_buf {A}.
Arguments chan_recvd {A}.
Arguments chan_closed {A}.

Definition make_chan {A} (cap : nat) : chan A :=
  mkChan cap [] [] false.

(** All the values ever sent on the channel, in the order of the sends. *)
Definition chan_history {A} (c : chan A) : list A :=
  chan_recvd c ++ chan_buf c.

Inductive send_result (A : Type) : Type :=
| SendOk (c : chan A)     (* the value is in the buffer *)
| SendBlocks              (* no room: the sender parks *)
| SendPanics.             (* send on closed channel *)
Arguments SendOk {A}.
Arguments SendBlocks {A}.
Arguments SendPanics {A}.

Definition chan_send {A} (c : chan A) (v : A) : send_result A :=
  if chan_closed c then SendPanics
  else if bool_decide (length (chan_buf c) < chan_cap c)
  then SendOk (mkChan (chan_cap c) (chan_buf c ++ [v]) (chan_recvd c) false)
  else SendBlocks.

Inductive recv_result (A : Type) : Type :=
| RecvOk (v : A) (c : chan A)   (* v, ok = true *)
| RecvClosed                    (* zero value, ok = false *)
| RecvBlocks.                   (* nothing buffered, not closed: the receiver parks *)
Arguments RecvOk {A}.
Arguments RecvClosed {A}.
Arguments RecvBlocks {A}.

Definition chan_recv {A} (c : chan A) : recv_result A :=
  match chan_buf c with
  | v :: rest =>
      RecvOk v (mkChan (chan_cap c) rest (chan_recvd c ++ [v]) (chan_closed c))
  | [] => if chan_closed c then RecvClosed else RecvBlocks
  end.

(** close(c): [None] is the panic "close of closed channel". *)
Definition chan_close {A} (c : chan A) : option (chan A) :=
  if chan_closed c then None
  else Some (mkChan (chan_cap c) (chan_buf c) (chan_recvd c) true).

(** ** Collaborators: identities, clients, clusters *)

(** Modelled from the spec: auth.UserPrincipal, declared outside factory.go,
    "an opaque principal id plus group memberships". A pointer to it is an
    [option]. *)
Record UserPrincipal : Type := mkUser {
  ID : string;
  Groups : list string;
}.

(** client.Client, an opaque handle built by a cluster's factory. *)
Inductive k8sClient : Type := K8sClient (handle : string).

(** kubernetes.Interface: the two sub-clients the manager asks for. *)
Record Clientset : Type := mkClientset {
  Discovery : string;         (* discovery.DiscoveryInterface *)
  AuthorizationV1 : string;   (* the authorization-check client *)
}.

(** v1.Namespace *)
Record Namespace : Type := mkNamespace { ns_name : string }.

(** Modelled from the spec: cluster.Cluster, declared outside factory.go,
    "identity = name" with the "per-cluster client factory, provided by
    each Cluster value": GetServerClient(), GetUserClient(identity),
    GetUserClientset(identity). A factory call yields the client or the
    error. The cluster's GetServerClient is [cluster_GetServerClient] here,
    the manager has a method of that name. *)
Record Cluster : Type := mkCluster {
  GetName : string;
  cluster_GetServerClient : error + k8sClient;
  GetUserClient : UserPrincipal → error + k8sClient;
  GetUserClientset : UserPrincipal → error + Clientset;
}.

(** Modelled from the spec: nsaccess.Checker, declared outside factory.go:
    "given a user's authorization-check client and a candidate namespace
    list, returns the accessible subset" or an error. *)
Record Checker : Type := mkChecker {
  FilterAccessibleNamespaces :
    string → list Namespace → error + list Namespace;
}.

(** ClusterListUpdate *)
Record ClusterListUpdate : Type := mkUpdate {
  Added : list Cluster;
  Removed : list Cluster;
}.

(** A [*ClustersWatcher]: the address of the watcher, which stands for its
    [Updates] channel too (made with it, never reassigned). *)
Definition loc := nat.

(** ** Metrics (the package-level Prometheus collectors) *)

Record Metrics : Type := mkMetrics {
  opsUpdateClusters : nat;
  opsClustersCount : nat;
  opsUpdateNamespaces : nat;
  opsNamespacesCount : gmap string nat;
  opsCreateServerClient : gmap string nat;
  opsCreateUserClient : gmap string nat;
}.

(** ** The manager *)

Record clustersManager : Type := mkManager {
  nsChecker : Checker;
  (* list of clusters returned by the clusters fetcher *)
  clusters : list Cluster;
  (* ordered list of cluster names, used to refresh dependent caches *)
  clustersHash : string;
  (* the lists of all namespaces of each cluster *)
  clustersNamespaces : gmap string (list Namespace);
  (* lists of namespaces accessible by the user on every cluster *)
  usersNamespaces : gmap (string * string) (list Namespace);
  usersClients : gmap (string * string) k8sClient;
  initialClustersLoad : chan bool;
  (* list of watchers to notify of clusters updates *)
  watchers : list loc;
  (* the ClustersWatcher objects on the heap: the Updates channel of each *)
  heap : gmap loc (chan ClusterListUpdate);
  metrics : Metrics;
}.

Definition set_clusters (v : list Cluster) (cf : clustersManager) :=
  mkManager (nsChecker cf) v (clustersHash cf) (clustersNamespaces cf)
    (usersNamespaces cf) (usersClients cf) (initialClustersLoad cf)
    (watchers cf) (heap cf) (metrics cf).
Definition set_clustersHash (v : string) (cf : clustersManager) :=
  mkManager (nsChecker cf) (clusters cf) v (clustersNamespaces cf)
    (usersNamespaces cf) (usersClients cf) (initialClustersLoad cf)
    (watchers cf) (heap cf) (metrics cf).
Definition set_clustersNamespaces (v : gmap string (list Namespace))
    (cf : clustersManager) :=
  mkManager (nsChecker cf) (clusters cf) (clustersHash cf) v
    (usersNamespaces cf) (usersClients cf) (initialClustersLoad cf)
    (watchers cf) (heap cf) (metrics cf).
Definition set_usersNamespaces (v : gmap (string * string) (list Namespace))
    (cf : clustersManager) :=
  mkManager (nsChecker cf) (clusters cf) (clustersHash cf)
    (clustersNamespaces cf) v (usersClients cf) (initialClustersLoad cf)
    (watchers cf) (heap cf) (metrics cf).
Definition set_usersClients (v : gmap (string * string) k8sClient)
    (cf : clustersManager) :=
  mkManager (nsChecker cf) (clusters cf) (clustersHash cf)
    (clustersNamespaces cf) (usersNamespaces cf) v (initialClustersLoad cf)
    (watchers cf) (heap cf) (metrics cf).
Definition set_initialClustersLoad (v : chan bool) (cf : clustersManager) :=
  mkManager (nsChecker cf) (clusters cf) (clustersHash cf)
    (clustersNamespaces cf) (usersNamespaces cf) (usersClients cf) v
    (watchers cf) (heap cf) (metrics cf).
Definition set_watchers (v : list loc) (cf : clustersManager) :=
  mkManager (nsChecker cf) (clusters cf) (clustersHash cf)
    (clustersNamespaces cf) (usersNamespaces cf) (usersClients cf)
    (initialClustersLoad cf) v (heap cf) (metrics cf).
Definition set_heap (v : gmap loc (chan ClusterListUpdate))
    (cf : clustersManager) :=
  mkManager (nsChecker cf) (clusters cf) (clustersHash cf)
    (clustersNamespaces cf) (usersNamespaces cf) (usersClients cf)
    (initialClustersLoad cf) (watchers cf) v (metrics cf).
Definition set_metrics (v : Metrics) (cf : clustersManager) :=
  mkManager (nsChecker cf) (clusters cf) (clustersHash cf)
    (clustersNamespaces cf) (usersNamespaces cf) (usersClients cf)
    (initialClustersLoad cf) (watchers cf) (heap cf) v.

(** ** Outcomes of a method call *)

Inductive outcome (A : Type) : Type :=
| Returns (a : A) (cf : clustersManager)
| Parks (w : loc) (u : ClusterListUpdate) (cf : clustersManager)
        (k : clustersManager → outcome A)
    (* parked sending [u] on the full channel of watcher [w]; once a
       receiver has made room and [u] is buffered, [k] runs *)
| Hangs (cf : clustersManager)
    (* parked with nothing that can wake it *)
| Panics (msg : string) (cf : clustersManager).
Arguments Returns {A}.
Arguments Parks {A}.
Arguments Hangs {A}.
Arguments Panics {A}.

Definition M (A : Type) : Type := clustersManager → outcome A.

Definition ret {A} (a : A) : M A := λ cf, Returns a cf.

Fixpoint obind {A B} (o : outcome A) (f : A → M B) : outcome B :=
  match o with
  | Returns a cf => f a cf
  | Parks w u cf k => Parks w u cf (λ cf', obind (k cf') f)
  | Hangs cf => Hangs cf
  | Panics msg cf => Panics msg cf
  end.

Definition bind {A B} (m : M A) (f : A → M B) : M B :=
  λ cf, obind (m cf) f.

Definition gets {A} (f : clustersManager → A) : M A :=
  λ cf, Returns (f cf) cf.

Definition modify (f : clustersManager → clustersManager) : M unit :=
  λ cf, Returns tt (f cf).

Notation "'let*' x ':=' m 'in' k" := (bind m (λ x, k))
  (at level 10, x pattern, m at level 200, k at level 200).
Notation "m ';;' k" := (bind m (λ _, k))
  (at level 100, k at level 200, right associativity).

(** [for _, x := range xs { body(x) }] *)
Fixpoint forM {A} (xs : list A) (body : A → M unit) : M unit :=
  match xs with
  | [] => ret tt
  | x :: rest => body x ;; forM rest body
  end.

(** [for _, x := range xs { acc = body(x, acc) }] *)
Fixpoint foldM {A B} (body : A → B → M B) (xs : list A) (acc : B) : M B :=
  match xs with
  | [] => ret acc
  | x :: rest => let* acc' := body x acc in foldM body rest acc'
  end.

(** ** The Cluster Registry *)

Definition names (cs : list Cluster) : list string := GetName <$> cs.

(** Modelled from the spec: [Clusters.Get], declared outside factory.go,
    "returns a snapshot" of the tracked clusters. *)
Definition Clusters_Get : M (list Cluster) := gets clusters.

(** Modelled from the spec: [Clusters.Set], declared outside factory.go,
    "atomically replaces the tracked set and returns the symmetric
    difference by name": the new clusters whose name was not tracked, and
    the tracked clusters whose name is not among the new ones. *)
Definition Clusters_Set (new : list Cluster)
  : M (list Cluster * list Cluster) :=
  λ cf,
    let old := clusters cf in
    let added := filter (λ c, GetName c ∉ names old) new in
    let removed := filter (λ c, GetName c ∉ names new) old in
    Returns (added, removed) (set_clusters new cf).

(** Modelled from the spec: [Clusters.Hash], declared outside factory.go,
    "a deterministic hash over the sorted name list": the names, sorted
    lexicographically, joined into one string. *)
Definition Clusters_Hash (cs : list Cluster) : string :=
  String.concat EmptyString
    (merge_sort (λ a b, Is_true (String.leb a b)) (names cs)).

(** ** The three caches *)

(** Modelled from the spec: the Namespace Cache ([ClustersNamespaces],
    declared outside factory.go), a map from cluster name to the namespaces
    of the cluster, with no expiry. *)
Definition ClustersNamespaces_Set (clusterName : string)
    (items : list Namespace) : M unit :=
  modify (λ cf,
    set_clustersNamespaces (<[clusterName := items]> (clustersNamespaces cf)) cf).

(** Modelled from the spec: [ClustersNamespaces.Get], the namespaces cached
    for the cluster, none when the cluster has no entry. *)
Definition ClustersNamespaces_Get (clusterName : string)
  : M (list Namespace) :=
  gets (λ cf, default [] (clustersNamespaces cf !! clusterName)).

(** Modelled from the spec: [ClustersNamespaces.Clear], which "clears the
    Namespace Cache in full". *)
Definition ClustersNamespaces_Clear : M unit :=
  modify (set_clustersNamespaces ∅).

(** Modelled from the spec: the User Namespace Cache ([UsersNamespaces],
    declared outside factory.go), "keyed by (user id, cluster name)". The
    entries that are present are the ones whose TTL has not elapsed. *)
Definition UsersNamespaces_Set (user : UserPrincipal) (clusterName : string)
    (nss : list Namespace) : M unit :=
  modify (λ cf,
    set_usersNamespaces (<[(ID user, clusterName) := nss]> (usersNamespaces cf)) cf).

(** Modelled from the spec: [UsersNamespaces.GetAll], a "pure cache read":
    the cached entries of the user for the given clusters, by cluster
    name. *)
Definition UsersNamespaces_GetAll (user : UserPrincipal)
    (cs : list Cluster) (cache : gmap (string * string) (list Namespace))
  : gmap string (list Namespace) :=
  foldl (λ namespaces cluster,
           match cache !! (ID user, GetName cluster) with
           | Some nsList => <[GetName cluster := nsList]> namespaces
           | None => namespaces
           end) ∅ cs.

(** Modelled from the spec: [UsersNamespaces.Clear], which "clears the User
    Namespace Cache in full". *)
Definition UsersNamespaces_Clear : M unit :=
  modify (set_usersNamespaces ∅).

(** Modelled from the spec: the User Client Cache ([UsersClients], declared
    outside factory.go), "keyed by (user id, cluster name)", TTL-bound like
    the User Namespace Cache. *)
Definition UsersClients_Get (user : UserPrincipal) (clusterName : string)
  : M (option k8sClient) :=
  gets (λ cf, usersClients cf !! (ID user, clusterName)).

(** Modelled from the spec: [UsersClients.Set], which stores the client
    under (user id, cluster name). *)
Definition UsersClients_Set (user : UserPrincipal) (clusterName : string)
    (client : k8sClient) : M unit :=
  modify (λ cf,
    set_usersClients (<[(ID user, clusterName) := client]> (usersClients cf)) cf).

(** ** Metrics updates *)

Definition incr (label : string) (m : gmap string nat) : gmap string nat :=
  <[label := S (default 0 (m !! label))]> m.

(** opsUpdateClusters.Inc() *)
Definition opsUpdateClusters_Inc : M unit :=
  modify (λ cf, let m := metrics cf in
    set_metrics (mkMetrics (S (opsUpdateClusters m)) (opsClustersCount m)
      (opsUpdateNamespaces m) (opsNamespacesCount m)
      (opsCreateServerClient m) (opsCreateUserClient m)) cf).

(** opsClustersCount.Set(n) *)
Definition opsClustersCount_Set (n : nat) : M unit :=
  modify (λ cf, let m := metrics cf in
    set_metrics (mkMetrics (opsUpdateClusters m) n
      (opsUpdateNamespaces m) (opsNamespacesCount m)
      (opsCreateServerClient m) (opsCreateUserClient m)) cf).

(** opsUpdateNamespaces.Inc() *)
Definition opsUpdateNamespaces_Inc : M unit :=
  modify (λ cf, let m := metrics cf in
    set_metrics (mkMetrics (opsUpdateClusters m) (opsClustersCount m)
      (S (opsUpdateNamespaces m)) (opsNamespacesCount m)
      (opsCreateServerClient m) (opsCreateUserClient m)) cf).

(** opsNamespacesCount.WithLabelValues(clusterName).Set(n) *)
Definition opsNamespacesCount_Set (clusterName : string) (n : nat) : M unit :=
  modify (λ cf, let m := metrics cf in
    set_metrics (mkMetrics (opsUpdateClusters m) (opsClustersCount m)
      (opsUpdateNamespaces m) (<[clusterName := n]> (opsNamespacesCount m))
      (opsCreateServerClient m) (opsCreateUserClient m)) cf).

(** opsCreateServerClient.WithLabelValues(clusterName).Inc() *)
Definition opsCreateServerClient_Inc (clusterName : string) : M unit :=
  modify (λ cf, let m := metrics cf in
    set_metrics (mkMetrics (opsUpdateClusters m) (opsClustersCount m)
      (opsUpdateNamespaces m) (opsNamespacesCount m)
      (incr clusterName (opsCreateServerClient m)) (opsCreateUserClient m)) cf).

(** opsCreateUserClient.WithLabelValues(clusterName).Inc() *)
Definition opsCreateUserClient_Inc (clusterName : string) : M unit :=
  modify (λ cf, let m := metrics cf in
    set_metrics (mkMetrics (opsUpdateClusters m) (opsClustersCount m)
      (opsUpdateNamespaces m) (opsNamespacesCount m)
      (opsCreateServerClient m) (incr clusterName (opsCreateUserClient m))) cf).

(** ** The Aggregated Client and its pool *)

(** Modelled from the spec: NewClustersClientsPool(), declared outside
    factory.go: a pool "mapping cluster name → single-cluster client",
    empty when made. *)
Definition NewClustersClientsPool : gmap string k8sClient := ∅.

(** Modelled from the spec: [ClientsPool.Add], declared outside factory.go,
    "registers a per-cluster client into the pool, failing if a client for
    that cluster name is already present". *)
Definition ClientsPool_Add (client : k8sClient) (cluster : Cluster)
    (pool : gmap string k8sClient) : option error * gmap string k8sClient :=
  match pool !! GetName cluster with
  | Some _ =>
      (Some (errors_New ("client already in the pool: " +:+ GetName cluster)),
       pool)
  | None => (None, <[GetName cluster := client]> pool)
  end.

(** Modelled from the spec: [NewClient(pool, namespaces)], declared outside
    factory.go, builds the Aggregated Client, "a façade over one client per
    cluster" with "the set of namespaces visible to the client's identity".
    A nil [Client] is [None : option Client]. *)
Record Client : Type := NewClient {
  client_pool : gmap string k8sClient;
  client_namespaces : gmap string (list Namespace);
}.

(** ** Scheduling of a fan-out

    [go func(cluster) {...}(cl)] for every cluster, then [wg.Wait()]: every
    goroutine runs to its end before the caller goes on. A goroutine works
    on the cache entry, the counter and the pool entry of its own cluster;
    the order in which the goroutines take effect is the scheduler's. *)
Record scheduler : Type := mkScheduler {
  sched_order :> list Cluster → list Cluster;
  sched_perm : ∀ cs, sched_order cs ≡ₚ cs;
}.

(** ** getOrCreateClient *)

(** The pair (client, error) it returns is a sum: the client with a nil
    error, or the error with a nil client. *)
Definition getOrCreateClient (user : option UserPrincipal) (cluster : Cluster)
  : M (error + k8sClient) :=
  let '(user, isServer) :=
    match user with
    | None => (mkUser "weave-gitops-server" [], true)
    | Some u => (u, false)
    end in
  let* cached := UsersClients_Get user (GetName cluster) in
  match cached with
  | Some client => ret (inr client)
  | None =>
      let* created :=
        (if isServer : bool then
           opsCreateServerClient_Inc (GetName cluster) ;;
           ret (cluster_GetServerClient cluster)
         else
           opsCreateUserClient_Inc (GetName cluster) ;;
           ret (GetUserClient cluster user)) in
      match created with
      | inl err =>
          ret (inl (fmt_Errorf
                      ("failed creating client for cluster=" +:+
                       GetName cluster +:+ ": ") err))
      | inr client =>
          UsersClients_Set user (GetName cluster) client ;;
          ret (inr client)
      end
  end.

(** ** The fan-out of GetImpersonatedClient and GetServerClient *)

(** [errChan <- err] on the local, buffered error channel. Nothing receives
    from it before [wg.Wait()] returns, so a send that finds it full never
    completes. *)
Definition errChan_send (errChan : chan error) (err : error)
  : M (chan error) :=
  λ cf,
    match chan_send errChan err with
    | SendOk c => Returns c cf
    | SendBlocks => Hangs cf
    | SendPanics => Panics "send on closed channel" cf
    end.

(** The body of the goroutine started for [cluster]; [kind] is "user" in
    GetImpersonatedClient and "server" in GetServerClient. It works on the
    pool and the error channel it is passed. *)
Definition poolTask (user : option UserPrincipal) (kind : string)
    (cluster : Cluster) (st : gmap string k8sClient * chan error)
  : M (gmap string k8sClient * chan error) :=
  let '(pool, errChan) := st in
  let* r := getOrCreateClient user cluster in
  match r with
  | inl err =>
      let* errChan' :=
        errChan_send errChan
          (ClientError (GetName cluster)
             (fmt_Errorf ("failed creating " +:+ kind +:+ " client to pool: ")
                err)) in
      ret (pool, errChan')
  | inr client =>
      match ClientsPool_Add client cluster pool with
      | (Some err, pool') =>
          let* errChan' :=
            errChan_send errChan
              (ClientError (GetName cluster)
                 (fmt_Errorf "failed adding cluster client to pool: " err)) in
          ret (pool', errChan')
      | (None, pool') => ret (pool', errChan)
      end
  end.

(** [close(errChan)] and [for err := range errChan { result =
    multierror.Append(result, err) }]: on a closed channel the loop visits
    the buffered values, oldest first, and ends. *)
Definition collectErrors (errChan : chan error) : M (option (list error)) :=
  λ cf,
    match chan_close errChan with
    | None => Panics "close of closed channel" cf
    | Some c => Returns (foldl multierror_Append None (chan_buf c)) cf
    end.

(** ** User namespaces *)

(** The body of the goroutine UpdateUserNamespaces starts for [cluster];
    both failures are logged and leave the cache as it is. *)
Definition userNamespacesTask (user : UserPrincipal) (cluster : Cluster)
  : M unit :=
  let* clusterNs := ClustersNamespaces_Get (GetName cluster) in
  match GetUserClientset cluster user with
  | inl err => ret tt
  | inr clientset =>
      let* checker := gets nsChecker in
      match FilterAccessibleNamespaces checker (AuthorizationV1 clientset)
              clusterNs with
      | inl err => ret tt
      | inr filteredNs =>
          UsersNamespaces_Set user (GetName cluster) filteredNs
      end
  end.

Definition UpdateUserNamespaces (sched : scheduler) (user : UserPrincipal)
  : M unit :=
  let* cls := Clusters_Get in
  forM (sched cls) (userNamespacesTask user).

Definition GetUserNamespaces (user : UserPrincipal)
  : M (gmap string (list Namespace)) :=
  gets (λ cf, UsersNamespaces_GetAll user (clusters cf) (usersNamespaces cf)).

Definition userNsList (sched : scheduler) (user : UserPrincipal)
  : M (gmap string (list Namespace)) :=
  let* userNamespaces := GetUserNamespaces user in
  if bool_decide (0 < size userNamespaces) then ret userNamespaces
  else
    UpdateUserNamespaces sched user ;;
    GetUserNamespaces user.

(** ** The client-acquisition API *)

Definition GetImpersonatedClient (sched : scheduler)
    (user : option UserPrincipal) : M (option Client * option error) :=
  match user with
  | None => ret (None, Some (errors_New "no user supplied"))
  | Some u =>
      let pool := NewClustersClientsPool in
      let* n := gets (λ cf, length (clusters cf)) in
      let errChan := make_chan n in
      let* cls := Clusters_Get in
      let* (pool, errChan) :=
        foldM (poolTask (Some u) "user") (sched cls) (pool, errChan) in
      let* result := collectErrors errChan in
      let* nss := userNsList sched u in
      ret (Some (NewClient pool nss), ErrorOrNil result)
  end.

Definition GetServerClient (sched : scheduler)
  : M (option Client * option error) :=
  let pool := NewClustersClientsPool in
  let* n := gets (λ cf, length (clusters cf)) in
  let errChan := make_chan n in
  let* cls := Clusters_Get in
  let* (pool, errChan) :=
    foldM (poolTask None "server") (sched cls) (pool, errChan) in
  let* result := collectErrors errChan in
  let* nss := gets clustersNamespaces in
  ret (Some (NewClient pool nss), ErrorOrNil result).

(** [for _, c := range clusters { if c.GetName() == clusterName { cl = c;
    break } }] leaves in [cl] the first cluster of that name, if any, and
    leaves [cl] as it was when there is none. *)
Fixpoint findCluster (clusterName : string) (cs : list Cluster)
    (cl : option Cluster) : option Cluster :=
  match cs with
  | [] => cl
  | c :: rest =>
      if bool_decide (GetName c = clusterName) then Some c
      else findCluster clusterName rest cl
  end.

(** [var cl cluster.Cluster]: factory.go uses the type only through its
    methods ([GetName], [GetServerClient], [GetUserClient],
    [GetUserClientset]), as an interface. Until the loop assigns it, [cl]
    is the nil interface, [None] here, and [cl.GetName()] on it is a nil
    pointer dereference: the test that follows the loop is reached with a
    cluster only when the loop has found one. *)
Definition GetImpersonatedClientForCluster (sched : scheduler)
    (user : option UserPrincipal) (clusterName : string)
  : M (option Client * option error) :=
  match user with
  | None => ret (None, Some (errors_New "no user supplied"))
  | Some u =>
      let cl : option Cluster := None in
      let pool := NewClustersClientsPool in
      let* clusters := Clusters_Get in
      let cl := findCluster clusterName clusters cl in
      match cl with
      | None => Panics "invalid memory address or nil pointer dereference"
      | Some cl =>
          if bool_decide (GetName cl = EmptyString) then
            ret (None,
                 Some (errors_New ("cluster not found: " +:+ clusterName)))
          else
            let* r := getOrCreateClient (Some u) cl in
            match r with
            | inl err =>
                ret (None,
                     Some (fmt_Errorf "failed creating cluster client: " err))
            | inr client =>
                match ClientsPool_Add client cl pool with
                | (Some err, _) =>
                    ret (None,
                         Some (fmt_Errorf
                                 "failed adding cluster client to pool: " err))
                | (None, pool') =>
                    let* nss := userNsList sched u in
                    ret (Some (NewClient pool' nss), None)
                end
            end
      end
  end.

Fixpoint discoveryLoop (user : UserPrincipal) (clusterName : string)
    (cs : list Cluster) : option string * option error :=
  match cs with
  | [] => (None, Some (errors_New ("cluster not found: " +:+ clusterName)))
  | cluster :: rest =>
      if bool_decide (GetName cluster = clusterName) then
        match GetUserClientset cluster user with
        | inl err =>
            (None, Some (fmt_Errorf "error creating client for cluster: " err))
        | inr clientset => (Some (Discovery clientset), None)
        end
      else discoveryLoop user clusterName rest
  end.

Definition GetImpersonatedDiscoveryClient (user : option UserPrincipal)
    (clusterName : string) : M (option string * option error) :=
  match user with
  | None => ret (None, Some (errors_New "no user supplied"))
  | Some u =>
      let* cls := Clusters_Get in
      ret (discoveryLoop u clusterName cls)
  end.

(** ** Namespace refresh *)

Definition syncCaches : M unit :=
  let* newHash := gets (λ cf, Clusters_Hash (clusters cf)) in
  let* clustersHash := gets clustersHash in
  if bool_decide (newHash ≠ clustersHash) then
    ClustersNamespaces_Clear ;;
    UsersNamespaces_Clear ;;
    modify (set_clustersHash newHash)
  else ret tt.

(** client.ObjectList, as far as the type assertion of the loop (to a
    pointer to v1.NamespaceList) tells the lists apart. *)
Inductive ObjectList : Type :=
| NamespaceList (Items : list Namespace)
| OtherList.

(** The inner loop of UpdateNamespaces over the lists of one cluster. *)
Definition storeNamespaces (entry : string * list ObjectList) : M unit :=
  let '(clusterName, lists) := entry in
  forM lists (λ l,
    match l with
    | NamespaceList Items =>
        ClustersNamespaces_Set clusterName Items ;;
        opsNamespacesCount_Set clusterName (length Items)
    | OtherList => ret tt
    end).

(** [lister] is [serverClient.ClusteredList(ctx, nsList, false)], a method
    declared outside factory.go: what the fan-out leaves in
    [nsList.Lists()] and the error it returns. *)
Definition UpdateNamespaces (sched : scheduler)
    (lister : Client → gmap string (list ObjectList) * option error)
  : M (option error) :=
  let result : option (list error) := None in
  let* (serverClient, err) := GetServerClient sched in
  let result :=
    match err with
    | Some (multierror Errors) =>
        foldl (λ result err,
                 match err with
                 | ClientError ClusterName _ =>
                     multierror_Append result
                       (fmt_Errorf_after err (", cluster: " +:+ ClusterName))
                 | _ => result
                 end) result Errors
    | _ => result
    end in
  syncCaches ;;
  match serverClient with
  | None => Panics "invalid memory address or nil pointer dereference"
  | Some serverClient =>
      let '(nsLists, lerr) := lister serverClient in
      let result :=
        match lerr with
        | Some err => multierror_Append result err
        | None => result
        end in
      forM (map_to_list nsLists) storeNamespaces ;;
      opsUpdateNamespaces_Inc ;;
      ret (ErrorOrNil result)
  end.

(** GetClustersNamespaces *)
Definition GetClustersNamespaces : M (gmap string (list Namespace)) :=
  gets clustersNamespaces.

(** ** The Watcher Hub *)

(** [&ClustersWatcher{cf: cf, Updates: make(chan ClusterListUpdate, 1)}] is
    a new object: an address no watcher has. *)
Definition Subscribe : M loc :=
  λ cf,
    let cw := fresh (dom (heap cf)) in
    let cf := set_heap (<[cw := make_chan 1]> (heap cf)) cf in
    Returns cw (set_watchers (watchers cf ++ [cw]) cf).

Definition RemoveWatcher (cw : loc) : M unit :=
  modify (λ cf,
    let watchers' :=
      foldl (λ ws w, if bool_decide (cw ≠ w) then ws ++ [w] else ws)
        [] (watchers cf) in
    set_watchers watchers' cf).

(** [close(cw.Updates)] *)
Definition closeUpdates (cw : loc) : M unit :=
  λ cf,
    match heap cf !! cw with
    | None => Panics "invalid memory address or nil pointer dereference" cf
    | Some c =>
        match chan_close c with
        | None => Panics "close of closed channel" cf
        | Some c' => Returns tt (set_heap (<[cw := c']> (heap cf)) cf)
        end
    end.

(** [cw.cf] is the manager that made the watcher. *)
Definition Unsubscribe (cw : loc) : M unit :=
  RemoveWatcher cw ;;
  closeUpdates cw.

(** [cw.Updates <- ClusterListUpdate{Added: ..., Removed: ...}] *)
Definition Notify (cw : loc) (addedClusters removedClusters : list Cluster)
  : M unit :=
  λ cf,
    let u := mkUpdate addedClusters removedClusters in
    match heap cf !! cw with
    | None => Panics "invalid memory address or nil pointer dereference" cf
    | Some c =>
        match chan_send c u with
        | SendOk c' => Returns tt (set_heap (<[cw := c']> (heap cf)) cf)
        | SendBlocks => Parks cw u cf (λ cf', Returns tt cf')
        | SendPanics => Panics "send on closed channel" cf
        end
    end.

(** A blocked consumer's [<-cw.Updates]. *)
Definition receiveUpdate (cw : loc)
  : clustersManager → recv_result ClusterListUpdate :=
  λ cf,
    match heap cf !! cw with
    | None => RecvBlocks
    | Some c => chan_recv c
    end.

(** ** Cluster refresh *)

(** [fetched] is what [cf.clustersFetcher.Fetch(ctx)] answers this time. *)
Definition UpdateClusters (fetched : error + list Cluster)
  : M (option error) :=
  match fetched with
  | inl err => ret (Some (fmt_Errorf "failed to fetch clusters: " err))
  | inr clusters =>
      let* (addedClusters, removedClusters) := Clusters_Set clusters in
      opsUpdateClusters_Inc ;;
      opsClustersCount_Set (length clusters) ;;
      (if bool_decide (0 < length addedClusters) ||
          bool_decide (0 < length removedClusters)
       then
         let* ws := gets watchers in
         forM ws (λ w, Notify w addedClusters removedClusters)
       else ret tt) ;;
      ret None
  end.

(** ** Parked sends and the consumers that wake them *)

(** A subscriber takes the oldest update out of its channel. *)
Inductive consumer_step : clustersManager → clustersManager → Prop :=
| consumer_recv cf w c v c' :
    heap cf !! w = Some c →
    chan_recv c = RecvOk v c' →
    consumer_step cf (set_heap (<[w := c']> (heap cf)) cf).

(** [completes o a cf']: the call with outcome [o] returns [a] in state
    [cf'], each parked send being completed after consumers have made room
    for it. *)
Inductive completes {A} : outcome A → A → clustersManager → Prop :=
| completes_returns a cf : completes (Returns a cf) a cf
| completes_wakes w u cf k cf1 c c' a cf' :
    rtc consumer_step cf cf1 →
    heap cf1 !! w = Some c →
    chan_send c u = SendOk c' →
    completes (k (set_heap (<[w := c']> (heap cf1)) cf1)) a cf' →
    completes (Parks w u cf k) a cf'.

(** ** Start: the two background loops *)

Definition NewClustersManager (nsChecker : Checker) : clustersManager :=
  mkManager nsChecker [] EmptyString ∅ ∅ ∅ (make_chan 0) [] ∅
    (mkMetrics 0 0 0 ∅ ∅ ∅).

(** Where the goroutine [watchClusters] is. *)
Inductive clustersLoop : Type :=
| AtFirstUpdate      (* about to call cf.UpdateClusters(ctx) for the first time *)
| AtInitialLoad      (* at cf.initialClustersLoad <- true *)
| PollingClusters.   (* inside wait.PollImmediateInfinite *)

(** Where the goroutine [watchNamespaces] is. *)
Inductive namespacesLoop : Type :=
| AwaitingInitialLoad   (* at <-cf.initialClustersLoad *)
| PollingNamespaces.    (* inside wait.PollImmediateInfinite *)

Record system : Type := mkSystem {
  wc : clustersLoop;
  wn : namespacesLoop;
  mgr : clustersManager;
}.

(** [Start(ctx)]: [go cf.watchClusters(ctx); go cf.watchNamespaces(ctx)]. *)
Definition Start (cf : clustersManager) : system :=
  mkSystem AtFirstUpdate AwaitingInitialLoad cf.

Inductive event : Type :=
| EvUpdateClusters (err : option error)
    (* a call of UpdateClusters by watchClusters has returned [err] *)
| EvInitialClustersLoad
    (* the send and the receive on initialClustersLoad have met *)
| EvUpdateNamespaces (err : option error)
    (* watchNamespaces has called UpdateNamespaces *)
| EvConsumer.
    (* a subscriber has received an update *)

(** A send and a receive meeting on a channel: the value goes straight to
    the receiver. *)
Definition chan_rendezvous {A} (c : chan A) (v : A) : chan A :=
  mkChan (chan_cap c) (chan_buf c) (chan_recvd c ++ [v]) (chan_closed c).

(** One step of the system made of the two loops and the subscribers.
    [initialClustersLoad] is unbuffered: the send of [watchClusters] and
    the receive of [watchNamespaces] happen together. The condition
    functions of both polls return [false, nil]: the polls never end. *)
Inductive step : system → event → system → Prop :=
| step_first_update s fetched err cf' :
    wc s = AtFirstUpdate →
    completes (UpdateClusters fetched (mgr s)) err cf' →
    step s (EvUpdateClusters err) (mkSystem AtInitialLoad (wn s) cf')
| step_initial_load s :
    wc s = AtInitialLoad →
    wn s = AwaitingInitialLoad →
    step s EvInitialClustersLoad
      (mkSystem PollingClusters PollingNamespaces
         (set_initialClustersLoad
            (chan_rendezvous (initialClustersLoad (mgr s)) true) (mgr s)))
| step_poll_clusters s fetched err cf' :
    wc s = PollingClusters →
    completes (UpdateClusters fetched (mgr s)) err cf' →
    step s (EvUpdateClusters err) (mkSystem PollingClusters (wn s) cf')
| step_poll_namespaces s sched lister err cf' :
    wn s = PollingNamespaces →
    UpdateNamespaces sched lister (mgr s) = Returns err cf' →
    step s (EvUpdateNamespaces err) (mkSystem (wc s) PollingNamespaces cf')
| step_consumer s cf' :
    consumer_step (mgr s) cf' →
    step s EvConsumer (mkSystem (wc s) (wn s) cf').

(** [run s t s']: the system goes from [s] to [s'], [t] lists the events in
    the order they happened. *)
Inductive run : system → list event → system → Prop :=
| run_nil s : run s [] s
| run_snoc s t s1 e s2 :
    run s t s1 → step s1 e s2 → run s (t ++ [e]) s2.

Definition is_UpdateClusters (e : event) : bool :=
  match e with EvUpdateClusters _ => true | _ => false end.
Definition is_InitialClustersLoad (e : event) : bool :=
  match e with EvInitialClustersLoad => true | _ => false end.
Definition is_UpdateNamespaces (e : event) : bool :=
  match e with EvUpdateNamespaces _ => true | _ => false end.

(** Every event of kind [q] in the trace comes after an event of kind [p]. *)
Definition preceded_by (p q : event → bool) (t : list event) : Prop :=
  ∀ t1 e t2, t = t1 ++ e :: t2 → q e = true → ∃ e', e' ∈ t1 ∧ p e' = true.

(** ** Vocabulary of the statements *)

(** The invariant of a ClusterSet: "no two entries share a name". *)
Definition ClusterSet_invariant (cs : list Cluster) : Prop :=
  NoDup (names cs).

(** The identity a call of getOrCreateClient works for: the user, or the
    sentinel principal of the server when there is none. *)
Definition principal (user : option UserPrincipal) : UserPrincipal :=
  match user with
  | Some u => u
  | None => mkUser "weave-gitops-server" []
  end.

(** The factory of the cluster that builds a client for that identity. *)
Definition factory (user : option UserPrincipal) (cl : Cluster)
  : error + k8sClient :=
  match user with
  | Some u => GetUserClient cl u
  | None => cluster_GetServerClient cl
  end.

(** What getOrCreateClient answers for [cl] in state [cf]. *)
Definition created (user : option UserPrincipal) (cl : Cluster)
    (cf : clustersManager) : error + k8sClient :=
  match getOrCreateClient user cl cf with
  | Returns r _ => r
  | _ => inl (errors_New "getOrCreateClient did not return")
  end.

(** The error a goroutine of the fan-out reports for [cl], if any, when
    getOrCreateClient fails for it ([kind] as in [poolTask]). *)
Definition failureOf (kind : string) (user : option UserPrincipal)
    (cf : clustersManager) (cl : Cluster) : option error :=
  match created user cl cf with
  | inl err =>
      Some (ClientError (GetName cl)
              (fmt_Errorf ("failed creating " +:+ kind +:+ " client to pool: ")
                 err))
  | inr _ => None
  end.

(** [cf'] differs from [cf] at most in the User Client Cache and the
    metrics. *)
Definition clients_frame (cf cf' : clustersManager) : Prop :=
  nsChecker cf' = nsChecker cf
  ∧ clusters cf' = clusters cf
  ∧ clustersHash cf' = clustersHash cf
  ∧ clustersNamespaces cf' = clustersNamespaces cf
  ∧ usersNamespaces cf' = usersNamespaces cf
  ∧ initialClustersLoad cf' = initialClustersLoad cf
  ∧ watchers cf' = watchers cf
  ∧ heap cf' = heap cf.

(** [cf'] differs from [cf] at most in the User Namespace Cache. *)
Definition namespaces_frame (cf cf' : clustersManager) : Prop :=
  nsChecker cf' = nsChecker cf
  ∧ clusters cf' = clusters cf
  ∧ clustersHash cf' = clustersHash cf
  ∧ clustersNamespaces cf' = clustersNamespaces cf
  ∧ usersClients cf' = usersClients cf
  ∧ initialClustersLoad cf' = initialClustersLoad cf
  ∧ watchers cf' = watchers cf
  ∧ heap cf' = heap cf
  ∧ metrics cf' = metrics cf.

(** All the updates ever sent to watcher [w], oldest first. *)
Definition sent_to (w : loc) (cf : clustersManager) : list ClusterListUpdate :=
  match heap cf !! w with
  | Some c => chan_history c
  | None => []
  end.

(** How many times [w] is in the list of watchers (once for a watcher made
    by Subscribe and not removed, zero for any other address). *)
Definition registered (w : loc) (cf : clustersManager) : nat :=
  length (filter (λ w', w' = w) (watchers cf)).

(** The channel of watcher [w] is open and well formed, with a buffer of at
    least one update. *)
Definition watcher_live (cf : clustersManager) (w : loc) : Prop :=
  ∃ c, heap cf !! w = Some c
       ∧ chan_closed c = false
       ∧ 0 < chan_cap c
       ∧ length (chan_buf c) ≤ chan_cap c.

(** Everything the namespace refresh loop writes: the recorded hash, the
    three caches, and the counters of UpdateNamespaces and of server
    clients. *)
Definition namespace_side (cf : clustersManager) :=
  (clustersHash cf, clustersNamespaces cf, usersNamespaces cf,
   usersClients cf, opsUpdateNamespaces (metrics cf),
   opsNamespacesCount (metrics cf), opsCreateServerClient (metrics cf)).

(** What holds of the two loops after the events [t], for a system started
    on [cf0]: where one loop is tells where the other can be, which events
    have happened, and whether the namespace side is still that of [cf0]. *)
Definition loops_invariant (cf0 : clustersManager) (t : list event)
    (s : system) : Prop :=
  match wc s, wn s with
  | AtFirstUpdate, AwaitingInitialLoad =>
      (∀ e, e ∈ t → e = EvConsumer)
      ∧ namespace_side (mgr s) = namespace_side cf0
      ∧ initialClustersLoad (mgr s) = initialClustersLoad cf0
  | AtInitialLoad, AwaitingInitialLoad =>
      (∃ e, e ∈ t ∧ is_UpdateClusters e = true)
      ∧ (∀ e, e ∈ t → is_InitialClustersLoad e = false
                      ∧ is_UpdateNamespaces e = false)
      ∧ namespace_side (mgr s) = namespace_side cf0
      ∧ initialClustersLoad (mgr s) = initialClustersLoad cf0
  | PollingClusters, PollingNamespaces =>
      (∃ e, e ∈ t ∧ is_InitialClustersLoad e = true)
      ∧ length (filter (λ e, is_InitialClustersLoad e = true) t) = 1
      ∧ chan_recvd (initialClustersLoad (mgr s))
        = chan_recvd (initialClustersLoad cf0) ++ [true]
  | _, _ => False
  end.

(** [cf'] differs from [cf] at most in the Namespace Cache and the
    metrics. *)
Definition listing_frame (cf cf' : clustersManager) : Prop :=
  nsChecker cf' = nsChecker cf
  ∧ clusters cf' = clusters cf
  ∧ clustersHash cf' = clustersHash cf
  ∧ usersNamespaces cf' = usersNamespaces cf
  ∧ usersClients cf' = usersClients cf
  ∧ initialClustersLoad cf' = initialClustersLoad cf
  ∧ watchers cf' = watchers cf
  ∧ heap cf' = heap cf.

(** The counters of client constructions, per cluster: by the server's
    factory and by the user's. *)
Definition createCounters (cf : clustersManager)
  : gmap string nat * gmap string nat :=
  (opsCreateServerClient (metrics cf), opsCreateUserClient (metrics cf)).

(** The counters of UpdateClusters. *)
Definition updateClustersMetrics (cf : clustersManager) : nat * nat :=
  (opsUpdateClusters (metrics cf), opsClustersCount (metrics cf)).

(** ** Sample data *)

Definition alice : UserPrincipal := mkUser "alice" ["dev"].

Definition sampleCluster (name : string) (reachable : bool) : Cluster :=
  mkCluster name
    (if reachable then inr (K8sClient ("server@" +:+ name))
     else inl (errors_New "connection refused"))
    (λ u, if reachable then inr (K8sClient (ID u +:+ "@" +:+ name))
          else inl (errors_New "connection refused"))
    (λ u, if reachable
          then inr (mkClientset ("discovery@" +:+ name) (ID u +:+ "@" +:+ name))
          else inl (errors_New "connection refused")).

Definition management : Cluster := sampleCluster "management" true.
Definition staging : Cluster := sampleCluster "staging" false.
Definition production : Cluster := sampleCluster "production" true.

Definition allowAll : Checker := mkChecker (λ _ nss, inr nss).

Definition sampleManager : clustersManager :=
  set_clusters [management; staging; production] (NewClustersManager allowAll).

(** The sample manager after two calls of Subscribe: watchers 0 and 1. *)
Definition watchedManager : clustersManager :=
  match Subscribe sampleManager with
  | Returns _ cf1 =>
      match Subscribe cf1 with
      | Returns _ cf2 => cf2
      | _ => cf1
      end
  | _ => sampleManager
  end.

(** [watchedManager] after a refresh that lost the production cluster: both
    watchers hold one update they have not received yet. *)
Definition notifiedManager : clustersManager :=
  match UpdateClusters (inr [management; staging]) watchedManager with
  | Returns _ cf => cf
  | _ => watchedManager
  end.

(** A registry that breaks the ClusterSet invariant: one name twice. *)
Definition duplicatedManager : clustersManager :=
  set_clusters [management; management] (NewClustersManager allowAll).

(** Goroutines taking effect in the order they were started. *)
Definition fifo : scheduler := mkScheduler id (λ cs, reflexivity cs).

(** Goroutines taking effect in the opposite order. *)
Definition lifo : scheduler := mkScheduler reverse (@reverse_Permutation _).

(** ** More of the manager's API *)

(** GetClusters *)
Definition GetClusters : M (list Cluster) := Clusters_Get.

(** ** The session logs handler (core/server/session_logs.go) *)

(** Modelled from the spec: [Client.Scoped], declared outside this handler:
    "returns the single-cluster client or a cluster not found
    condition". *)
Definition Scoped (clustersClient : Client) (clusterName : string)
  : error + k8sClient :=
  match client_pool clustersClient !! clusterName with
  | Some cli => inr cli
  | None => inl (errors_New ("cluster not found: " +:+ clusterName))
  end.

(** sourcev1.Bucket, as far as the handler reads its spec. *)
Record BucketSpec : Type := mkBucketSpec {
  Endpoint : string;
  Insecure : bool;
}.

(** minio.ObjectInfo, as far as the handler reads it. *)
Record ObjectInfo : Type := mkObjectInfo {
  Key : string;
  Err : option error;
}.

(** *minio.Object: what [o.Close()] answers, and what [io.ReadAll(o)]
    answers when called after it, as the handler does. *)
Record Object : Type := mkObject {
  Close : option error;
  ReadAll : error + string;
}.

(** The services the handler talks to: the cluster's API server through
    [cli.Get], and the object store through the minio client. *)
Record SessionBackend : Type := mkSessionBackend {
  (* cli.Get of the Secret name in namespace: its Data *)
  getSecret : k8sClient → string → string → error + gmap string string;
  (* cli.Get of the Bucket name in namespace: its Spec *)
  getBucket : k8sClient → string → string → error + BucketSpec;
  (* minio.New(endpoint, {Creds: (accessKey, secretKey), Secure}) *)
  minio_New : string → string → string → bool → error + string;
  (* minioClient.ListObjects(ctx, bucket, {Prefix, StartAfter}), drained *)
  ListObjects : string → string → string → string → list ObjectInfo;
  (* minioClient.GetObject(ctx, bucket, key, {}) *)
  GetObject : string → string → string → error + Object;
}.

(** pb.GetSessionLogsRequest *)
Record GetSessionLogsRequest : Type := mkLogsRequest {
  req_SessionId : string;
  req_Token : string;
  req_Namespace : string;
  req_ClusterName : string;
}.

(** pb.GetSessionLogsResponse *)
Record GetSessionLogsResponse : Type := mkLogsResponse {
  Logs : list string;
  NextToken : string;
}.

(** The loop over the listed objects: the first failure ends the handler
    with that error; otherwise the contents are appended and the key
    becomes the token. *)
Fixpoint readLogs (backend : SessionBackend) (minioClient bucketName : string)
    (objs : list ObjectInfo) (logs : list string) (lastToken : string)
  : error + (list string * string) :=
  match objs with
  | [] => inr (logs, lastToken)
  | obj :: rest =>
      match Err obj with
      | Some err => inl err
      | None =>
          match GetObject backend minioClient bucketName (Key obj) with
          | inl err => inl err
          | inr o =>
              match Close o with
              | Some err => inl err
              | None =>
                  match ReadAll o with
                  | inl err => inl err
                  | inr b =>
                      readLogs backend minioClient bucketName rest
                        (logs ++ [b]) (Key obj)
                  end
              end
          end
      end
  end.

(** A missing key of [secret.Data] reads as the empty string. *)
Definition secretValue (data : gmap string string) (key : string) : string :=
  default EmptyString (data !! key).

(** [principal] is [auth.Principal(ctx)]. The declaration
    [var secretName := sourceName + "-credentials"] is read as the short
    declaration [secretName := ...]. *)
Definition GetSessionLogs (backend : SessionBackend) (sched : scheduler)
    (principal : option UserPrincipal) (msg : GetSessionLogsRequest)
  : M (option GetSessionLogsResponse * option error) :=
  let sourceName := "run-dev-bucket" in
  let bucketName := "gitops-run-logs" in
  let secretName := sourceName +:+ "-credentials" in
  let* (clustersClient, err) := GetImpersonatedClient sched principal in
  match err with
  | Some err =>
      ret (None, Some (fmt_Errorf "error getting impersonating client: " err))
  | None =>
      match clustersClient with
      | None => Panics "invalid memory address or nil pointer dereference"
      | Some clustersClient =>
          match Scoped clustersClient (req_ClusterName msg) with
          | inl err =>
              ret (None, Some (fmt_Errorf "getting cluster client: " err))
          | inr cli =>
              match getSecret backend cli (req_Namespace msg) secretName with
              | inl err => ret (None, Some err)
              | inr data =>
                  let accessKey := secretValue data "accesskey" in
                  let secretKey := secretValue data "secretkey" in
                  match getBucket backend cli (req_Namespace msg) sourceName with
                  | inl err => ret (None, Some err)
                  | inr bucket =>
                      match minio_New backend (Endpoint bucket) accessKey
                              secretKey (negb (Insecure bucket)) with
                      | inl err => ret (None, Some err)
                      | inr minioClient =>
                          let logs := [] in
                          let lastToken := EmptyString in
                          match readLogs backend minioClient bucketName
                                  (ListObjects backend minioClient bucketName
                                     (req_SessionId msg) (req_Token msg))
                                  logs lastToken with
                          | inl err => ret (None, Some err)
                          | inr (logs, lastToken) =>
                              ret (Some (mkLogsResponse logs lastToken), None)
                          end
                      end
                  end
              end
          end
      end
  end.

(** ** More vocabulary *)

(** The Watcher Hub as its own operations leave it: no watcher is
    registered twice, and every registered watcher has an open channel with
    one slot, holding at most one update. *)
Definition hub_invariant (cf : clustersManager) : Prop :=
  NoDup (watchers cf)
  ∧ ∀ w, w ∈ watchers cf →
         ∃ c, heap cf !! w = Some c
              ∧ chan_closed c = false
              ∧ chan_cap c = 1
              ∧ length (chan_buf c) ≤ 1.

(** The channels of [cf] are still there in [cf'], each with the capacity
    and the closed flag it had, and a buffer within its capacity or no
    longer than it was. *)
Definition heap_evolves (cf cf' : clustersManager) : Prop :=
  ∀ w c, heap cf !! w = Some c →
         ∃ c', heap cf' !! w = Some c'
               ∧ chan_cap c' = chan_cap c
               ∧ chan_closed c' = chan_closed c
               ∧ (length (chan_buf c') ≤ chan_cap c
                  ∨ length (chan_buf c') ≤ length (chan_buf c)).

(** The lists the registry's Set returns for [fetched]. *)
Definition diff_of (fetched : list Cluster) (cf : clustersManager)
  : list Cluster * list Cluster :=
  match Clusters_Set fetched cf with
  | Returns d _ => d
  | _ => ([], [])
  end.

(** The update a refresh with [fetched] sends to the watchers, if any. *)
Definition update_of (fetched : list Cluster) (cf : clustersManager)
  : option ClusterListUpdate :=
  match diff_of fetched cf with
  | ([], []) => None
  | (added, removed) => Some (mkUpdate added removed)
  end.

(** The namespaces UpdateNamespaces stores for a cluster out of its lists:
    those of the last namespace list among them, if there is one. *)
Definition listed (lists : list ObjectList) : option (list Namespace) :=
  last (omap (λ l, match l with
                   | NamespaceList Items => Some Items
                   | OtherList => None
                   end) lists).

(** The namespaces of cluster [cl] the user may access, as
    UpdateUserNamespaces computes them in state [cf]: none when the
    clientset or the access check fails. *)
Definition accessible (user : UserPrincipal) (cl : Cluster)
    (cf : clustersManager) : option (list Namespace) :=
  match GetUserClientset cl user with
  | inl _ => None
  | inr clientset =>
      match FilterAccessibleNamespaces (nsChecker cf)
              (AuthorizationV1 clientset)
              (default [] (clustersNamespaces cf !! GetName cl)) with
      | inl _ => None
      | inr filteredNs => Some filteredNs
      end
  end.

(** The counters and gauges a fan-out of client constructions leaves
    alone. *)
Definition refresh_metrics (cf : clustersManager) :=
  (opsUpdateClusters (metrics cf), opsClustersCount (metrics cf),
   opsUpdateNamespaces (metrics cf), opsNamespacesCount (metrics cf)).

(** An error that asks multierror.Append to add nothing. *)
Definition no_error (err : option error) : Prop :=
  err = None ∨ err = Some (multierror []).

(** The cluster the loop of GetImpersonatedDiscoveryClient stops at. *)
Definition firstNamed (clusterName : string) (cs : list Cluster)
  : option Cluster :=
  snd <$> list_find (λ c, GetName c = clusterName) cs.

(** A manager that knows a cluster registered under the empty name. *)
Definition unnamedManager : clustersManager :=
  set_clusters [sampleCluster EmptyString true; management]
    (NewClustersManager allowAll).

(** An object store with the two log objects of session "s1". *)
Definition sampleBackend : SessionBackend :=
  mkSessionBackend
    (λ _ _ _, inr {["accesskey" := "ak"; "secretkey" := "sk"]})
    (λ _ _ _, inr (mkBucketSpec "minio:9000" true))
    (λ endpoint _ _ _, inr endpoint)
    (λ _ _ prefix _,
       [mkObjectInfo (prefix +:+ "/1.txt") None;
        mkObjectInfo (prefix +:+ "/2.txt") None])
    (λ _ _ key, inr (mkObject None (inr ("log of " +:+ key)))).

Definition sampleRequest : GetSessionLogsRequest :=
  mkLogsRequest "s1" EmptyString "flux-system" "management".

(** A manager whose clusters are all reachable. *)
Definition healthyManager : clustersManager :=
  set_clusters [management; production] (NewClustersManager allowAll).

(** * Properties *)

(** ** Rejection of a missing user *)

(** C4: with a nil user, GetImpersonatedClient, GetImpersonatedClientForCluster
    and GetImpersonatedDiscoveryClient each return a nil client and the
    error "no user supplied", and leave the whole state of the manager
    (caches, counters, channels) as it was: nothing was looked up, built
    or fanned out. *)
Theorem nil_user_rejected (sched : scheduler) (clusterName : string)
    (cf : clustersManager) :
  GetImpersonatedClient sched None cf
    = Returns (None, Some (errors_New "no user supplied")) cf
  ∧ GetImpersonatedClientForCluster sched None clusterName cf
    = Returns (None, Some (errors_New "no user supplied")) cf
  ∧ GetImpersonatedDiscoveryClient None clusterName cf
    = Returns (None, Some (errors_New "no user supplied")) cf.
Proof. repeat split. Qed.

(** ** Unknown cluster names *)

Lemma findCluster_absent (clusterName : string) (cs : list Cluster)
    (cl : option Cluster) :
  clusterName ∉ names cs → findCluster clusterName cs cl = cl.
Proof.
  induction cs as [|c rest IH]; intros Hnot; simpl; [done|].
  unfold names in Hnot. rewrite fmap_cons, not_elem_of_cons in Hnot.
  destruct Hnot as [Hne Hrest].
  rewrite bool_decide_eq_false_2 by congruence.
  by apply IH.
Qed.

Lemma findCluster_present (clusterName : string) (cs : list Cluster)
    (cl : option Cluster) :
  clusterName ∈ names cs →
  ∃ c, findCluster clusterName cs cl = Some c
       ∧ c ∈ cs ∧ GetName c = clusterName.
Proof.
  induction cs as [|c rest IH]; intros Hin; simpl.
  - by apply elem_of_nil in Hin.
  - case_bool_decide as Hc.
    + exists c. split; [done|]. split; [apply list_elem_of_here | done].
    + unfold names in Hin. rewrite fmap_cons, elem_of_cons in Hin.
      destruct Hin as [Heq|Hin]; [congruence|].
      destruct (IH Hin) as (c' & Hf & Hm & Hn). exists c'.
      split; [done|]. split; [by apply list_elem_of_further | done].
Qed.

Lemma discoveryLoop_absent (u : UserPrincipal) (clusterName : string)
    (cs : list Cluster) :
  clusterName ∉ names cs →
  discoveryLoop u clusterName cs
  = (None, Some (errors_New ("cluster not found: " +:+ clusterName))).
Proof.
  induction cs as [|c rest IH]; intros Hnot; simpl; [done|].
  unfold names in Hnot. rewrite fmap_cons, not_elem_of_cons in Hnot.
  destruct Hnot as [Hne Hrest].
  rewrite bool_decide_eq_false_2 by congruence.
  by apply IH.
Qed.

(** C3: for a user and a cluster name that no known cluster has,
    GetImpersonatedClientForCluster does not return "cluster not found":
    it panics calling [GetName] on the [cl] its loop never assigned, before
    the return of that error is reached. The state of the manager is what
    it was. On the same input GetImpersonatedDiscoveryClient, whose loop
    needs no such variable, returns a nil client and the error
    "cluster not found: <name>". *)
Theorem unknown_cluster_panics (sched : scheduler) (u : UserPrincipal)
    (clusterName : string) (cf : clustersManager) :
  clusterName ∉ names (clusters cf) →
  GetImpersonatedClientForCluster sched (Some u) clusterName cf
  = Panics "invalid memory address or nil pointer dereference" cf
  ∧ GetImpersonatedDiscoveryClient (Some u) clusterName cf
    = Returns (None, Some (errors_New ("cluster not found: " +:+ clusterName)))
        cf.
Proof.
  intros Hnot. split.
  - unfold GetImpersonatedClientForCluster, bind, Clusters_Get, gets.
    simpl. by rewrite findCluster_absent.
  - unfold GetImpersonatedDiscoveryClient, bind, Clusters_Get, gets. simpl.
    by rewrite discoveryLoop_absent.
Qed.

Lemma unknown_cluster_panics_witness :
  ("development" ∉ names (clusters sampleManager))
  ∧ GetImpersonatedClientForCluster fifo (Some alice) "development" sampleManager
    = Panics "invalid memory address or nil pointer dereference" sampleManager
  ∧ GetImpersonatedDiscoveryClient (Some alice) "development" sampleManager
    = Returns (None, Some (errors_New "cluster not found: development"))
        sampleManager.
Proof.
  assert (H : "development" ∉ names (clusters sampleManager)).
  { apply (bool_decide_unpack _). vm_compute. exact I. }
  split; [exact H|].
  exact (unknown_cluster_panics fifo alice "development" sampleManager H).
Defined.

(** ** Discovery failures *)

(** C5: when Fetch fails with [err], UpdateClusters returns the error
    "failed to fetch clusters: ..." that wraps [err]; the state of the
    manager is what it was: the registry keeps its clusters, no watcher
    channel changed, and the counters of cluster updates did not move. *)
Theorem UpdateClusters_fetch_error (err : error) (cf : clustersManager) :
  ∃ e cf',
    UpdateClusters (inl err) cf = Returns (Some e) cf'
    ∧ e = fmt_Errorf "failed to fetch clusters: " err
    ∧ errors_Unwrap e = Some err
    ∧ clusters cf' = clusters cf
    ∧ watchers cf' = watchers cf
    ∧ heap cf' = heap cf
    ∧ updateClustersMetrics cf' = updateClustersMetrics cf
    ∧ cf' = cf.
Proof. eexists _, _. repeat split. Qed.

(** ** Resolution of a client through the User Client Cache *)

(** C7: getOrCreateClient works for the principal of the call, which for a
    nil user is the sentinel "weave-gitops-server". On a hit for (principal,
    cluster) it returns the cached client and changes nothing (no
    construction is counted). On a miss it calls the cluster's server
    factory for the server and the user factory otherwise, counting the
    construction under that kind: when the factory succeeds the client is
    returned and stored under (principal, cluster); when it fails the
    wrapped error is returned and the cache is as before. *)
Theorem getOrCreateClient_resolution (user : option UserPrincipal)
    (cl : Cluster) (cf : clustersManager) :
  let key := (ID (principal user), GetName cl) in
  let counted :=
    match user with
    | None => (incr (GetName cl) (createCounters cf).1, (createCounters cf).2)
    | Some _ => ((createCounters cf).1, incr (GetName cl) (createCounters cf).2)
    end in
  ID (principal None) = "weave-gitops-server"
  ∧ factory None cl = cluster_GetServerClient cl
  ∧ (∀ u, factory (Some u) cl = GetUserClient cl u)
  ∧ (∀ client, usersClients cf !! key = Some client →
       getOrCreateClient user cl cf = Returns (inr client) cf)
  ∧ (∀ client, usersClients cf !! key = None → factory user cl = inr client →
       ∃ cf', getOrCreateClient user cl cf = Returns (inr client) cf'
              ∧ usersClients cf' = <[key := client]> (usersClients cf)
              ∧ createCounters cf' = counted)
  ∧ (∀ err, usersClients cf !! key = None → factory user cl = inl err →
       ∃ cf', getOrCreateClient user cl cf
                = Returns (inl (fmt_Errorf
                                  ("failed creating client for cluster=" +:+
                                   GetName cl +:+ ": ") err)) cf'
              ∧ usersClients cf' = usersClients cf
              ∧ createCounters cf' = counted).
Proof.
  intros key counted. subst key counted.
  split; [done|]. split; [done|]. split; [done|].
  unfold getOrCreateClient, bind, UsersClients_Get, gets.
  destruct user as [u|]; simpl.
  - split; [|split].
    + intros client Hhit. by rewrite Hhit.
    + intros client Hmiss Hf. rewrite Hmiss. simpl. rewrite Hf. simpl.
      eexists. split; [reflexivity|]. done.
    + intros err Hmiss Hf. rewrite Hmiss. simpl. rewrite Hf. simpl.
      eexists. split; [reflexivity|]. done.
  - split; [|split].
    + intros client Hhit. by rewrite Hhit.
    + intros client Hmiss Hf. rewrite Hmiss. simpl. rewrite Hf. simpl.
      eexists. split; [reflexivity|]. done.
    + intros err Hmiss Hf. rewrite Hmiss. simpl. rewrite Hf. simpl.
      eexists. split; [reflexivity|]. done.
Qed.

Lemma getOrCreateClient_resolution_witness :
  ∃ cf',
    getOrCreateClient None management sampleManager
      = Returns (inr (K8sClient "server@management")) cf'
    ∧ usersClients cf'
      = <[("weave-gitops-server", "management") := K8sClient "server@management"]>
          (usersClients sampleManager)
    ∧ getOrCreateClient None management cf'
      = Returns (inr (K8sClient "server@management")) cf'.
Proof.
  destruct (getOrCreateClient_resolution None management sampleManager)
    as (_ & _ & _ & _ & Hmiss & _).
  destruct (Hmiss (K8sClient "server@management") eq_refl eq_refl)
    as (cf' & Hret & Hcache & _).
  exists cf'. split; [exact Hret|]. split; [exact Hcache|].
  destruct (getOrCreateClient_resolution None management cf')
    as (_ & _ & _ & Hhit & _).
  apply Hhit. rewrite Hcache. apply lookup_insert_eq.
Defined.

(** ** Subscribing and unsubscribing *)

Lemma RemoveWatcher_loop (cw : loc) (ws acc : list loc) :
  foldl (λ ws w, if bool_decide (cw ≠ w) then ws ++ [w] else ws) acc ws
  = acc ++ filter (λ w, cw ≠ w) ws.
Proof.
  revert acc. induction ws as [|w rest IH]; intros acc; simpl.
  - by rewrite app_nil_r.
  - rewrite IH. rewrite filter_cons.
    destruct (decide (cw ≠ w)) as [Hw|Hw].
    + rewrite bool_decide_eq_true_2 by done. by rewrite <- app_assoc.
    + rewrite bool_decide_eq_false_2 by done. done.
Qed.

Lemma RemoveWatcher_filter (cw : loc) (cf : clustersManager) :
  RemoveWatcher cw cf
  = Returns tt (set_watchers (filter (λ w, cw ≠ w) (watchers cf)) cf).
Proof.
  unfold RemoveWatcher, modify. by rewrite RemoveWatcher_loop.
Qed.

(** C9: Subscribe makes a watcher at an address no object had; its channel
    is open and empty with room for exactly one update (a first send is
    buffered, a second one would park); the watcher is appended to the
    list of watchers, and the other watchers and channels are as before.
    Unsubscribe of a watcher whose channel is open removes that watcher
    from the list, keeps the other watchers in their order, closes the
    channel of the watcher and touches no other channel; a receive on the
    closed channel does not park: it yields a buffered update, or reports
    the closure. *)
Theorem subscribe_unsubscribe (cf : clustersManager) :
  (∃ cw cf' ch,
      Subscribe cf = Returns cw cf'
      ∧ heap cf !! cw = None
      ∧ watchers cf' = watchers cf ++ [cw]
      ∧ heap cf' !! cw = Some ch
      ∧ chan_cap ch = 1 ∧ chan_buf ch = [] ∧ chan_closed ch = false
      ∧ (∀ u1 u2, ∃ ch1, chan_send ch u1 = SendOk ch1
                         ∧ chan_buf ch1 = [u1]
                         ∧ chan_send ch1 u2 = SendBlocks)
      ∧ (∀ w, w ≠ cw → heap cf' !! w = heap cf !! w))
  ∧ (∀ cw c,
      heap cf !! cw = Some c → chan_closed c = false →
      ∃ cf' c',
        Unsubscribe cw cf = Returns tt cf'
        ∧ watchers cf' = filter (λ w, cw ≠ w) (watchers cf)
        ∧ (cw ∉ watchers cf')
        ∧ (∀ w, w ≠ cw → (w ∈ watchers cf' ↔ w ∈ watchers cf)
                          ∧ heap cf' !! w = heap cf !! w)
        ∧ heap cf' !! cw = Some c'
        ∧ chan_closed c' = true
        ∧ chan_buf c' = chan_buf c
        ∧ receiveUpdate cw cf' ≠ RecvBlocks
        ∧ (chan_buf c = [] → receiveUpdate cw cf' = RecvClosed)).
Proof.
  split.
  - eexists (fresh (dom (heap cf))), _, (make_chan 1).
    split; [reflexivity|].
    assert (Hfresh : heap cf !! fresh (dom (heap cf)) = None).
    { apply not_elem_of_dom. apply is_fresh. }
    split; [exact Hfresh|]. split; [done|]. simpl.
    split; [apply lookup_insert_eq|].
    split; [done|]. split; [done|]. split; [done|].
    split.
    + intros u1 u2. eexists. split; [reflexivity|]. split; done.
    + intros w Hw. by rewrite lookup_insert_ne.
  - intros cw c Hc Hopen.
    unfold Unsubscribe, bind. rewrite RemoveWatcher_filter. simpl.
    unfold closeUpdates. simpl. rewrite Hc.
    unfold chan_close. rewrite Hopen.
    eexists _, _. split; [reflexivity|]. simpl.
    split; [done|].
    split.
    { rewrite list_elem_of_filter. intros [Hne _]. by apply Hne. }
    split.
    { intros w Hw. split.
      - rewrite list_elem_of_filter. split; [by intros [_ ?]|].
        intros Hin. split; [congruence | done].
      - by rewrite lookup_insert_ne. }
    split; [apply lookup_insert_eq|].
    split; [done|]. split; [done|].
    unfold receiveUpdate. simpl. rewrite lookup_insert_eq.
    unfold chan_recv. simpl.
    split.
    + destruct (chan_buf c); done.
    + intros Hb. by rewrite Hb.
Qed.

Lemma subscribe_unsubscribe_witness :
  ∃ cf1 cf2,
    Subscribe sampleManager = Returns 0 cf1
    ∧ Unsubscribe 0 cf1 = Returns tt cf2
    ∧ watchers cf1 = [0]
    ∧ watchers cf2 = []
    ∧ receiveUpdate 0 cf2 = RecvClosed.
Proof.
  destruct (subscribe_unsubscribe sampleManager) as [Hsub _].
  destruct Hsub as (cw & cf1 & ch & Hs & _ & Hws & Hch & _ & Hbuf & Hopen & _).
  assert (Hcw : cw = 0) by (vm_compute in Hs; congruence).
  subst cw.
  destruct (subscribe_unsubscribe cf1) as [_ Hunsub].
  destruct (Hunsub 0 ch Hch Hopen)
    as (cf2 & c' & Hu & Hws2 & _ & _ & _ & _ & _ & _ & Hrecv).
  exists cf1, cf2. split; [exact Hs|]. split; [exact Hu|].
  split; [exact Hws|]. split.
  - rewrite Hws2, Hws. reflexivity.
  - exact (Hrecv Hbuf).
Defined.

(** ** The fan-out over the clusters *)

Lemma clients_frame_refl (cf : clustersManager) : clients_frame cf cf.
Proof. by repeat split. Qed.

Lemma clients_frame_trans (cf1 cf2 cf3 : clustersManager) :
  clients_frame cf1 cf2 → clients_frame cf2 cf3 → clients_frame cf1 cf3.
Proof.
  unfold clients_frame. intros H12 H23.
  destruct H12 as (?&?&?&?&?&?&?&?), H23 as (?&?&?&?&?&?&?&?).
  repeat split; congruence.
Qed.

Lemma namespaces_frame_refl (cf : clustersManager) : namespaces_frame cf cf.
Proof. by repeat split. Qed.

Create HintDb frames.
#[local] Hint Resolve clients_frame_refl namespaces_frame_refl : frames.

Lemma created_unfold (user : option UserPrincipal) (cl : Cluster)
    (cf : clustersManager) :
  created user cl cf
  = match usersClients cf !! (ID (principal user), GetName cl) with
    | Some client => inr client
    | None =>
        match factory user cl with
        | inl err =>
            inl (fmt_Errorf ("failed creating client for cluster=" +:+
                             GetName cl +:+ ": ") err)
        | inr client => inr client
        end
    end.
Proof.
  unfold created, getOrCreateClient, bind, UsersClients_Get, gets.
  destruct user as [u|]; simpl;
    (destruct (usersClients cf !! _) as [client|]; simpl; [done|]).
  - by destruct (GetUserClient cl u).
  - by destruct (cluster_GetServerClient cl).
Qed.

(** getOrCreateClient always returns; it writes at most the cache entry of
    (principal, cluster), with the client it returns. *)
Lemma getOrCreateClient_returns (user : option UserPrincipal) (cl : Cluster)
    (cf : clustersManager) :
  ∃ cf',
    getOrCreateClient user cl cf = Returns (created user cl cf) cf'
    ∧ clients_frame cf cf'
    ∧ ∀ key, key ≠ (ID (principal user), GetName cl) →
             usersClients cf' !! key = usersClients cf !! key.
Proof.
  unfold created.
  unfold getOrCreateClient, bind, UsersClients_Get, UsersClients_Set, gets,
    modify.
  destruct user as [u|]; simpl;
    (destruct (usersClients cf !! _) as [client|] eqn:Hc; simpl;
     [eexists; split; [reflexivity|]; split; [auto with frames|done]|]).
  - destruct (GetUserClient cl u) as [err|client]; simpl;
      eexists; (split; [reflexivity|]); (split; [by repeat split|]); simpl.
    + done.
    + intros key Hkey. by rewrite lookup_insert_ne.
  - destruct (cluster_GetServerClient cl) as [err|client]; simpl;
      eexists; (split; [reflexivity|]); (split; [by repeat split|]); simpl.
    + done.
    + intros key Hkey. by rewrite lookup_insert_ne.
Qed.

Lemma created_agree (user : option UserPrincipal) (cl : Cluster)
    (cf cf0 : clustersManager) :
  usersClients cf !! (ID (principal user), GetName cl)
    = usersClients cf0 !! (ID (principal user), GetName cl) →
  created user cl cf = created user cl cf0.
Proof. intros Heq. rewrite !created_unfold. by rewrite Heq. Qed.

Lemma errChan_send_room (ch : chan error) (e : error) (cf : clustersManager) :
  chan_closed ch = false →
  length (chan_buf ch) < chan_cap ch →
  errChan_send ch e cf
  = Returns (mkChan (chan_cap ch) (chan_buf ch ++ [e]) (chan_recvd ch) false) cf.
Proof.
  intros Hopen Hroom. unfold errChan_send, chan_send.
  rewrite Hopen. by rewrite bool_decide_eq_true_2.
Qed.

Section FanOut.
Variable user : option UserPrincipal.
Variable kind : string.

(** One goroutine: it returns when the error channel is open and has
    room, and sends at most one error. When the pool has no client of
    that name yet, the goroutine adds the client getOrCreateClient
    returned, or sends the error of getOrCreateClient. *)
Lemma poolTask_step (cl : Cluster) (pool : gmap string k8sClient)
    (ch : chan error) (cf : clustersManager) :
  chan_closed ch = false →
  length (chan_buf ch) < chan_cap ch →
  ∃ pool' ch' cf' es,
    poolTask user kind cl (pool, ch) cf = Returns (pool', ch') cf'
    ∧ clients_frame cf cf'
    ∧ (∀ key, key ≠ (ID (principal user), GetName cl) →
              usersClients cf' !! key = usersClients cf !! key)
    ∧ chan_closed ch' = false
    ∧ chan_cap ch' = chan_cap ch
    ∧ chan_buf ch' = chan_buf ch ++ es
    ∧ length es ≤ 1
    ∧ (pool !! GetName cl = None →
         es = option_list (failureOf kind user cf cl)
         ∧ pool' = match created user cl cf with
                   | inr client => <[GetName cl := client]> pool
                   | inl _ => pool
                   end).
Proof.
  intros Hopen Hroom. unfold poolTask, bind.
  destruct (getOrCreateClient_returns user cl cf) as (cf' & Hret & Hfr & Hkeys).
  rewrite Hret. simpl. unfold failureOf.
  destruct (created user cl cf) as [err|client]; simpl.
  - rewrite errChan_send_room by done. simpl.
    eexists _, _, cf', [_]. split; [reflexivity|]. simpl.
    split; [exact Hfr|]. split; [exact Hkeys|]. repeat split; done.
  - unfold ClientsPool_Add.
    destruct (pool !! GetName cl) as [old|] eqn:Hp; simpl.
    + rewrite errChan_send_room by done. simpl.
      eexists _, _, cf', [_]. split; [reflexivity|]. simpl.
      split; [exact Hfr|]. split; [exact Hkeys|]. repeat split; done.
    + unfold ret. eexists _, _, cf', []. split; [reflexivity|].
      rewrite app_nil_r. simpl.
      split; [exact Hfr|]. split; [exact Hkeys|]. repeat split; try done. lia.
Qed.

(** The fan-out returns for any list of clusters when the error channel
    has room for one error per cluster. *)
Lemma foldM_poolTask_returns (l : list Cluster) :
  ∀ (pool : gmap string k8sClient) (ch : chan error) (cf : clustersManager),
    chan_closed ch = false →
    length (chan_buf ch) + length l ≤ chan_cap ch →
    ∃ pool' ch' cf',
      foldM (poolTask user kind) l (pool, ch) cf = Returns (pool', ch') cf'
      ∧ clients_frame cf cf'
      ∧ chan_closed ch' = false.
Proof.
  induction l as [|cl rest IH]; intros pool ch cf Hopen Hroom; cbn [foldM].
  - exists pool, ch, cf. split; [done|]. split; [auto with frames|done].
  - simpl in Hroom. unfold bind.
    destruct (poolTask_step cl pool ch cf Hopen ltac:(lia))
      as (pool1 & ch1 & cf1 & es & Hret & Hfr & _ & Hopen1 & Hcap1 & Hbuf1 & Hes & _).
    rewrite Hret. simpl.
    destruct (IH pool1 ch1 cf1 Hopen1) as (pool' & ch' & cf' & Hret' & Hfr' & Hopen').
    { rewrite Hbuf1, Hcap1, length_app. lia. }
    exists pool', ch', cf'. split; [exact Hret'|].
    split; [by eapply clients_frame_trans|done].
Qed.

(** The fan-out over clusters of distinct names, none of them in the pool
    yet: the errors sent are those of the clusters getOrCreateClient
    fails for, in the order of the list, and the pool gains the clients
    of the others. [cf0] is the state the fan-out started in. *)
Lemma foldM_poolTask_spec (cf0 : clustersManager) (l : list Cluster) :
  ∀ (pool : gmap string k8sClient) (ch : chan error) (cf : clustersManager),
    NoDup (names l) →
    (∀ c, c ∈ l → pool !! GetName c = None) →
    (∀ c, c ∈ l →
       usersClients cf !! (ID (principal user), GetName c)
       = usersClients cf0 !! (ID (principal user), GetName c)) →
    chan_closed ch = false →
    length (chan_buf ch) + length l ≤ chan_cap ch →
    ∃ pool' ch' cf',
      foldM (poolTask user kind) l (pool, ch) cf = Returns (pool', ch') cf'
      ∧ clients_frame cf cf'
      ∧ chan_closed ch' = false
      ∧ chan_buf ch' = chan_buf ch ++ omap (failureOf kind user cf0) l
      ∧ ∀ n k, pool' !! n = Some k
               ↔ pool !! n = Some k
                 ∨ ∃ c, c ∈ l ∧ GetName c = n ∧ created user c cf0 = inr k.
Proof.
  induction l as [|cl rest IH]; intros pool ch cf Hnd Hpool Hcache Hopen Hroom;
    cbn [foldM].
  - exists pool, ch, cf. split; [done|]. split; [apply clients_frame_refl|].
    split; [done|]. split; [by rewrite app_nil_r|].
    intros n k. split; [by left|]. intros [H|(c & Hc & _)]; [done|].
    by apply elem_of_nil in Hc.
  - simpl in Hroom. unfold bind.
    unfold names in Hnd. rewrite fmap_cons in Hnd.
    apply NoDup_cons in Hnd as [Hfresh Hnd].
    assert (Hhead : pool !! GetName cl = None)
      by (apply Hpool, list_elem_of_here).
    assert (Hcl : created user cl cf = created user cl cf0)
      by (apply created_agree, Hcache, list_elem_of_here).
    destruct (poolTask_step cl pool ch cf Hopen ltac:(lia))
      as (pool1 & ch1 & cf1 & es & Hret & Hfr & Hkeys & Hopen1 & Hcap1
          & Hbuf1 & _ & Hspec).
    destruct (Hspec Hhead) as [Hes Hpool1]. clear Hspec.
    rewrite Hret. simpl.
    assert (Hne : ∀ c, c ∈ rest → GetName c ≠ GetName cl).
    { intros c Hc Heq. apply Hfresh. rewrite <- Heq.
      unfold names. by apply list_elem_of_fmap_2. }
    destruct (IH pool1 ch1 cf1 Hnd)
      as (pool' & ch' & cf' & Hret' & Hfr' & Hopen' & Hbuf' & Hpool').
    { intros c Hc. rewrite Hpool1.
      assert (pool !! GetName c = None)
        by (apply Hpool; by apply list_elem_of_further).
      destruct (created user cl cf); [done|].
      rewrite lookup_insert_ne; [done|]. intros Heq. by apply (Hne c). }
    { intros c Hc. rewrite Hkeys.
      - apply Hcache. by apply list_elem_of_further.
      - intros Heq. apply (Hne c Hc). congruence. }
    { done. }
    { rewrite Hbuf1, Hcap1, length_app, Hes. unfold failureOf.
      destruct (created user cl cf); simpl; lia. }
    exists pool', ch', cf'. split; [exact Hret'|].
    split; [by eapply clients_frame_trans|]. split; [done|].
    split.
    + rewrite Hbuf', Hbuf1, Hes, <- app_assoc. f_equal.
      unfold failureOf at 1 3. rewrite Hcl.
      by destruct (created user cl cf0).
    + intros n k. rewrite Hpool', Hpool1, Hcl. split.
      * intros [H1|(c & Hc & Hn & Hk)].
        -- destruct (created user cl cf0) as [err|client] eqn:Hcr; [by left|].
           destruct (decide (GetName cl = n)) as [<-|Hn].
           ++ rewrite lookup_insert_eq in H1. right. exists cl.
              split; [apply list_elem_of_here|]. split; [done|]. congruence.
           ++ rewrite lookup_insert_ne in H1 by done. by left.
        -- right. exists c. split; [by apply list_elem_of_further|done].
      * intros [H|(c & Hc & Hn & Hk)].
        -- left. destruct (created user cl cf0); [done|].
           rewrite lookup_insert_ne; [done|]. intros Heq. congruence.
        -- apply elem_of_cons in Hc as [->|Hc].
           ++ left. rewrite Hk, <- Hn. apply lookup_insert_eq.
           ++ right. by exists c.
Qed.
End FanOut.

(** ** Collecting the errors, listing the user's namespaces *)

Lemma multierror_Append_fold (es : list error) (acc : option (list error)) :
  (∀ e, e ∈ es → ∀ l, e ≠ multierror l) →
  foldl multierror_Append acc es
  = match es with
    | [] => acc
    | _ => Some (default [] acc ++ es)
    end.
Proof.
  revert acc. induction es as [|e rest IH]; intros acc Hplain; simpl; [done|].
  rewrite IH by (intros e' He'; apply Hplain; by apply list_elem_of_further).
  assert (He : ∀ l, e ≠ multierror l) by (apply Hplain, list_elem_of_here).
  assert (Hone : multierror_Append acc e = Some (default [] acc ++ [e])).
  { destruct e; try done. by destruct (He Errors). }
  rewrite Hone. simpl. destruct rest; [done|].
  by rewrite <- app_assoc.
Qed.

Lemma failureOf_plain (kind : string) (user : option UserPrincipal)
    (cf : clustersManager) (l : list Cluster) (e : error) :
  e ∈ omap (failureOf kind user cf) l → ∀ es, e ≠ multierror es.
Proof.
  rewrite list_elem_of_omap. intros (c & _ & Hc) es.
  unfold failureOf in Hc. destruct (created user c cf); by simplify_eq.
Qed.

Lemma collectErrors_open (ch : chan error) (cf : clustersManager) :
  chan_closed ch = false →
  collectErrors ch cf
  = Returns (foldl multierror_Append None (chan_buf ch)) cf.
Proof. intros Hopen. unfold collectErrors, chan_close. by rewrite Hopen. Qed.

Lemma namespaces_frame_trans (cf1 cf2 cf3 : clustersManager) :
  namespaces_frame cf1 cf2 → namespaces_frame cf2 cf3 →
  namespaces_frame cf1 cf3.
Proof.
  unfold namespaces_frame. intros H12 H23.
  destruct H12 as (?&?&?&?&?&?&?&?&?), H23 as (?&?&?&?&?&?&?&?&?).
  repeat split; congruence.
Qed.

(** A loop whose body always returns, returns; a relation between the
    states before and after that every iteration keeps is kept by the
    loop. *)
Lemma forM_returns {A} (R : relation clustersManager) (body : A → M unit)
    (xs : list A) :
  (∀ cf, R cf cf) →
  (∀ cf1 cf2 cf3, R cf1 cf2 → R cf2 cf3 → R cf1 cf3) →
  (∀ x cf, ∃ cf', body x cf = Returns tt cf' ∧ R cf cf') →
  ∀ cf, ∃ cf', forM xs body cf = Returns tt cf' ∧ R cf cf'.
Proof.
  intros Hrefl Htrans Hbody.
  induction xs as [|x rest IH]; intros cf; cbn [forM].
  - exists cf. by split.
  - unfold bind. destruct (Hbody x cf) as (cf1 & Hret & HR). rewrite Hret. simpl.
    destruct (IH cf1) as (cf' & Hret' & HR'). exists cf'. split; [done|].
    by eapply Htrans.
Qed.

Lemma userNamespacesTask_returns (user : UserPrincipal) (cl : Cluster)
    (cf : clustersManager) :
  ∃ cf', userNamespacesTask user cl cf = Returns tt cf' ∧ namespaces_frame cf cf'.
Proof.
  unfold userNamespacesTask, bind, ClustersNamespaces_Get, gets. simpl.
  destruct (GetUserClientset cl user) as [err|clientset]; simpl.
  - exists cf. split; [done|auto with frames].
  - destruct (FilterAccessibleNamespaces _ _ _) as [err|filteredNs].
    + exists cf. split; [done|auto with frames].
    + eexists. split; [reflexivity|]. by repeat split.
Qed.

Lemma userNsList_returns (sched : scheduler) (user : UserPrincipal)
    (cf : clustersManager) :
  ∃ nss cf', userNsList sched user cf = Returns nss cf' ∧ namespaces_frame cf cf'.
Proof.
  unfold userNsList, bind, GetUserNamespaces, gets. simpl.
  case_bool_decide.
  - eexists _, cf. split; [reflexivity|apply namespaces_frame_refl].
  - unfold UpdateUserNamespaces, bind, Clusters_Get, gets. simpl.
    destruct (forM_returns namespaces_frame (userNamespacesTask user)
                (sched (clusters cf)) namespaces_frame_refl
                namespaces_frame_trans
                (userNamespacesTask_returns user) cf) as (cf' & Hret & Hfr).
    rewrite Hret. simpl. eexists _, cf'. by split.
Qed.

Lemma sched_length (sched : scheduler) (cs : list Cluster) :
  length (sched cs) = length cs.
Proof. apply Permutation_length, sched_perm. Qed.

Lemma sched_elem_of (sched : scheduler) (cs : list Cluster) (c : Cluster) :
  c ∈ sched cs ↔ c ∈ cs.
Proof. by rewrite (sched_perm sched cs). Qed.

Lemma sched_nil (sched : scheduler) : sched [] = [].
Proof. apply Permutation_nil_r. apply sched_perm. Qed.

(** ** The aggregated client is never nil *)

Lemma GetImpersonatedClient_returns (sched : scheduler) (u : UserPrincipal)
    (cf : clustersManager) :
  ∃ pool nss err cf',
    GetImpersonatedClient sched (Some u) cf
    = Returns (Some (NewClient pool nss), err) cf'
    ∧ (clusters cf = [] → pool = ∅ ∧ err = None).
Proof.
  unfold GetImpersonatedClient, bind, Clusters_Get, gets. simpl.
  destruct (foldM_poolTask_returns (Some u) "user" (sched (clusters cf))
              NewClustersClientsPool (make_chan (length (clusters cf))) cf)
    as (pool & ch & cf1 & Hret & Hfr & Hopen); [done| |].
  { simpl. by rewrite sched_length. }
  rewrite Hret. simpl. rewrite collectErrors_open by done. simpl.
  destruct (userNsList_returns sched u cf1) as (nss & cf' & Hns & _).
  rewrite Hns. simpl. eexists pool, nss, _, cf'. split; [reflexivity|].
  intros Hnil. rewrite Hnil, sched_nil in Hret. simpl in Hret.
  unfold ret in Hret. by simplify_eq.
Qed.

Lemma GetServerClient_returns (sched : scheduler) (cf : clustersManager) :
  ∃ pool err cf',
    GetServerClient sched cf
    = Returns (Some (NewClient pool (clustersNamespaces cf)), err) cf'
    ∧ clients_frame cf cf'
    ∧ (clusters cf = [] → pool = ∅ ∧ err = None).
Proof.
  unfold GetServerClient, bind, Clusters_Get, gets. simpl.
  destruct (foldM_poolTask_returns None "server" (sched (clusters cf))
              NewClustersClientsPool (make_chan (length (clusters cf))) cf)
    as (pool & ch & cf1 & Hret & Hfr & Hopen); [done| |].
  { simpl. by rewrite sched_length. }
  rewrite Hret. simpl. rewrite collectErrors_open by done. simpl.
  assert (Hcn : clustersNamespaces cf1 = clustersNamespaces cf)
    by (by destruct Hfr as (?&?&?&?&?)).
  rewrite Hcn.
  eexists pool, _, cf1. split; [reflexivity|]. split; [exact Hfr|].
  intros Hnil. rewrite Hnil, sched_nil in Hret. simpl in Hret.
  unfold ret in Hret. by simplify_eq.
Qed.

(** C10: for a user, GetImpersonatedClient returns, and so does
    GetServerClient, whatever the clusters and whatever the order of the
    goroutines; the client they return is not nil: it wraps a pool. That
    holds when every construction fails, and when there is no cluster, in
    which case the pool is empty and the error nil. *)
Theorem aggregated_client_never_nil (sched : scheduler) (cf : clustersManager) :
  (∀ u, ∃ pool nss err cf',
      GetImpersonatedClient sched (Some u) cf
      = Returns (Some (NewClient pool nss), err) cf'
      ∧ (clusters cf = [] → pool = ∅ ∧ err = None))
  ∧ (∃ pool nss err cf',
      GetServerClient sched cf = Returns (Some (NewClient pool nss), err) cf'
      ∧ (clusters cf = [] → pool = ∅ ∧ err = None)).
Proof.
  split.
  - intros u. apply GetImpersonatedClient_returns.
  - destruct (GetServerClient_returns sched cf) as (pool & err & cf' & Hret & _ & Hnil).
    by exists pool, (clustersNamespaces cf), err, cf'.
Qed.

(** ** The aggregated client of a user *)

Lemma failureOf_elem_of (kind : string) (user : option UserPrincipal)
    (cf : clustersManager) (l : list Cluster) (x : error) :
  x ∈ omap (failureOf kind user cf) l
  ↔ ∃ c e, c ∈ l ∧ created user c cf = inl e
           ∧ x = ClientError (GetName c)
                   (fmt_Errorf ("failed creating " +:+ kind +:+
                                " client to pool: ") e).
Proof.
  rewrite list_elem_of_omap. unfold failureOf. split.
  - intros (c & Hc & Hf). destruct (created user c cf) as [e|k] eqn:Hcr;
      [|done]. exists c, e. by simplify_eq.
  - intros (c & e & Hc & Hcr & ->). exists c. by rewrite Hcr.
Qed.

(** C1: for a user and a set of clusters (no two of the same name, the
    invariant of a ClusterSet), whatever the order in
    which the goroutines take effect, GetImpersonatedClient returns once
    every goroutine is done. The pool of the client it returns holds, under
    the name of each cluster for which getOrCreateClient succeeded, the
    client getOrCreateClient returned, and nothing else. The combined
    error is nil if and only if getOrCreateClient failed for no cluster;
    otherwise it is a multierror with exactly one ClientError per failing
    cluster, carrying the name of that cluster and wrapping its error. *)
Theorem GetImpersonatedClient_aggregates (sched : scheduler)
    (u : UserPrincipal) (cf : clustersManager) :
  ClusterSet_invariant (clusters cf) →
  ∃ pool nss err errs cf',
    GetImpersonatedClient sched (Some u) cf
    = Returns (Some (NewClient pool nss), err) cf'
    ∧ (∀ n k, pool !! n = Some k
              ↔ ∃ c, c ∈ clusters cf ∧ GetName c = n
                     ∧ created (Some u) c cf = inr k)
    ∧ (err ≠ None ↔ ∃ c e, c ∈ clusters cf ∧ created (Some u) c cf = inl e)
    ∧ err = ErrorOrNil (Some errs)
    ∧ errs ≡ₚ omap (failureOf "user" (Some u) cf) (clusters cf)
    ∧ (∀ x, x ∈ errs
            ↔ ∃ c e, c ∈ clusters cf ∧ created (Some u) c cf = inl e
                     ∧ x = ClientError (GetName c)
                             (fmt_Errorf "failed creating user client to pool: "
                                e)).
Proof.
  unfold ClusterSet_invariant. intros Hnd.
  unfold GetImpersonatedClient, bind, Clusters_Get, gets. simpl.
  destruct (foldM_poolTask_spec (Some u) "user" cf (sched (clusters cf))
              NewClustersClientsPool (make_chan (length (clusters cf))) cf)
    as (pool & ch & cf1 & Hret & Hfr & Hopen & Hbuf & Hpool).
  { unfold names. by rewrite (sched_perm sched (clusters cf)). }
  { intros c _. apply lookup_empty. }
  { done. }
  { done. }
  { simpl. by rewrite sched_length. }
  simpl in Hbuf.
  rewrite Hret. simpl. rewrite collectErrors_open by done. simpl.
  destruct (userNsList_returns sched u cf1) as (nss & cf' & Hns & _).
  rewrite Hns. simpl.
  set (errs := omap (failureOf "user" (Some u) cf) (sched (clusters cf))) in *.
  assert (Hperm : errs ≡ₚ omap (failureOf "user" (Some u) cf) (clusters cf)).
  { subst errs. by rewrite (sched_perm sched (clusters cf)). }
  assert (Hmem : ∀ x, x ∈ errs
            ↔ ∃ c e, c ∈ clusters cf ∧ created (Some u) c cf = inl e
                     ∧ x = ClientError (GetName c)
                             (fmt_Errorf "failed creating user client to pool: "
                                e)).
  { intros x. rewrite Hperm. apply (failureOf_elem_of "user"). }
  assert (Herr : ErrorOrNil (foldl multierror_Append None (chan_buf ch))
                 = ErrorOrNil (Some errs)).
  { rewrite Hbuf. rewrite multierror_Append_fold.
    - by destruct errs.
    - intros e He. by eapply failureOf_plain. }
  eexists pool, nss, _, errs, cf'. split; [reflexivity|].
  split.
  { intros n k. unfold NewClustersClientsPool in Hpool.
    rewrite Hpool, lookup_empty. split.
    - intros [?|(c & Hc & ?)]; [done|]. exists c.
      by rewrite <- (sched_elem_of sched).
    - intros (c & Hc & ?). right. exists c.
      by rewrite (sched_elem_of sched). }
  split.
  { rewrite Herr. split.
    - intros Hsome. destruct errs as [|x rest] eqn:Herrs; [done|].
      destruct (proj1 (Hmem x) (list_elem_of_here _ _)) as (c & e & Hc & Hcr & _).
      by exists c, e.
    - intros (c & e & Hc & Hcr).
      assert (Hin : ClientError (GetName c)
                      (fmt_Errorf "failed creating user client to pool: " e)
                    ∈ errs) by (apply Hmem; by exists c, e).
      destruct errs; [by apply elem_of_nil in Hin | done]. }
  split; [exact Herr|]. split; [exact Hperm | exact Hmem].
Qed.

Lemma GetImpersonatedClient_aggregates_witness :
  ClusterSet_invariant (clusters sampleManager)
  ∧ ∃ pool nss err cf',
      GetImpersonatedClient lifo (Some alice) sampleManager
      = Returns (Some (NewClient pool nss), err) cf'
      ∧ pool !! "production" = Some (K8sClient "alice@production")
      ∧ pool !! "staging" = None
      ∧ err ≠ None.
Proof.
  assert (Hnd : ClusterSet_invariant (clusters sampleManager)).
  { unfold ClusterSet_invariant. apply (bool_decide_unpack _).
    vm_compute. exact I. }
  split; [exact Hnd|].
  destruct (GetImpersonatedClient_aggregates lifo alice sampleManager Hnd)
    as (pool & nss & err & errs & cf' & Hret & Hpool & Herr & _).
  exists pool, nss, err, cf'. split; [exact Hret|].
  split; [|split].
  - apply Hpool. exists production. split; [|split; reflexivity].
    simpl. do 2 apply list_elem_of_further. apply list_elem_of_here.
  - destruct (pool !! "staging") as [k|] eqn:Hk; [|reflexivity].
    apply Hpool in Hk as (c & Hc & Hn & Hcr). simpl in Hc.
    repeat (apply elem_of_cons in Hc as [->|Hc]); try discriminate.
    by apply elem_of_nil in Hc.
  - apply Herr. exists staging. eexists. split; [|reflexivity].
    simpl. apply list_elem_of_further, list_elem_of_here.
Defined.

(** Outside the invariant: with the same name twice, the second goroutine
    finds the client of the first in the cache, and the pool refuses it. *)
Example duplicate_names_reach_the_pool_error :
  created (Some alice) management duplicatedManager
  = inr (K8sClient "alice@management")
  ∧ match GetImpersonatedClient fifo (Some alice) duplicatedManager with
    | Returns (Some client, err) _ =>
        client_pool client !! "management"
        = Some (K8sClient "alice@management")
        ∧ err
          = Some (multierror
                    [ClientError "management"
                       (fmt_Errorf "failed adding cluster client to pool: "
                          (errors_New
                             "client already in the pool: management"))])
    | _ => False
    end.
Proof. split; [reflexivity|]. vm_compute. split; reflexivity. Qed.

(** ** Notifying the watchers *)

Lemma completes_obind {A B} (o : outcome A) (f : A → M B) (b : B)
    (cf' : clustersManager) :
  completes (obind o f) b cf'
  ↔ ∃ a cf1, completes o a cf1 ∧ completes (f a cf1) b cf'.
Proof.
  split.
  - revert b cf'. induction o as [a cf|w u cf k IH|cf|msg cf]; intros b cf' Hc;
      simpl in Hc.
    + exists a, cf. split; [constructor|done].
    + inversion Hc as [|w' u' cf0 k' cf1 c c' b' cf2 Hrtc Hw Hsend Hk]; subst.
      destruct (IH _ _ _ Hk) as (a & cf3 & Ha & Hf).
      exists a, cf3. split; [|done]. by econstructor.
    + inversion Hc.
    + inversion Hc.
  - intros (a & cf1 & Ho & Hf).
    induction Ho as [a cf|w u cf k cf0 c c' a cf2 Hrtc Hw Hsend Hk IH]; simpl.
    + done.
    + econstructor; [done..|]. by apply IH.
Qed.

Lemma consumer_step_sent_to (cf cf' : clustersManager) (w : loc) :
  consumer_step cf cf' → sent_to w cf' = sent_to w cf.
Proof.
  intros [cf0 w0 c v c' Hw0 Hrecv]. unfold sent_to. simpl.
  destruct (decide (w0 = w)) as [->|Hne].
  - rewrite lookup_insert_eq, Hw0. unfold chan_recv in Hrecv.
    destruct (chan_buf c) as [|v' rest] eqn:Hbuf.
    + by destruct (chan_closed c).
    + simplify_eq. unfold chan_history. simpl. rewrite Hbuf.
      by rewrite <- app_assoc.
  - by rewrite lookup_insert_ne.
Qed.

Lemma consumer_steps_sent_to (cf cf' : clustersManager) (w : loc) :
  rtc consumer_step cf cf' → sent_to w cf' = sent_to w cf.
Proof.
  induction 1 as [|cf1 cf2 cf3 Hstep _ IH]; [done|].
  rewrite IH. by apply consumer_step_sent_to.
Qed.

(** Consumers change nothing but the heap. *)
Lemma consumer_steps_heap_only (cf cf' : clustersManager) :
  rtc consumer_step cf cf' → cf' = set_heap (heap cf') cf.
Proof.
  induction 1 as [cf|cf1 cf2 cf3 Hstep _ IH]; [by destruct cf|].
  rewrite IH. by destruct Hstep.
Qed.

Lemma send_sent_to (cf : clustersManager) (w w' : loc)
    (c c' : chan ClusterListUpdate) (u : ClusterListUpdate) :
  heap cf !! w = Some c →
  chan_send c u = SendOk c' →
  sent_to w' (set_heap (<[w := c']> (heap cf)) cf)
  = sent_to w' cf ++ (if bool_decide (w = w') then [u] else []).
Proof.
  intros Hw Hsend. unfold sent_to. simpl. case_bool_decide as Hww.
  - subst w'. rewrite lookup_insert_eq, Hw. unfold chan_send in Hsend.
    destruct (chan_closed c); [done|]. case_bool_decide; [|done].
    simplify_eq. unfold chan_history. simpl. by rewrite app_assoc.
  - rewrite lookup_insert_ne by done. by rewrite app_nil_r.
Qed.

Lemma filter_eq_cons (w w0 : loc) (ws : list loc) :
  length (filter (λ w', w' = w) (w0 :: ws))
  = (if bool_decide (w0 = w) then 1 else 0)
    + length (filter (λ w', w' = w) ws).
Proof.
  rewrite filter_cons. case_bool_decide.
  - by rewrite decide_True.
  - by rewrite decide_False.
Qed.

Section NotifyLoop.
Variables addedClusters removedClusters : list Cluster.

Let u := mkUpdate addedClusters removedClusters.
Let notify := λ w, Notify w addedClusters removedClusters.

(** Every run of the loop over [ws] that reaches its end has sent the
    update once for each occurrence of a watcher in [ws], and nothing
    else, whatever the consumers did meanwhile. *)
Lemma notify_loop_sent (ws : list loc) :
  ∀ cf cf', completes (forM ws notify cf) tt cf' →
    cf' = set_heap (heap cf') cf
    ∧ ∀ w, sent_to w cf'
           = sent_to w cf ++ repeat u (length (filter (λ w', w' = w) ws)).
Proof.
  induction ws as [|w0 rest IH]; intros cf cf' Hc; cbn [forM] in Hc.
  - inversion Hc; subst. split; [by destruct cf'|]. intros w. simpl.
    by rewrite app_nil_r.
  - unfold bind in Hc. apply completes_obind in Hc as ([] & cf1 & Hn & Hrest).
    destruct (IH _ _ Hrest) as [Hws Hsent].
    assert (Hhead : cf1 = set_heap (heap cf1) cf
              ∧ ∀ w, sent_to w cf1
                     = sent_to w cf ++ (if bool_decide (w0 = w) then [u] else [])).
    { subst notify. unfold Notify in Hn. simpl in Hn. fold u in Hn.
      destruct (heap cf !! w0) as [c|] eqn:Hw0; [|inversion Hn].
      destruct (chan_send c u) as [c'| |] eqn:Hsend.
      - inversion Hn; subst. split; [done|]. intros w.
        by apply (send_sent_to cf w0 w c c' u).
      - inversion Hn as [|w' u' cf0 k' cf2 c2 c2' b' cf3 Hrtc Hw Hs Hk]; subst.
        inversion Hk; subst. split.
        + simpl. by rewrite (consumer_steps_heap_only cf cf2) at 2.
        + intros w. rewrite (send_sent_to cf2 w0 w c2 c2' u) by done.
          by rewrite (consumer_steps_sent_to cf cf2).
      - inversion Hn. }
    destruct Hhead as [Hws1 Hsent1].
    split; [rewrite Hws at 1; by rewrite Hws1|].
    intros w. rewrite Hsent, Hsent1, filter_eq_cons, <- app_assoc. f_equal.
    by case_bool_decide.
Qed.

(** When the channels of the watchers in [ws] are live, the loop has a
    run that reaches its end: a full channel is drained by its consumer,
    and the parked send goes through. *)
Lemma notify_loop_completes (ws : list loc) :
  ∀ cf, (∀ w, w ∈ ws → watcher_live cf w) →
        ∃ cf', completes (forM ws notify cf) tt cf'.
Proof.
  induction ws as [|w0 rest IH]; intros cf Hlive; cbn [forM].
  - exists cf. constructor.
  - destruct (Hlive w0 (list_elem_of_here _ _))
      as (c & Hw0 & Hopen & Hcap & Hlen).
    assert (Hkeep : ∀ c1 cf1,
               heap cf1 = <[w0 := c1]> (heap cf) →
               chan_closed c1 = false → chan_cap c1 = chan_cap c →
               length (chan_buf c1) ≤ chan_cap c →
               ∀ w, w ∈ rest → watcher_live cf1 w).
    { intros c1 cf1 Hheap Hopen1 Hcap1 Hlen1 w Hw.
      unfold watcher_live. rewrite Hheap.
      destruct (decide (w0 = w)) as [<-|Hne].
      - exists c1. rewrite lookup_insert_eq. repeat split; try done; lia.
      - rewrite lookup_insert_ne by done.
        apply Hlive. by apply list_elem_of_further. }
    unfold bind. setoid_rewrite completes_obind.
    subst notify. unfold Notify. simpl. rewrite Hw0. unfold chan_send.
    rewrite Hopen. case_bool_decide as Hroom.
    + set (c0 := mkChan (chan_cap c) (chan_buf c ++ [u]) (chan_recvd c) false).
      destruct (IH (set_heap (<[w0 := c0]> (heap cf)) cf)) as (cf' & Hc).
      { apply (Hkeep c0); [reflexivity|done|done|].
        simpl. rewrite length_app. simpl. lia. }
      eexists cf', tt, _. split; [constructor|exact Hc].
    + destruct (chan_buf c) as [|v bufrest] eqn:Hbuf; [simpl in Hroom; lia|].
      set (c1 := mkChan (chan_cap c) bufrest (chan_recvd c ++ [v]) false).
      set (c2 := mkChan (chan_cap c) (bufrest ++ [u]) (chan_recvd c ++ [v]) false).
      set (cf1 := set_heap (<[w0 := c1]> (heap cf)) cf).
      destruct (IH (set_heap (<[w0 := c2]> (heap cf1)) cf1)) as (cf' & Hc).
      { apply (Hkeep c2); [|done|done|].
        - simpl. by rewrite insert_insert_eq.
        - simpl in *. rewrite length_app. simpl. lia. }
      eexists cf', tt, _. split; [|exact Hc].
      eapply (completes_wakes w0 u cf _ cf1 c1 c2).
      * apply rtc_once. subst cf1. eapply (consumer_recv cf w0 c v c1); [done|].
        unfold chan_recv. rewrite Hbuf, Hopen. done.
      * subst cf1. simpl. apply lookup_insert_eq.
      * unfold chan_send. simpl. rewrite bool_decide_eq_true_2; [done|].
        simpl in Hlen. lia.
      * constructor.
Qed.
End NotifyLoop.

Lemma registered_once (w : loc) (cf : clustersManager) :
  NoDup (watchers cf) →
  registered w cf = if bool_decide (w ∈ watchers cf) then 1 else 0.
Proof.
  unfold registered. induction (watchers cf) as [|w0 rest IH]; intros Hnd.
  - done.
  - apply NoDup_cons in Hnd as [Hfresh Hnd]. rewrite filter_eq_cons, IH by done.
    destruct (decide (w0 = w)) as [->|Hne].
    + rewrite bool_decide_eq_true_2 by done.
      rewrite (bool_decide_eq_false_2 (w ∈ rest)) by done.
      rewrite bool_decide_eq_true_2; [done|apply list_elem_of_here].
    + rewrite bool_decide_eq_false_2 by done. simpl.
      destruct (decide (w ∈ rest)) as [Hin|Hnin].
      * rewrite !bool_decide_eq_true_2; [done| |done].
        by apply list_elem_of_further.
      * rewrite !bool_decide_eq_false_2; [done| |done].
        rewrite not_elem_of_cons. split; [congruence|done].
Qed.

Lemma diff_test (added removed : list Cluster) :
  bool_decide (0 < length added) || bool_decide (0 < length removed) = false
  ↔ added = [] ∧ removed = [].
Proof.
  rewrite orb_false_iff, !bool_decide_eq_false. split.
  - intros [Ha Hr]. split; [destruct added|destruct removed]; simpl in *;
      try done; lia.
  - intros [-> ->]. simpl. lia.
Qed.

(** C6: after a successful fetch, let [added] and [removed] be the lists
    the registry's Set returned. When both are empty, UpdateClusters
    returns at once with a nil error and no channel has changed. Otherwise
    every run of UpdateClusters that reaches its end returns a nil error
    having sent, to each address, the update (added, removed) once per
    registration and nothing else: with watchers registered once, every
    watcher got exactly that update and no other channel got anything.
    Such a run exists when the channels of the watchers are live. *)
Theorem UpdateClusters_notifies (fetched : list Cluster)
    (cf cf1 : clustersManager) (added removed : list Cluster) :
  Clusters_Set fetched cf = Returns (added, removed) cf1 →
  let u := mkUpdate added removed in
  (added = [] ∧ removed = [] →
     ∃ cf', UpdateClusters (inr fetched) cf = Returns None cf'
            ∧ heap cf' = heap cf)
  ∧ (¬ (added = [] ∧ removed = []) →
     (∀ r cf', completes (UpdateClusters (inr fetched) cf) r cf' →
        r = None
        ∧ (∀ w, sent_to w cf' = sent_to w cf ++ repeat u (registered w cf))
        ∧ (NoDup (watchers cf) →
           ∀ w, sent_to w cf'
                = sent_to w cf
                  ++ (if bool_decide (w ∈ watchers cf) then [u] else [])))
     ∧ ((∀ w, w ∈ watchers cf → watcher_live cf w) →
        ∃ cf', completes (UpdateClusters (inr fetched) cf) None cf')).
Proof.
  intros HSet u.
  assert (Hcf1 : cf1 = set_clusters fetched cf)
    by (unfold Clusters_Set in HSet; by simplify_eq).
  unfold UpdateClusters, bind. rewrite HSet. simpl.
  unfold bind, gets. simpl.
  destruct (bool_decide (0 < length added) || bool_decide (0 < length removed))
    eqn:Htest.
  - assert (Hdiff : ¬ (added = [] ∧ removed = [])).
    { intros Hd. apply diff_test in Hd. congruence. }
    split; [done|]. intros _.
    set (cf3 := set_metrics _ (set_metrics _ cf1)).
    assert (Hheap : heap cf3 = heap cf) by (by subst cf1).
    assert (Hws : watchers cf3 = watchers cf) by (by subst cf1).
    rewrite Hws. split.
    + intros r cf' Hc.
      apply completes_obind in Hc as ([] & cf4 & Hloop & Hret).
      assert (r = None ∧ cf4 = cf') as [-> ->] by (by inversion Hret).
      apply notify_loop_sent in Hloop as [_ Hsent].
      assert (Hall : ∀ w, sent_to w cf'
                          = sent_to w cf ++ repeat u (registered w cf)).
      { intros w. rewrite Hsent. unfold sent_to, registered. by rewrite Hheap. }
      split; [done|]. split; [exact Hall|].
      intros Hnd w. rewrite Hall, registered_once by done.
      by destruct (bool_decide (w ∈ watchers cf)).
    + intros Hlive.
      destruct (notify_loop_completes added removed (watchers cf) cf3)
        as (cf' & Hc).
      { intros w Hw. destruct (Hlive w Hw) as (c & Hc & Hrest).
        exists c. by rewrite Hheap. }
      exists cf'. apply completes_obind. exists tt, cf'. split; [done|].
      constructor.
  - apply diff_test in Htest. split; [|done]. intros _.
    eexists. split; [reflexivity|]. by subst cf1.
Qed.

Lemma UpdateClusters_notifies_witness :
  ∃ cf1 cf',
    Clusters_Set [management; staging] watchedManager
    = Returns ([], [production]) cf1
    ∧ completes (UpdateClusters (inr [management; staging]) watchedManager)
        None cf'
    ∧ sent_to 0 cf' = [mkUpdate [] [production]]
    ∧ sent_to 1 cf' = [mkUpdate [] [production]]
    ∧ sent_to 2 cf' = [].
Proof.
  pose proof (UpdateClusters_notifies [management; staging] watchedManager
                (set_clusters [management; staging] watchedManager)
                [] [production] eq_refl) as [_ Hchange].
  destruct Hchange as [Hsent Hruns]; [by intros [_ ?]|].
  assert (Hws : watchers watchedManager = [0; 1]) by reflexivity.
  destruct Hruns as (cf' & Hc).
  { intros w Hw. rewrite Hws in Hw.
    exists (make_chan 1).
    apply elem_of_cons in Hw as [->|Hw];
      [|apply elem_of_cons in Hw as [->|Hw]; [|by apply elem_of_nil in Hw]].
    - split; [reflexivity|]. simpl. repeat split; lia.
    - split; [reflexivity|]. simpl. repeat split; lia. }
  destruct (Hsent None cf' Hc) as (_ & _ & Honce).
  assert (Hnd : NoDup (watchers watchedManager)).
  { apply (bool_decide_unpack _). vm_compute. exact I. }
  exists (set_clusters [management; staging] watchedManager), cf'.
  split; [reflexivity|]. split; [exact Hc|].
  split; [|split]; rewrite (Honce Hnd); reflexivity.
Defined.

(** ** The namespace loop waits for the first cluster refresh *)

Lemma heap_only_namespace_side (cf cf' : clustersManager) :
  cf' = set_heap (heap cf') cf →
  namespace_side cf' = namespace_side cf
  ∧ initialClustersLoad cf' = initialClustersLoad cf.
Proof. intros ->. done. Qed.

Lemma consumer_step_heap_only (cf cf' : clustersManager) :
  consumer_step cf cf' → cf' = set_heap (heap cf') cf.
Proof. intros Hstep. apply consumer_steps_heap_only. by apply rtc_once. Qed.

(** UpdateClusters writes nothing of the namespace side, and does not touch
    the initial-load channel. *)
Lemma UpdateClusters_namespace_side (fetched : error + list Cluster)
    (cf cf' : clustersManager) (r : option error) :
  completes (UpdateClusters fetched cf) r cf' →
  namespace_side cf' = namespace_side cf
  ∧ initialClustersLoad cf' = initialClustersLoad cf.
Proof.
  destruct fetched as [err|cls]; simpl; intros Hc.
  - by inversion Hc.
  - unfold bind, Clusters_Set in Hc. simpl in Hc. unfold bind, gets in Hc.
    simpl in Hc.
    apply completes_obind in Hc as ([] & cf1 & Hloop & Hret).
    assert (cf1 = cf') as -> by (by inversion Hret).
    destruct (_ || _).
    + apply notify_loop_sent in Hloop as [Hfr _].
      apply heap_only_namespace_side in Hfr as [-> ->]. done.
    + by inversion Hloop.
Qed.

Lemma snoc_split {A} (t t1 t2 : list A) (e e0 : A) :
  t ++ [e] = t1 ++ e0 :: t2 →
  (t2 = [] ∧ t1 = t ∧ e0 = e) ∨ (∃ t2', t2 = t2' ++ [e] ∧ t = t1 ++ e0 :: t2').
Proof.
  destruct t2 as [|x t2' _] using rev_ind; intros Heq.
  - left. apply (app_inj_tail t t1) in Heq as [-> ->]. done.
  - right. exists t2'.
    change (t ++ [e] = t1 ++ (e0 :: t2') ++ [x]) in Heq.
    rewrite app_assoc in Heq. by apply app_inj_tail in Heq as [-> ->].
Qed.

Lemma preceded_by_snoc (p q : event → bool) (t : list event) (e : event) :
  preceded_by p q t →
  (q e = true → ∃ e', e' ∈ t ∧ p e' = true) →
  preceded_by p q (t ++ [e]).
Proof.
  intros Ht He t1 e0 t2 Heq Hq.
  apply snoc_split in Heq as [(_ & -> & ->)|(t2' & _ & ->)].
  - by apply He.
  - by apply (Ht t1 e0 t2').
Qed.

Lemma preceded_by_nil (p q : event → bool) : preceded_by p q [].
Proof. intros t1 e t2 Heq. by destruct t1. Qed.

Lemma preceded_by_trans (p q r : event → bool) (t : list event) :
  preceded_by p q t → preceded_by q r t → preceded_by p r t.
Proof.
  intros Hpq Hqr t1 e t2 Heq Hr.
  destruct (Hqr t1 e t2 Heq Hr) as (e' & Hin & Hq).
  apply list_elem_of_split in Hin as (t1a & t1b & ->).
  destruct (Hpq t1a e' (t1b ++ e :: t2)) as (e'' & Hin' & Hp).
  { rewrite Heq. by rewrite <- app_assoc. }
  { done. }
  exists e''. split; [|done]. apply elem_of_app. by left.
Qed.

Lemma listing_frame_refl (cf : clustersManager) : listing_frame cf cf.
Proof. by repeat split. Qed.

#[local] Hint Resolve listing_frame_refl : frames.

Lemma listing_frame_trans (cf1 cf2 cf3 : clustersManager) :
  listing_frame cf1 cf2 → listing_frame cf2 cf3 → listing_frame cf1 cf3.
Proof.
  unfold listing_frame. intros H12 H23.
  destruct H12 as (?&?&?&?&?&?&?&?), H23 as (?&?&?&?&?&?&?&?).
  repeat split; congruence.
Qed.

Lemma storeNamespaces_returns (entry : string * list ObjectList)
    (cf : clustersManager) :
  ∃ cf', storeNamespaces entry cf = Returns tt cf' ∧ listing_frame cf cf'.
Proof.
  destruct entry as [clusterName lists]. unfold storeNamespaces.
  apply (forM_returns listing_frame);
    [apply listing_frame_refl | apply listing_frame_trans |].
  intros [Items|] cf0.
  - eexists. split; [reflexivity|]. by repeat split.
  - exists cf0. split; [done|auto with frames].
Qed.

(** UpdateNamespaces always returns. It runs GetServerClient, then
    syncCaches, then lists and stores the namespaces: the User Client Cache
    is the one GetServerClient left, and the User Namespace Cache is empty
    when the hash of the registry had changed, untouched otherwise. *)
Lemma UpdateNamespaces_returns (sched : scheduler)
    (lister : Client → gmap string (list ObjectList) * option error)
    (cf : clustersManager) :
  ∃ client cerr cf1 err cf',
    GetServerClient sched cf = Returns (client, cerr) cf1
    ∧ UpdateNamespaces sched lister cf = Returns err cf'
    ∧ usersClients cf' = usersClients cf1
    ∧ usersNamespaces cf'
      = (if bool_decide (Clusters_Hash (clusters cf) ≠ clustersHash cf)
         then ∅ else usersNamespaces cf)
    ∧ clustersHash cf' = Clusters_Hash (clusters cf)
    ∧ clusters cf' = clusters cf
    ∧ initialClustersLoad cf' = initialClustersLoad cf
    ∧ watchers cf' = watchers cf
    ∧ heap cf' = heap cf.
Proof.
  destruct (GetServerClient_returns sched cf)
    as (pool & cerr & cf1 & Hget & Hfr & _).
  set (nss := clustersNamespaces cf) in *.
  destruct Hfr as (Hck & Hcl & Hh & Hcn & Hun & Hicl & Hws & Hheap).
  unfold UpdateNamespaces, bind. rewrite Hget. simpl.
  assert (Hsync : ∃ cf2,
             syncCaches cf1 = Returns tt cf2
             ∧ usersClients cf2 = usersClients cf1
             ∧ usersNamespaces cf2
               = (if bool_decide (Clusters_Hash (clusters cf) ≠ clustersHash cf)
                  then ∅ else usersNamespaces cf)
             ∧ clustersHash cf2 = Clusters_Hash (clusters cf)
             ∧ clusters cf2 = clusters cf
             ∧ initialClustersLoad cf2 = initialClustersLoad cf
             ∧ watchers cf2 = watchers cf
             ∧ heap cf2 = heap cf).
  { rewrite <- Hcl, <- Hh, <- Hun, <- Hicl, <- Hws, <- Hheap.
    unfold syncCaches, bind, gets. simpl.
    destruct (decide (Clusters_Hash (clusters cf1) = clustersHash cf1))
      as [Heq|Hne].
    - rewrite !bool_decide_eq_false_2 by (by intros Hc; apply Hc).
      exists cf1. by repeat split.
    - rewrite !bool_decide_eq_true_2 by done. simpl.
      eexists. split; [reflexivity|]. by repeat split. }
  destruct Hsync as (cf2 & Hsync & Huc2 & Hcf2).
  destruct Hcf2 as (Hun2 & Hh2 & Hcl2 & Hicl2 & Hws2 & Hheap2).
  rewrite Hsync. simpl.
  destruct (lister (NewClient pool nss)) as [nsLists lerr].
  unfold bind.
  destruct (forM_returns listing_frame storeNamespaces (map_to_list nsLists)
              listing_frame_refl listing_frame_trans storeNamespaces_returns cf2)
    as (cf3 & Hstore & Hfr3).
  rewrite Hstore. simpl.
  destruct Hfr3 as (_ & Hcl3 & Hh3 & Hun3 & Huc3 & Hicl3 & Hws3 & Hheap3).
  eexists _, _, cf1, _, _. split; [reflexivity|]. split; [reflexivity|].
  simpl. repeat split; congruence.
Qed.

(** ** Invalidation of the namespace caches *)

(** C2: syncCaches always returns. When the hash of the registry differs
    from the recorded one, it empties the Namespace Cache and the User
    Namespace Cache and records the new hash; when the hash is the same, it
    changes nothing at all. The User Client Cache is the same afterwards in
    both cases. UpdateNamespaces runs it between GetServerClient and the
    listing: after UpdateNamespaces the User Client Cache is as
    GetServerClient left it, and the User Namespace Cache is empty if the
    hash had changed and as it was otherwise. *)
Theorem syncCaches_invalidation (cf : clustersManager) :
  (∃ cf',
      syncCaches cf = Returns tt cf'
      ∧ usersClients cf' = usersClients cf
      ∧ (Clusters_Hash (clusters cf) ≠ clustersHash cf →
           clustersNamespaces cf' = ∅
           ∧ usersNamespaces cf' = ∅
           ∧ clustersHash cf' = Clusters_Hash (clusters cf))
      ∧ (Clusters_Hash (clusters cf) = clustersHash cf → cf' = cf))
  ∧ (∀ sched lister, ∃ client cerr cf1 err cf',
      GetServerClient sched cf = Returns (client, cerr) cf1
      ∧ UpdateNamespaces sched lister cf = Returns err cf'
      ∧ usersClients cf' = usersClients cf1
      ∧ (Clusters_Hash (clusters cf) ≠ clustersHash cf →
           usersNamespaces cf' = ∅)
      ∧ (Clusters_Hash (clusters cf) = clustersHash cf →
           usersNamespaces cf' = usersNamespaces cf)).
Proof.
  split.
  - unfold syncCaches, bind, gets. simpl.
    case_bool_decide as Hh; simpl.
    + eexists. split; [reflexivity|]. repeat split; try done.
    + exists cf. split; [reflexivity|]. split; [done|]. split; [|done].
      intros Hne. contradict Hh. done.
  - intros sched lister.
    destruct (UpdateNamespaces_returns sched lister cf)
      as (client & cerr & cf1 & err & cf' & Hget & Hret & Huc & Hun & _).
    exists client, cerr, cf1, err, cf'. split; [done|]. split; [done|].
    split; [done|]. rewrite Hun. split; intros Hh.
    + by rewrite bool_decide_eq_true_2.
    + rewrite bool_decide_eq_false_2; [done|]. by intros Hc; apply Hc.
Qed.

Lemma syncCaches_invalidation_witness :
  Clusters_Hash (clusters sampleManager) ≠ clustersHash sampleManager
  ∧ ∃ cf', syncCaches sampleManager = Returns tt cf'
           ∧ clustersNamespaces cf' = ∅
           ∧ usersNamespaces cf' = ∅
           ∧ clustersHash cf' = "managementproductionstaging"
           ∧ usersClients cf' = usersClients sampleManager.
Proof.
  assert (Hne : Clusters_Hash (clusters sampleManager)
                ≠ clustersHash sampleManager) by (vm_compute; discriminate).
  split; [exact Hne|].
  destruct (syncCaches_invalidation sampleManager) as [Hsync _].
  destruct Hsync as (cf' & Hret & Huc & Hchanged & _).
  destruct (Hchanged Hne) as (Hcn & Hun & Hh).
  exists cf'. split; [exact Hret|]. split; [exact Hcn|]. split; [exact Hun|].
  split; [|exact Huc]. rewrite Hh. reflexivity.
Defined.

(** ** The two loops *)

Lemma filter_none (p : event → bool) (t : list event) :
  (∀ e, e ∈ t → p e = false) → filter (λ e, p e = true) t = [].
Proof.
  induction t as [|e t IH]; intros Hnone; [done|].
  rewrite filter_cons, decide_False.
  - apply IH. intros e' He'. apply Hnone. by apply list_elem_of_further.
  - rewrite (Hnone e); [done|apply list_elem_of_here].
Qed.

Lemma filter_snoc_false (p : event → bool) (t : list event) (e : event) :
  p e = false →
  filter (λ e, p e = true) (t ++ [e]) = filter (λ e, p e = true) t.
Proof.
  intros He. rewrite filter_app, filter_cons, decide_False, filter_nil.
  - apply app_nil_r.
  - by rewrite He.
Qed.

Lemma loops_invariant_run (cf0 : clustersManager) (t : list event)
    (s : system) :
  run (Start cf0) t s →
  loops_invariant cf0 t s
  ∧ preceded_by is_UpdateClusters is_InitialClustersLoad t
  ∧ preceded_by is_InitialClustersLoad is_UpdateNamespaces t.
Proof.
  remember (Start cf0) as s0 eqn:Hs0.
  induction 1 as [s|s t s1 e s2 Hrun IH Hstep].
  - subst s. split; [|split; apply preceded_by_nil].
    unfold loops_invariant. simpl. split; [|done].
    intros e He. by apply elem_of_nil in He.
  - destruct (IH Hs0) as (Hinv & HCI & HIN). clear IH.
    unfold loops_invariant in Hinv.
    destruct Hstep as [s1 fetched err cf' Hwc Hc | s1 Hwc Hwn
                      | s1 fetched err cf' Hwc Hc
                      | s1 sched lister err cf' Hwn Hret
                      | s1 cf' Hcons].
    + (* the first UpdateClusters returns *)
      rewrite Hwc in Hinv. destruct (wn s1) eqn:Hwn; [|done].
      destruct Hinv as (Honly & Hside & Hch).
      destruct (UpdateClusters_namespace_side _ _ _ _ Hc) as [Hside' Hch'].
      split; [|split].
      * unfold loops_invariant. simpl.
        split; [exists (EvUpdateClusters err); split;
                [apply elem_of_app; right; apply list_elem_of_here|done]|].
        split; [|split; congruence].
        intros e He. apply elem_of_app in He as [He|He].
        -- by rewrite (Honly e He).
        -- apply list_elem_of_singleton in He as ->. done.
      * apply preceded_by_snoc; [done|]. done.
      * apply preceded_by_snoc; [done|]. done.
    + (* the send and the receive on initialClustersLoad meet *)
      rewrite Hwc, Hwn in Hinv. destruct Hinv as (Hupd & Hnone & Hside & Hch).
      split; [|split].
      * unfold loops_invariant. simpl.
        split; [exists EvInitialClustersLoad; split;
                [apply elem_of_app; right; apply list_elem_of_here|done]|].
        split; [|by rewrite Hch].
        rewrite filter_app, (filter_none is_InitialClustersLoad t).
        -- done.
        -- intros e He. by destruct (Hnone e He).
      * apply preceded_by_snoc; [done|]. by intros _.
      * apply preceded_by_snoc; [done|]. done.
    + (* a later UpdateClusters returns *)
      rewrite Hwc in Hinv. destruct (wn s1) eqn:Hwn; [done|].
      destruct Hinv as ((e0 & He0 & Hi0) & Hone & Hch).
      destruct (UpdateClusters_namespace_side _ _ _ _ Hc) as [_ Hch'].
      split; [|split].
      * unfold loops_invariant. simpl.
        split; [exists e0; split; [apply elem_of_app; by left|done]|].
        split; [by rewrite filter_snoc_false|congruence].
      * apply preceded_by_snoc; [done|]. done.
      * apply preceded_by_snoc; [done|]. done.
    + (* UpdateNamespaces *)
      rewrite Hwn in Hinv. destruct (wc s1) eqn:Hwc; [done|done|].
      destruct Hinv as ((e0 & He0 & Hi0) & Hone & Hch).
      destruct (UpdateNamespaces_returns sched lister (mgr s1))
        as (? & ? & ? & err' & cf'' & _ & Hret' & _ & _ & _ & _ & Hch' & _).
      rewrite Hret in Hret'. simplify_eq.
      split; [|split].
      * unfold loops_invariant. simpl.
        split; [exists e0; split; [apply elem_of_app; by left|done]|].
        split; [by rewrite filter_snoc_false|congruence].
      * apply preceded_by_snoc; [done|]. done.
      * apply preceded_by_snoc; [done|]. intros _. by exists e0.
    + (* a subscriber receives *)
      apply consumer_step_heap_only, heap_only_namespace_side in Hcons
        as [Hside' Hch'].
      split; [|split].
      * unfold loops_invariant. simpl.
        destruct (wc s1), (wn s1); try done.
        -- destruct Hinv as (Honly & Hside & Hch).
           split; [|split; congruence].
           intros e He. apply elem_of_app in He as [He|He]; [by apply Honly|].
           by apply list_elem_of_singleton in He.
        -- destruct Hinv as ((e0 & He0 & Hu0) & Hnone & Hside & Hch).
           split; [exists e0; split; [apply elem_of_app; by left|done]|].
           split; [|split; congruence].
           intros e He. apply elem_of_app in He as [He|He]; [by apply Hnone|].
           apply list_elem_of_singleton in He as ->. done.
        -- destruct Hinv as ((e0 & He0 & Hi0) & Hone & Hch).
           split; [exists e0; split; [apply elem_of_app; by left|done]|].
           split; [by rewrite filter_snoc_false|congruence].
      * apply preceded_by_snoc; [done|]. done.
      * apply preceded_by_snoc; [done|]. done.
Qed.

(** C8: in every execution of the two loops started by Start, with
    subscribers receiving at any time, the rendezvous on the initial-load
    channel comes after a call of UpdateClusters has returned (with or
    without an error), and every call of UpdateNamespaces comes after the
    rendezvous, hence after the first return of UpdateClusters; the
    rendezvous happens at most once. As long as it has not happened, the
    namespace loop is still waiting on the channel, it has not called
    UpdateNamespaces, and everything it writes (the recorded hash, the
    three caches, its counters) is as it was at Start. Once the namespace
    loop polls, the channel has delivered exactly one more value, [true]. *)
Theorem namespaces_wait_for_first_refresh (cf : clustersManager)
    (t : list event) (s : system) :
  run (Start cf) t s →
  preceded_by is_UpdateClusters is_InitialClustersLoad t
  ∧ preceded_by is_InitialClustersLoad is_UpdateNamespaces t
  ∧ preceded_by is_UpdateClusters is_UpdateNamespaces t
  ∧ length (filter (λ e, is_InitialClustersLoad e = true) t) ≤ 1
  ∧ ((∀ e, e ∈ t → is_InitialClustersLoad e = false) →
       wn s = AwaitingInitialLoad
       ∧ (∀ e, e ∈ t → is_UpdateNamespaces e = false)
       ∧ namespace_side (mgr s) = namespace_side cf)
  ∧ (wn s = PollingNamespaces →
       length (filter (λ e, is_InitialClustersLoad e = true) t) = 1
       ∧ chan_recvd (initialClustersLoad (mgr s))
         = chan_recvd (initialClustersLoad cf) ++ [true]).
Proof.
  intros Hrun.
  destruct (loops_invariant_run cf t s Hrun) as (Hinv & HCI & HIN).
  split; [exact HCI|]. split; [exact HIN|].
  split; [by apply (preceded_by_trans _ is_InitialClustersLoad)|].
  unfold loops_invariant in Hinv.
  destruct (wc s), (wn s); try done.
  - destruct Hinv as (Honly & Hside & _).
    assert (Hnone : ∀ e, e ∈ t → is_InitialClustersLoad e = false)
      by (intros e He; by rewrite (Honly e He)).
    split; [rewrite (filter_none _ t Hnone); simpl; lia|].
    split; [|done]. intros _. split; [done|]. split; [|done].
    intros e He. by rewrite (Honly e He).
  - destruct Hinv as (_ & Hnone & Hside & _).
    split; [rewrite (filter_none is_InitialClustersLoad t); [simpl; lia|]|].
    { intros e He. by destruct (Hnone e He). }
    split; [|done]. intros _. split; [done|]. split; [|done].
    intros e He. by destruct (Hnone e He).
  - destruct Hinv as ((e0 & He0 & Hi0) & Hone & Hch).
    split; [lia|]. split; [|done].
    intros Hnone. rewrite (Hnone e0 He0) in Hi0. done.
Qed.

Lemma namespaces_wait_for_first_refresh_witness :
  ∃ e1 e3 s,
    run (Start sampleManager)
      [EvUpdateClusters (Some e1); EvInitialClustersLoad; EvUpdateNamespaces e3]
      s
    ∧ wn s = PollingNamespaces
    ∧ preceded_by is_UpdateClusters is_UpdateNamespaces
        [EvUpdateClusters (Some e1); EvInitialClustersLoad;
         EvUpdateNamespaces e3]
    ∧ chan_recvd (initialClustersLoad (mgr s)) = [true].
Proof.
  set (e1 := fmt_Errorf "failed to fetch clusters: " (errors_New "timeout")).
  set (s1 := mkSystem AtInitialLoad AwaitingInitialLoad sampleManager).
  set (cf2 := set_initialClustersLoad
                (chan_rendezvous (initialClustersLoad sampleManager) true)
                sampleManager).
  set (s2 := mkSystem PollingClusters PollingNamespaces cf2).
  destruct (UpdateNamespaces_returns fifo (λ _, (∅, None)) cf2)
    as (_ & _ & _ & e3 & cf3 & _ & Hret & _).
  set (s3 := mkSystem PollingClusters PollingNamespaces cf3).
  assert (H1 : step (Start sampleManager) (EvUpdateClusters (Some e1)) s1).
  { apply (step_first_update (Start sampleManager)
             (inl (errors_New "timeout")) (Some e1) sampleManager eq_refl).
    constructor. }
  assert (H2 : step s1 EvInitialClustersLoad s2)
    by exact (step_initial_load s1 eq_refl eq_refl).
  assert (H3 : step s2 (EvUpdateNamespaces e3) s3)
    by exact (step_poll_namespaces s2 fifo _ e3 cf3 eq_refl Hret).
  assert (Hrun : run (Start sampleManager)
                   [EvUpdateClusters (Some e1); EvInitialClustersLoad;
                    EvUpdateNamespaces e3] s3).
  { apply (run_snoc _ [EvUpdateClusters (Some e1); EvInitialClustersLoad]
             s2 _ s3); [|exact H3].
    apply (run_snoc _ [EvUpdateClusters (Some e1)] s1 _ s2); [|exact H2].
    apply (run_snoc _ [] (Start sampleManager) _ s1); [|exact H1].
    constructor. }
  destruct (namespaces_wait_for_first_refresh sampleManager _ s3 Hrun)
    as (_ & _ & Hbefore & _ & _ & Hpoll).
  exists e1, e3, s3. split; [exact Hrun|]. split; [reflexivity|].
  split; [exact Hbefore|]. by destruct (Hpoll eq_refl) as [_ ->].
Defined.

(** A second change while no subscriber has received the first update: the
    loop parks on the first watcher, whose one slot is taken. *)
Example second_update_parks :
  match UpdateClusters (inr [management]) notifiedManager with
  | Parks w u cf _ =>
      w = 0
      ∧ Removed u = [staging]
      ∧ sent_to 0 cf = [mkUpdate [] [production]]
      ∧ sent_to 1 cf = [mkUpdate [] [production]]
  | _ => False
  end.
Proof. vm_compute. repeat split. Qed.

(** * Further properties *)

(** ** The aggregated client of the server *)

(** The fan-out over a set of clusters, from the empty pool and an error
    channel with one slot per cluster. *)
Lemma fanOut_collect (user : option UserPrincipal) (kind : string)
    (sched : scheduler) (cf : clustersManager) :
  ClusterSet_invariant (clusters cf) →
  ∃ pool ch cf1,
    foldM (poolTask user kind) (sched (clusters cf))
      (NewClustersClientsPool, make_chan (length (clusters cf))) cf
    = Returns (pool, ch) cf1
    ∧ clients_frame cf cf1
    ∧ chan_closed ch = false
    ∧ chan_buf ch ≡ₚ omap (failureOf kind user cf) (clusters cf)
    ∧ ErrorOrNil (foldl multierror_Append None (chan_buf ch))
      = ErrorOrNil (Some (chan_buf ch))
    ∧ ∀ n k, pool !! n = Some k
             ↔ ∃ c, c ∈ clusters cf ∧ GetName c = n
                    ∧ created user c cf = inr k.
Proof.
  unfold ClusterSet_invariant. intros Hnd.
  destruct (foldM_poolTask_spec user kind cf (sched (clusters cf))
              NewClustersClientsPool (make_chan (length (clusters cf))) cf)
    as (pool & ch & cf1 & Hret & Hfr & Hopen & Hbuf & Hpool).
  { unfold names. by rewrite (sched_perm sched (clusters cf)). }
  { intros c _. apply lookup_empty. }
  { done. }
  { done. }
  { simpl. by rewrite sched_length. }
  simpl in Hbuf. exists pool, ch, cf1.
  split; [exact Hret|]. split; [exact Hfr|]. split; [exact Hopen|].
  split; [by rewrite Hbuf, (sched_perm sched (clusters cf))|].
  split.
  - rewrite multierror_Append_fold.
    + by destruct (chan_buf ch).
    + intros e He. rewrite Hbuf in He. by eapply failureOf_plain.
  - intros n k. unfold NewClustersClientsPool in Hpool.
    rewrite Hpool, lookup_empty. split.
    + intros [?|(c & Hc & ?)]; [done|]. exists c.
      by rewrite <- (sched_elem_of sched).
    + intros (c & Hc & ?). right. exists c.
      by rewrite (sched_elem_of sched).
Qed.



(** ** One cluster by name *)

Lemma firstNamed_cons (clusterName : string) (c : Cluster)
    (rest : list Cluster) :
  firstNamed clusterName (c :: rest)
  = if bool_decide (GetName c = clusterName) then Some c
    else firstNamed clusterName rest.
Proof.
  unfold firstNamed. cbn [list_find]. case_bool_decide as Hc.
  - by rewrite decide_True.
  - rewrite decide_False by done.
    by destruct (list_find (λ c0, GetName c0 = clusterName) rest) as [[i c']|].
Qed.

Lemma firstNamed_Some (clusterName : string) (cs : list Cluster) (c : Cluster) :
  firstNamed clusterName cs = Some c → c ∈ cs ∧ GetName c = clusterName.
Proof.
  induction cs as [|c0 rest IH]; [done|].
  rewrite firstNamed_cons. case_bool_decide as Hc.
  - intros [= <-]. split; [apply list_elem_of_here|done].
  - intros Hf. destruct (IH Hf). split; [by apply list_elem_of_further|done].
Qed.

Lemma firstNamed_None (clusterName : string) (cs : list Cluster) :
  firstNamed clusterName cs = None ↔ clusterName ∉ names cs.
Proof.
  induction cs as [|c0 rest IH]; [by split; [intros _ ?%elem_of_nil|]|].
  rewrite firstNamed_cons. unfold names. rewrite fmap_cons, not_elem_of_cons.
  case_bool_decide as Hc.
  - split; [done|]. intros [Hne _]. by destruct Hne.
  - rewrite IH. split; [by split|by intros [_ ?]].
Qed.

Lemma findCluster_firstNamed (clusterName : string) (cs : list Cluster)
    (cl : option Cluster) :
  findCluster clusterName cs cl
  = match firstNamed clusterName cs with
    | Some c => Some c
    | None => cl
    end.
Proof.
  induction cs as [|c0 rest IH]; [done|].
  rewrite firstNamed_cons. simpl. by case_bool_decide.
Qed.

(** X2: for a user and the name, not empty, of a known cluster,
    GetImpersonatedClientForCluster works on the first cluster of that
    name. When getOrCreateClient succeeds for it, the client returned has a
    pool holding that one cluster's client under its name, the error is
    nil, and the client is in the User Client Cache afterwards. When it
    fails, the client is nil, the error wraps the failure, the user's
    namespaces are not computed and both caches are as before. *)
Theorem GetImpersonatedClientForCluster_known (sched : scheduler)
    (u : UserPrincipal) (clusterName : string) (c : Cluster)
    (cf : clustersManager) :
  firstNamed clusterName (clusters cf) = Some c →
  clusterName ≠ EmptyString →
  match created (Some u) c cf with
  | inr k =>
      ∃ nss cf',
        GetImpersonatedClientForCluster sched (Some u) clusterName cf
        = Returns (Some (NewClient {[clusterName := k]} nss), None) cf'
        ∧ usersClients cf' !! (ID u, clusterName) = Some k
  | inl e =>
      ∃ cf',
        GetImpersonatedClientForCluster sched (Some u) clusterName cf
        = Returns (None, Some (fmt_Errorf "failed creating cluster client: " e))
            cf'
        ∧ usersClients cf' = usersClients cf
        ∧ usersNamespaces cf' = usersNamespaces cf
  end.
Proof.
  intros Hfirst Hname.
  destruct (firstNamed_Some _ _ _ Hfirst) as [Hin Hc].
  unfold GetImpersonatedClientForCluster, bind, Clusters_Get, gets. simpl.
  rewrite findCluster_firstNamed, Hfirst. simpl.
  rewrite bool_decide_eq_false_2 by congruence.
  pose proof (created_unfold (Some u) c cf) as Hcr. simpl in Hcr.
  unfold created in *.
  unfold getOrCreateClient, bind, UsersClients_Get, UsersClients_Set, gets,
    modify in *. simpl in *.
  destruct (usersClients cf !! (ID u, GetName c)) as [k|] eqn:Hcache; simpl.
  - unfold ClientsPool_Add, NewClustersClientsPool. rewrite lookup_empty.
    destruct (userNsList_returns sched u cf) as (nss & cf' & Hns & Hfr).
    rewrite Hns. simpl. exists nss, cf'. rewrite insert_empty, Hc.
    split; [done|].
    destruct Hfr as (_ & _ & _ & _ & -> & _). by rewrite <- Hc.
  - destruct (GetUserClient c u) as [e|k]; simpl.
    + eexists. split; [reflexivity|]. done.
    + unfold ClientsPool_Add, NewClustersClientsPool. rewrite lookup_empty.
      match goal with
      | |- context [userNsList sched u ?cf1] =>
          destruct (userNsList_returns sched u cf1) as (nss & cf' & Hns & Hfr)
      end.
      rewrite Hns. simpl. exists nss, cf'. rewrite insert_empty, Hc.
      split; [done|].
      destruct Hfr as (_ & _ & _ & _ & -> & _). simpl.
      rewrite Hc. apply lookup_insert_eq.
Qed.

Lemma GetImpersonatedClientForCluster_known_witness :
  ∃ nss cf',
    GetImpersonatedClientForCluster fifo (Some alice) "production" sampleManager
    = Returns
        (Some (NewClient {["production" := K8sClient "alice@production"]} nss),
         None) cf'
    ∧ usersClients cf' !! ("alice", "production")
      = Some (K8sClient "alice@production").
Proof.
  exact (GetImpersonatedClientForCluster_known fifo alice "production"
           production sampleManager eq_refl ltac:(discriminate)).
Defined.

Lemma discoveryLoop_firstNamed (u : UserPrincipal) (clusterName : string)
    (cs : list Cluster) :
  discoveryLoop u clusterName cs
  = match firstNamed clusterName cs with
    | None => (None, Some (errors_New ("cluster not found: " +:+ clusterName)))
    | Some c =>
        match GetUserClientset c u with
        | inl e =>
            (None, Some (fmt_Errorf "error creating client for cluster: " e))
        | inr clientset => (Some (Discovery clientset), None)
        end
    end.
Proof.
  induction cs as [|c rest IH]; [done|].
  rewrite firstNamed_cons. simpl. by case_bool_decide.
Qed.

(** X3: a cluster registered under the empty name cannot be reached
    through GetImpersonatedClientForCluster: asked for the empty name, it
    answers "cluster not found" and changes nothing, the test that follows
    its loop taking the cluster it found for none.
    GetImpersonatedDiscoveryClient has no such test: it serves that
    cluster. *)
Theorem empty_cluster_name_not_found (sched : scheduler) (u : UserPrincipal)
    (cf : clustersManager) (c : Cluster) :
  firstNamed EmptyString (clusters cf) = Some c →
  GetImpersonatedClientForCluster sched (Some u) EmptyString cf
  = Returns (None, Some (errors_New "cluster not found: ")) cf
  ∧ ∀ clientset,
      GetUserClientset c u = inr clientset →
      GetImpersonatedDiscoveryClient (Some u) EmptyString cf
      = Returns (Some (Discovery clientset), None) cf.
Proof.
  intros Hfirst. split.
  - destruct (firstNamed_Some _ _ _ Hfirst) as [_ Hname].
    unfold GetImpersonatedClientForCluster, bind, Clusters_Get, gets. simpl.
    rewrite findCluster_firstNamed, Hfirst.
    by rewrite bool_decide_eq_true_2.
  - intros clientset Hcs.
    unfold GetImpersonatedDiscoveryClient, bind, Clusters_Get, gets. simpl.
    rewrite discoveryLoop_firstNamed, Hfirst, Hcs. done.
Qed.

Lemma empty_cluster_name_not_found_witness :
  GetImpersonatedClientForCluster fifo (Some alice) EmptyString unnamedManager
  = Returns (None, Some (errors_New "cluster not found: ")) unnamedManager
  ∧ GetImpersonatedDiscoveryClient (Some alice) EmptyString unnamedManager
    = Returns (Some "discovery@", None) unnamedManager.
Proof.
  destruct (empty_cluster_name_not_found fifo alice unnamedManager
              (sampleCluster EmptyString true) eq_refl)
    as [Hnot Hdisc].
  split; [exact Hnot|].
  exact (Hdisc (mkClientset "discovery@" "alice@") eq_refl).
Defined.

(** X4: GetImpersonatedDiscoveryClient never changes the manager's state,
    and never reads the User Client Cache. It asks the first known cluster
    of the given name for a clientset of the user: it returns the discovery
    client of that clientset with a nil error, or a nil client with the
    wrapped failure of the clientset; when no cluster has the name, a nil
    client with "cluster not found". *)
Theorem GetImpersonatedDiscoveryClient_result (u : UserPrincipal)
    (clusterName : string) (cf : clustersManager) :
  ∃ d err,
    GetImpersonatedDiscoveryClient (Some u) clusterName cf = Returns (d, err) cf
    ∧ (clusterName ∉ names (clusters cf) →
         d = None
         ∧ err = Some (errors_New ("cluster not found: " +:+ clusterName)))
    ∧ (∀ c, firstNamed clusterName (clusters cf) = Some c →
         match GetUserClientset c u with
         | inr clientset => d = Some (Discovery clientset) ∧ err = None
         | inl e =>
             d = None
             ∧ err = Some (fmt_Errorf "error creating client for cluster: " e)
         end)
    ∧ (d = None ↔ err ≠ None).
Proof.
  unfold GetImpersonatedDiscoveryClient, bind, Clusters_Get, gets. simpl.
  rewrite discoveryLoop_firstNamed.
  destruct (firstNamed clusterName (clusters cf)) as [c|] eqn:Hfirst.
  - destruct (GetUserClientset c u) as [e|clientset] eqn:Hcs;
      eexists _, _; (split; [reflexivity|]); (split; [|split]).
    + intros Hnot. apply firstNamed_None in Hnot. congruence.
    + intros c' [= <-]. by rewrite Hcs.
    + done.
    + intros Hnot. apply firstNamed_None in Hnot. congruence.
    + intros c' [= <-]. by rewrite Hcs.
    + split; [done|]. by intros [].
  - eexists _, _. split; [reflexivity|]. split; [done|]. split; [done|]. done.
Qed.

Lemma GetImpersonatedDiscoveryClient_result_witness :
  GetImpersonatedDiscoveryClient (Some alice) "staging" sampleManager
  = Returns
      (None,
       Some (fmt_Errorf "error creating client for cluster: "
               (errors_New "connection refused"))) sampleManager.
Proof.
  destruct (GetImpersonatedDiscoveryClient_result alice "staging" sampleManager)
    as (d & err & Hret & _ & Hknown & _).
  destruct (Hknown staging eq_refl) as [-> ->]. exact Hret.
Defined.

(** ** Calling getOrCreateClient again *)

(** X5: a client getOrCreateClient returned is served from the cache by the
    next call for the same identity and cluster: same client, state
    unchanged, so no construction counted. A failure is not remembered:
    the next call asks the factory again, counts that construction too, and
    returns the same error. *)
Theorem getOrCreateClient_again (user : option UserPrincipal) (cl : Cluster)
    (cf cf1 : clustersManager) (r : error + k8sClient) :
  getOrCreateClient user cl cf = Returns r cf1 →
  match r with
  | inr k => getOrCreateClient user cl cf1 = Returns (inr k) cf1
  | inl e =>
      ∃ cf2,
        getOrCreateClient user cl cf1 = Returns (inl e) cf2
        ∧ usersClients cf2 = usersClients cf
        ∧ createCounters cf2
          = match user with
            | None =>
                (incr (GetName cl) (incr (GetName cl) (createCounters cf).1),
                 (createCounters cf).2)
            | Some _ =>
                ((createCounters cf).1,
                 incr (GetName cl) (incr (GetName cl) (createCounters cf).2))
            end
  end.
Proof.
  unfold getOrCreateClient, bind, UsersClients_Get, UsersClients_Set, gets,
    modify, ret.
  destruct user as [u|]; simpl.
  - destruct (usersClients cf !! (ID u, GetName cl)) as [k|] eqn:Hcache; simpl.
    + intros [= <- <-]. by rewrite Hcache.
    + destruct (GetUserClient cl u) as [e|k] eqn:Hf; simpl; intros [= <- <-];
        simpl.
      * rewrite Hcache. simpl.
        eexists. split; [reflexivity|]. done.
      * by rewrite lookup_insert_eq.
  - destruct (usersClients cf !! ("weave-gitops-server", GetName cl))
      as [k|] eqn:Hcache; simpl.
    + intros [= <- <-]. by rewrite Hcache.
    + destruct (cluster_GetServerClient cl) as [e|k] eqn:Hf; simpl;
        intros [= <- <-]; simpl.
      * rewrite Hcache. simpl.
        eexists. split; [reflexivity|]. done.
      * by rewrite lookup_insert_eq.
Qed.

Lemma getOrCreateClient_again_witness :
  ∃ e cf1 cf2,
    getOrCreateClient (Some alice) staging sampleManager = Returns (inl e) cf1
    ∧ getOrCreateClient (Some alice) staging cf1 = Returns (inl e) cf2
    ∧ opsCreateUserClient (metrics cf2) !! "staging" = Some 2.
Proof.
  eexists _, _.
  destruct (getOrCreateClient_again (Some alice) staging sampleManager _ _
              eq_refl) as (cf2 & Hret & _ & Hcount).
  exists cf2. split; [reflexivity|]. split; [exact Hret|].
  change (opsCreateUserClient (metrics cf2)) with (createCounters cf2).2.
  rewrite Hcount. reflexivity.
Defined.

(** ** The Watcher Hub under its operations *)

Lemma heap_evolves_refl (cf : clustersManager) : heap_evolves cf cf.
Proof. intros w c Hw. exists c. repeat split; try done. by right. Qed.

Lemma heap_evolves_trans (cf1 cf2 cf3 : clustersManager) :
  heap_evolves cf1 cf2 → heap_evolves cf2 cf3 → heap_evolves cf1 cf3.
Proof.
  intros H12 H23 w c Hw.
  destruct (H12 w c Hw) as (c2 & Hw2 & Hcap2 & Hcl2 & Hlen2).
  destruct (H23 w c2 Hw2) as (c3 & Hw3 & Hcap3 & Hcl3 & Hlen3).
  exists c3. split; [done|]. split; [congruence|]. split; [congruence|].
  rewrite Hcap2 in Hlen3. destruct Hlen3 as [?|?]; [by left|].
  destruct Hlen2 as [?|?]; [left|right]; lia.
Qed.

(** Replacing the channel of [w0] by one of the same capacity and closed
    flag, with a buffer within the capacity or shorter. *)
Lemma heap_evolves_insert (cf : clustersManager) (w0 : loc)
    (c c' : chan ClusterListUpdate) :
  heap cf !! w0 = Some c →
  chan_cap c' = chan_cap c →
  chan_closed c' = chan_closed c →
  length (chan_buf c') ≤ chan_cap c ∨ length (chan_buf c') ≤ length (chan_buf c) →
  heap_evolves cf (set_heap (<[w0 := c']> (heap cf)) cf).
Proof.
  intros Hw0 Hcap Hcl Hlen w c1 Hw. simpl.
  destruct (decide (w0 = w)) as [<-|Hne].
  - exists c'. rewrite lookup_insert_eq. by simplify_eq.
  - exists c1. rewrite lookup_insert_ne by done. repeat split; try done.
    by right.
Qed.

Lemma send_heap_evolves (cf : clustersManager) (w0 : loc)
    (c c' : chan ClusterListUpdate) (u : ClusterListUpdate) :
  heap cf !! w0 = Some c →
  chan_send c u = SendOk c' →
  heap_evolves cf (set_heap (<[w0 := c']> (heap cf)) cf).
Proof.
  intros Hw0 Hsend. unfold chan_send in Hsend.
  destruct (chan_closed c) eqn:Hcl; [done|].
  case_bool_decide as Hroom; [|done]. simplify_eq.
  apply (heap_evolves_insert cf w0 c); try done.
  left. simpl. rewrite length_app. simpl. lia.
Qed.

Lemma consumer_step_heap_evolves (cf cf' : clustersManager) :
  consumer_step cf cf' → heap_evolves cf cf'.
Proof.
  intros [cf0 w0 c v c' Hw0 Hrecv]. unfold chan_recv in Hrecv.
  destruct (chan_buf c) as [|v' rest] eqn:Hbuf;
    [by destruct (chan_closed c)|]. simplify_eq.
  apply (heap_evolves_insert cf0 w0 c); try done.
  right. simpl. rewrite Hbuf. simpl. lia.
Qed.

Lemma consumer_steps_heap_evolves (cf cf' : clustersManager) :
  rtc consumer_step cf cf' → heap_evolves cf cf'.
Proof.
  induction 1 as [cf|cf1 cf2 cf3 Hstep _ IH]; [apply heap_evolves_refl|].
  eapply heap_evolves_trans; [|exact IH]. by apply consumer_step_heap_evolves.
Qed.

Lemma notify_loop_evolves (added removed : list Cluster) (ws : list loc) :
  ∀ cf cf',
    completes (forM ws (λ w, Notify w added removed) cf) tt cf' →
    heap_evolves cf cf'.
Proof.
  induction ws as [|w0 rest IH]; intros cf cf' Hc; cbn [forM] in Hc.
  - inversion Hc; subst. apply heap_evolves_refl.
  - unfold bind in Hc. apply completes_obind in Hc as ([] & cf1 & Hn & Hrest).
    eapply heap_evolves_trans; [|by apply IH].
    unfold Notify in Hn.
    destruct (heap cf !! w0) as [c|] eqn:Hw0; [|inversion Hn].
    destruct (chan_send c (mkUpdate added removed)) as [c'| |] eqn:Hsend.
    + inversion Hn; subst. by eapply send_heap_evolves.
    + inversion Hn as [|w' u' cf0 k' cf2 c2 c2' b' cf3 Hrtc Hw Hs Hk]; subst.
      inversion Hk; subst.
      eapply heap_evolves_trans; [by apply consumer_steps_heap_evolves|].
      by eapply send_heap_evolves.
    + inversion Hn.
Qed.

(** What every run of UpdateClusters on a fetched list that reaches its end
    has done. *)
Lemma UpdateClusters_effect (fetched : list Cluster)
    (cf cf' : clustersManager) (r : option error) :
  completes (UpdateClusters (inr fetched) cf) r cf' →
  r = None
  ∧ clusters cf' = fetched
  ∧ watchers cf' = watchers cf
  ∧ updateClustersMetrics cf'
    = (S (opsUpdateClusters (metrics cf)), length fetched)
  ∧ namespace_side cf' = namespace_side cf
  ∧ heap_evolves cf cf'
  ∧ ∀ w, sent_to w cf'
         = sent_to w cf
           ++ match update_of fetched cf with
              | None => []
              | Some u => repeat u (registered w cf)
              end.
Proof.
  intros Hc. unfold update_of, diff_of.
  unfold UpdateClusters, bind, Clusters_Set in *. simpl in *.
  unfold bind, gets in Hc. simpl in Hc.
  set (added := filter (λ c, GetName c ∉ names (clusters cf)) fetched) in *.
  set (removed := filter (λ c, GetName c ∉ names fetched) (clusters cf)) in *.
  apply completes_obind in Hc as ([] & cf1 & Hloop & Hret).
  assert (r = None ∧ cf1 = cf') as [-> ->] by (by inversion Hret).
  split; [done|].
  set (cf3 := set_metrics _ (set_metrics _ (set_clusters fetched cf))) in *.
  assert (Hheap3 : heap cf3 = heap cf) by done.
  destruct (bool_decide (0 < length added) || bool_decide (0 < length removed))
    eqn:Htest.
  - pose proof (notify_loop_evolves _ _ _ _ _ Hloop) as Hev.
    apply notify_loop_sent in Hloop as [Hfr Hsent].
    split; [by rewrite Hfr|]. split; [by rewrite Hfr|].
    split; [by rewrite Hfr|]. split; [by rewrite Hfr|].
    split.
    + intros w c Hw. apply (Hev w c). by rewrite Hheap3.
    + intros w. rewrite (Hsent w). unfold sent_to. rewrite Hheap3.
      assert (Hd : ¬ (added = [] ∧ removed = [])).
      { intros Hd. apply diff_test in Hd. congruence. }
      destruct added, removed; done.
  - apply diff_test in Htest as [-> ->].
    assert (cf' = cf3) as -> by (by inversion Hloop).
    split; [done|]. split; [done|]. split; [done|]. split; [done|].
    split; [intros w c Hw; exists c; repeat split; try done; by right|].
    intros w. by rewrite app_nil_r.
Qed.

Lemma hub_invariant_evolves (cf cf' : clustersManager) :
  hub_invariant cf →
  watchers cf' = watchers cf →
  heap_evolves cf cf' →
  hub_invariant cf'.
Proof.
  intros [Hnd Hlive] Hws Hev. split; [by rewrite Hws|].
  intros w Hw. rewrite Hws in Hw.
  destruct (Hlive w Hw) as (c & Hc & Hopen & Hcap & Hlen).
  destruct (Hev w c Hc) as (c' & Hc' & Hcap' & Hcl' & Hlen').
  exists c'. split; [done|]. split; [congruence|]. split; [congruence|].
  destruct Hlen'; lia.
Qed.

Lemma hub_invariant_live (cf : clustersManager) (w : loc) :
  hub_invariant cf → w ∈ watchers cf → watcher_live cf w.
Proof.
  intros [_ Hlive] Hw. destruct (Hlive w Hw) as (c & Hc & Hopen & Hcap & Hlen).
  exists c. repeat split; try done; lia.
Qed.

(** What a call of Unsubscribe that returns has found and done. *)
Lemma Unsubscribe_returns (cw : loc) (cf cf' : clustersManager) :
  Unsubscribe cw cf = Returns tt cf' →
  ∃ c, heap cf !! cw = Some c
       ∧ chan_closed c = false
       ∧ cf' = set_heap
                 (<[cw := mkChan (chan_cap c) (chan_buf c) (chan_recvd c) true]>
                    (heap cf))
                 (set_watchers (filter (λ w, cw ≠ w) (watchers cf)) cf).
Proof.
  unfold Unsubscribe, bind. rewrite RemoveWatcher_filter. simpl.
  unfold closeUpdates. simpl.
  destruct (heap cf !! cw) as [c|] eqn:Hc; [|done].
  unfold chan_close. destruct (chan_closed c) eqn:Hcl; [done|].
  intros [= <-]. by exists c.
Qed.

Lemma UpdateClusters_can_complete (fetched : error + list Cluster)
    (cf : clustersManager) :
  (∀ w, w ∈ watchers cf → watcher_live cf w) →
  ∃ r cf', completes (UpdateClusters fetched cf) r cf'.
Proof.
  intros Hlive. destruct fetched as [err|cls].
  - eexists _, _. constructor.
  - unfold UpdateClusters, bind, Clusters_Set. simpl. unfold bind, gets. simpl.
    destruct (_ || _).
    + match goal with
      | |- context [forM ?ws (λ w, Notify w ?a ?r) ?cf3] =>
          destruct (notify_loop_completes a r ws cf3) as (cf' & Hc)
      end.
      { intros w Hw. destruct (Hlive w Hw) as (c & Hc & Hrest). by exists c. }
      exists None, cf'. apply completes_obind. exists tt, cf'.
      split; [exact Hc|constructor].
    + eexists _, _. constructor.
Qed.

(** X6: the Watcher Hub keeps its shape. A new manager has no watcher; and
    whenever no watcher is registered twice and every registered watcher
    has an open one-slot channel holding at most one update, the same holds
    after Subscribe, after RemoveWatcher, after an Unsubscribe that
    returns, after a subscriber has received, and after every run of
    UpdateClusters that reaches its end. In such a state a run of
    UpdateClusters that reaches its end always exists. *)
Theorem hub_invariant_kept (cf : clustersManager) :
  (∀ nsChecker, hub_invariant (NewClustersManager nsChecker))
  ∧ (hub_invariant cf →
     (∀ cw cf', Subscribe cf = Returns cw cf' → hub_invariant cf')
     ∧ (∀ cw cf', RemoveWatcher cw cf = Returns tt cf' → hub_invariant cf')
     ∧ (∀ cw cf', Unsubscribe cw cf = Returns tt cf' → hub_invariant cf')
     ∧ (∀ cf', consumer_step cf cf' → hub_invariant cf')
     ∧ (∀ fetched r cf',
          completes (UpdateClusters fetched cf) r cf' → hub_invariant cf')
     ∧ (∀ fetched, ∃ r cf', completes (UpdateClusters fetched cf) r cf')).
Proof.
  split.
  { intros chk. split; [constructor|]. intros w Hw. by apply elem_of_nil in Hw. }
  intros Hinv. pose proof Hinv as [Hnd Hlive].
  split; [|split; [|split; [|split; [|split]]]].
  - intros cw cf' [= <- <-]. simpl.
    assert (Hfresh : heap cf !! fresh (dom (heap cf)) = None)
      by apply not_elem_of_dom, is_fresh.
    assert (Hnew : fresh (dom (heap cf)) ∉ watchers cf).
    { intros Hw. destruct (Hlive _ Hw) as (c & Hc & _). congruence. }
    split.
    + simpl. apply NoDup_app. split; [done|]. split; [|apply NoDup_singleton].
      intros w Hw Hw'. apply list_elem_of_singleton in Hw'. by subst w.
    + simpl. intros w Hw. apply elem_of_app in Hw as [Hw|Hw].
      * rewrite lookup_insert_ne by (intros <-; done). by apply Hlive.
      * apply list_elem_of_singleton in Hw as ->.
        exists (make_chan 1). rewrite lookup_insert_eq. simpl.
        repeat split; try done. lia.
  - intros cw cf'. rewrite RemoveWatcher_filter. intros [= <-]. split; simpl.
    + by apply NoDup_filter.
    + intros w Hw. apply list_elem_of_filter in Hw as [_ Hw]. by apply Hlive.
  - intros cw cf' Hun.
    apply Unsubscribe_returns in Hun as (c & Hc & Hopen & ->). split; simpl.
    + by apply NoDup_filter.
    + intros w Hw. apply list_elem_of_filter in Hw as [Hne Hw].
      rewrite lookup_insert_ne by done. by apply Hlive.
  - intros cf' Hstep. apply (hub_invariant_evolves cf); [done| |].
    + by rewrite (consumer_step_heap_only cf cf' Hstep).
    + by apply consumer_step_heap_evolves.
  - intros [err|fetched] r cf' Hc.
    + by inversion Hc; subst.
    + apply UpdateClusters_effect in Hc as (_ & _ & Hws & _ & _ & Hev & _).
      by apply (hub_invariant_evolves cf).
  - intros fetched. apply UpdateClusters_can_complete.
    intros w Hw. by apply hub_invariant_live.
Qed.

Lemma hub_invariant_kept_witness :
  hub_invariant watchedManager
  ∧ ∃ r cf', completes (UpdateClusters (inr [management]) notifiedManager) r cf'
             ∧ hub_invariant cf'.
Proof.
  assert (H0 : hub_invariant sampleManager).
  { destruct (hub_invariant_kept sampleManager) as [Hnew _].
    exact (Hnew allowAll). }
  destruct (hub_invariant_kept sampleManager) as (_ & Hkeep).
  destruct (Hkeep H0) as (Hsub & _).
  assert (H1 : hub_invariant
                 (set_watchers [0]
                    (set_heap {[0 := make_chan 1]} sampleManager)))
    by exact (Hsub 0 _ eq_refl).
  destruct (hub_invariant_kept
              (set_watchers [0] (set_heap {[0 := make_chan 1]} sampleManager)))
    as (_ & Hkeep1).
  destruct (Hkeep1 H1) as (Hsub1 & _).
  assert (H2 : hub_invariant watchedManager) by exact (Hsub1 1 _ eq_refl).
  split; [exact H2|].
  destruct (hub_invariant_kept watchedManager) as (_ & Hkeep2).
  destruct (Hkeep2 H2) as (_ & _ & _ & _ & Hupd & _).
  assert (H3 : hub_invariant notifiedManager).
  { apply (Hupd (inr [management; staging]) None notifiedManager).
    apply (completes_returns None notifiedManager). }
  destruct (hub_invariant_kept notifiedManager) as (_ & Hkeep3).
  destruct (Hkeep3 H3) as (_ & _ & _ & _ & Hupd3 & Hruns).
  destruct (Hruns (inr [management])) as (r & cf' & Hc).
  exists r, cf'. split; [exact Hc|]. exact (Hupd3 _ _ _ Hc).
Defined.

Lemma watchedManager_hub : hub_invariant watchedManager.
Proof.
  split; [apply (bool_decide_unpack _); vm_compute; exact I|].
  intros w Hw. change (watchers watchedManager) with [0; 1] in Hw.
  exists (make_chan 1).
  apply elem_of_cons in Hw as [->|Hw];
    [|apply elem_of_cons in Hw as [->|Hw]; [|by apply elem_of_nil in Hw]];
    (split; [reflexivity|]); simpl; repeat split; lia.
Qed.

Lemma notifiedManager_runs :
  ∃ r cf', completes (UpdateClusters (inr [management]) notifiedManager) r cf'.
Proof.
  apply UpdateClusters_can_complete.
  intros w Hw. change (watchers notifiedManager) with [0; 1] in Hw.
  exists (mkChan 1 [mkUpdate [] [production]] [] false).
  apply elem_of_cons in Hw as [->|Hw];
    [|apply elem_of_cons in Hw as [->|Hw]; [|by apply elem_of_nil in Hw]];
    (split; [reflexivity|]); simpl; repeat split; lia.
Qed.

Lemma registered_removed (cw : loc) (cf : clustersManager) :
  registered cw (set_watchers (filter (λ w, cw ≠ w) (watchers cf)) cf) = 0.
Proof.
  unfold registered. simpl.
  induction (watchers cf) as [|w rest IH]; [done|].
  rewrite filter_cons. destruct (decide (cw ≠ w)) as [Hne|Heq]; [|done].
  rewrite filter_eq_cons, IH, bool_decide_eq_false_2; [done|congruence].
Qed.

(** A refresh sends nothing to an address that is not registered. *)
Lemma UpdateClusters_skips_unregistered (fetched : error + list Cluster)
    (cw : loc) (cf cf' : clustersManager) (r : option error) :
  registered cw cf = 0 →
  completes (UpdateClusters fetched cf) r cf' →
  sent_to cw cf' = sent_to cw cf.
Proof.
  intros Hreg Hc. destruct fetched as [err|cls].
  - by inversion Hc; subst.
  - apply UpdateClusters_effect in Hc as (_ & _ & _ & _ & _ & _ & Hsent).
    rewrite Hsent, Hreg. destruct (update_of cls cf); apply app_nil_r.
Qed.

(** X7: an Unsubscribe that returns is final for its watcher. A second
    Unsubscribe of the same watcher panics closing the closed channel, and
    a Notify on it would panic sending on it; but no refresh notifies it
    any more: every run of UpdateClusters that reaches its end leaves the
    updates sent to that watcher as they were. *)
Theorem Unsubscribe_is_final (cw : loc) (cf cf1 : clustersManager) :
  Unsubscribe cw cf = Returns tt cf1 →
  (∃ cf2, Unsubscribe cw cf1 = Panics "close of closed channel" cf2)
  ∧ (∀ added removed,
       Notify cw added removed cf1 = Panics "send on closed channel" cf1)
  ∧ (∀ fetched r cf2,
       completes (UpdateClusters fetched cf1) r cf2 →
       sent_to cw cf2 = sent_to cw cf1).
Proof.
  intros Hun. apply Unsubscribe_returns in Hun as (c & Hc & Hopen & ->).
  split; [|split].
  - unfold Unsubscribe, bind. rewrite RemoveWatcher_filter. simpl.
    unfold closeUpdates. simpl. rewrite lookup_insert_eq. simpl.
    by eexists.
  - intros added removed. unfold Notify. simpl.
    by rewrite lookup_insert_eq.
  - intros fetched r cf2. apply UpdateClusters_skips_unregistered.
    apply (registered_removed cw (set_heap _ cf)).
Qed.

Lemma Unsubscribe_is_final_witness :
  ∃ cf1 cf2,
    Unsubscribe 0 watchedManager = Returns tt cf1
    ∧ Unsubscribe 0 cf1 = Panics "close of closed channel" cf2
    ∧ watchers cf1 = [1].
Proof.
  eexists _.
  destruct (Unsubscribe_is_final 0 watchedManager _ eq_refl)
    as ((cf2 & Hpanic) & _).
  exists cf2. split; [reflexivity|]. split; [exact Hpanic|reflexivity].
Defined.

(** X8: under the hub's invariant, Subscribe followed by Unsubscribe of the
    watcher it returned gives back the list of watchers as it was and
    touches no other channel; the watcher's channel stays behind, closed
    and empty, so its address is not handed out again by the next
    Subscribe. *)
Theorem Subscribe_Unsubscribe_roundtrip (cf cf1 : clustersManager) (cw : loc) :
  hub_invariant cf →
  Subscribe cf = Returns cw cf1 →
  ∃ cf2,
    Unsubscribe cw cf1 = Returns tt cf2
    ∧ watchers cf2 = watchers cf
    ∧ (∀ w, w ≠ cw → heap cf2 !! w = heap cf !! w)
    ∧ receiveUpdate cw cf2 = RecvClosed
    ∧ ∀ cw' cf3, Subscribe cf2 = Returns cw' cf3 → cw' ≠ cw.
Proof.
  intros [_ Hlive] [= <- <-].
  assert (Hfresh : heap cf !! fresh (dom (heap cf)) = None)
    by apply not_elem_of_dom, is_fresh.
  assert (Hnew : fresh (dom (heap cf)) ∉ watchers cf).
  { intros Hw. destruct (Hlive _ Hw) as (c & Hc & _). congruence. }
  unfold Unsubscribe, bind. rewrite RemoveWatcher_filter. simpl.
  unfold closeUpdates. simpl. rewrite lookup_insert_eq. simpl.
  eexists. split; [reflexivity|]. simpl.
  split; [|split; [|split]].
  - rewrite filter_app, filter_cons, decide_False, filter_nil, app_nil_r
      by (by intros Hne; apply Hne).
    clear Hlive.
    induction (watchers cf) as [|w rest IH]; [done|].
    apply not_elem_of_cons in Hnew as [Hne Hrest].
    rewrite filter_cons, decide_True by done. by rewrite IH.
  - intros w Hw. by rewrite !lookup_insert_ne.
  - unfold receiveUpdate. simpl. by rewrite lookup_insert_eq.
  - intros cw' cf3 [= <- _]. simpl. intros Heq.
    pose proof (is_fresh
                  (dom (<[fresh (dom (heap cf)) :=
                            mkChan 1 [] [] true]>
                          (<[fresh (dom (heap cf)) := make_chan 1]> (heap cf)))))
      as Hf.
    rewrite Heq in Hf. apply Hf. rewrite dom_insert_L. set_solver.
Qed.

Lemma Subscribe_Unsubscribe_roundtrip_witness :
  hub_invariant watchedManager
  ∧ ∃ cf1 cf2,
      Subscribe watchedManager = Returns 2 cf1
      ∧ Unsubscribe 2 cf1 = Returns tt cf2
      ∧ watchers cf2 = watchers watchedManager.
Proof.
  pose proof watchedManager_hub as Hinv.
  split; [exact Hinv|].
  eexists _.
  destruct (Subscribe_Unsubscribe_roundtrip watchedManager _ 2 Hinv eq_refl)
    as (cf2 & Hun & Hws & _).
  exists cf2. split; [reflexivity|]. by split.
Defined.

Lemma filter_ne_id (cw : loc) (ws : list loc) :
  cw ∉ ws → filter (λ w, cw ≠ w) ws = ws.
Proof.
  induction ws as [|w rest IH]; [done|]. intros Hnot.
  apply not_elem_of_cons in Hnot as [Hne Hrest].
  rewrite filter_cons, decide_True by done. by rewrite IH.
Qed.

Lemma filter_ne_not_in (cw : loc) (ws : list loc) :
  cw ∉ filter (λ w, cw ≠ w) ws.
Proof. rewrite list_elem_of_filter. by intros [Hne _]. Qed.

(** X9: RemoveWatcher on its own only edits the list: no channel changes,
    so the removed watcher's channel is not closed and a receive on it
    answers what it answered before (it parks if it parked). No refresh
    notifies the removed watcher again. Removing it a second time, or
    removing a watcher that is not registered, changes nothing. *)
Theorem RemoveWatcher_leaves_channel (cw : loc) (cf : clustersManager) :
  ∃ cf1,
    RemoveWatcher cw cf = Returns tt cf1
    ∧ heap cf1 = heap cf
    ∧ receiveUpdate cw cf1 = receiveUpdate cw cf
    ∧ (cw ∉ watchers cf1)
    ∧ (∀ w, w ≠ cw → registered w cf1 = registered w cf)
    ∧ RemoveWatcher cw cf1 = Returns tt cf1
    ∧ (cw ∉ watchers cf → cf1 = cf)
    ∧ ∀ fetched r cf2,
        completes (UpdateClusters fetched cf1) r cf2 →
        sent_to cw cf2 = sent_to cw cf1.
Proof.
  rewrite RemoveWatcher_filter. eexists. split; [reflexivity|].
  split; [done|]. split; [done|]. split; [apply filter_ne_not_in|].
  split; [|split; [|split]].
  - intros w Hw. unfold registered. simpl.
    induction (watchers cf) as [|w0 rest IH]; [done|].
    rewrite filter_cons. destruct (decide (cw ≠ w0)) as [Hne|Heq].
    + by rewrite !filter_eq_cons, IH.
    + rewrite filter_eq_cons, IH, bool_decide_eq_false_2; [done|].
      intros ->. apply Heq. congruence.
  - rewrite RemoveWatcher_filter. simpl.
    rewrite (filter_ne_id cw) by apply filter_ne_not_in. done.
  - intros Hnot. rewrite filter_ne_id by done. by destruct cf.
  - intros fetched r cf2. apply UpdateClusters_skips_unregistered.
    apply registered_removed.
Qed.

(** ** What a refresh leaves behind *)

(** X10: every run of UpdateClusters on a fetched list that reaches its end
    returns a nil error; GetClusters then returns the fetched list as it
    is; the refresh counter has grown by one and the gauge is the length of
    the list. The refresh itself invalidates nothing: the recorded hash and
    the three caches are as before (until the next UpdateNamespaces), and
    the list of watchers is unchanged. *)
Theorem UpdateClusters_refresh (fetched : list Cluster)
    (cf cf' : clustersManager) (r : option error) :
  completes (UpdateClusters (inr fetched) cf) r cf' →
  r = None
  ∧ GetClusters cf' = Returns fetched cf'
  ∧ updateClustersMetrics cf'
    = (S (opsUpdateClusters (metrics cf)), length fetched)
  ∧ namespace_side cf' = namespace_side cf
  ∧ watchers cf' = watchers cf.
Proof.
  intros Hc.
  apply UpdateClusters_effect in Hc as (-> & Hcl & Hws & Hm & Hside & _).
  split; [done|]. split; [|by split].
  unfold GetClusters, Clusters_Get, gets. by rewrite Hcl.
Qed.

Lemma UpdateClusters_refresh_witness :
  ∃ cf',
    completes (UpdateClusters (inr [management]) notifiedManager) None cf'
    ∧ GetClusters cf' = Returns [management] cf'
    ∧ updateClustersMetrics cf' = (2, 1).
Proof.
  destruct notifiedManager_runs as (r & cf' & Hc).
  destruct (UpdateClusters_refresh [management] notifiedManager cf' r Hc)
    as (-> & Hget & Hm & _).
  exists cf'. split; [exact Hc|]. split; [exact Hget|]. exact Hm.
Defined.

Lemma filter_known_names (ns : list string) (cs : list Cluster) :
  (∀ c, c ∈ cs → GetName c ∈ ns) → filter (λ c, GetName c ∉ ns) cs = [].
Proof.
  induction cs as [|c rest IH]; intros Hall; [done|].
  rewrite filter_cons, decide_False.
  - apply IH. intros c' Hc'. apply Hall. by apply list_elem_of_further.
  - intros Hnot. apply Hnot, Hall, list_elem_of_here.
Qed.

(** X11: refreshes add up in order. After two runs of UpdateClusters that
    reach their end, every address has been sent the update of the first
    refresh and then the update of the second, once per registration each,
    and nothing else. A refresh that fetches again the list the registry
    holds returns at once and touches no channel. *)
Theorem UpdateClusters_in_order (fetched1 fetched2 : list Cluster)
    (cf cf1 cf2 : clustersManager) (r1 r2 : option error) :
  completes (UpdateClusters (inr fetched1) cf) r1 cf1 →
  completes (UpdateClusters (inr fetched2) cf1) r2 cf2 →
  (∀ w, sent_to w cf2
        = sent_to w cf
          ++ match update_of fetched1 cf with
             | None => []
             | Some u => repeat u (registered w cf)
             end
          ++ match update_of fetched2 cf1 with
             | None => []
             | Some u => repeat u (registered w cf)
             end)
  ∧ ∃ cf3, UpdateClusters (inr fetched2) cf2 = Returns None cf3
           ∧ heap cf3 = heap cf2.
Proof.
  intros Hc1 Hc2.
  apply UpdateClusters_effect in Hc1 as (_ & _ & Hws1 & _ & _ & _ & Hsent1).
  apply UpdateClusters_effect in Hc2 as (_ & Hcl2 & _ & _ & _ & _ & Hsent2).
  split.
  - intros w. rewrite Hsent2, Hsent1, <- app_assoc. do 2 f_equal.
    unfold registered. by rewrite Hws1.
  - unfold UpdateClusters, bind, Clusters_Set. simpl. unfold bind, gets. simpl.
    rewrite Hcl2.
    assert (Hnone : filter (λ c, GetName c ∉ names fetched2) fetched2 = []).
    { apply filter_known_names. intros c Hc. unfold names.
      by apply list_elem_of_fmap_2. }
    rewrite !Hnone. simpl. eexists. split; [reflexivity|]. done.
Qed.

Lemma UpdateClusters_in_order_witness :
  ∃ cf2,
    completes (UpdateClusters (inr [management]) notifiedManager) None cf2
    ∧ sent_to 0 cf2 = [mkUpdate [] [production]; mkUpdate [] [staging]]
    ∧ sent_to 3 cf2 = [].
Proof.
  destruct notifiedManager_runs as (r & cf2 & Hc2).
  assert (Hc1 : completes
                  (UpdateClusters (inr [management; staging]) watchedManager)
                  None notifiedManager)
    by apply (completes_returns None notifiedManager).
  destruct (UpdateClusters_in_order _ _ _ _ _ _ _ Hc1 Hc2) as [Hsent _].
  assert (r = None) as ->.
  { by apply UpdateClusters_effect in Hc2 as (-> & _). }
  exists cf2. split; [exact Hc2|]. split; rewrite Hsent; reflexivity.
Defined.

(** ** What UpdateNamespaces stores *)

Lemma foldM_invariant {A B} (body : A → B → M B)
    (Q : B → clustersManager → Prop) (xs : list A) :
  (∀ x acc cf acc' cf',
     Q acc cf → body x acc cf = Returns acc' cf' → Q acc' cf') →
  ∀ acc cf acc' cf',
    Q acc cf → foldM body xs acc cf = Returns acc' cf' → Q acc' cf'.
Proof.
  intros Hbody. induction xs as [|x rest IH]; intros acc cf acc' cf' HQ;
    cbn [foldM].
  - unfold ret. by intros [= <- <-].
  - unfold bind. destruct (body x acc cf) as [acc1 cf1| | |] eqn:Hb; simpl;
      try done.
    intros Hrest. eapply IH; [|exact Hrest]. by eapply Hbody.
Qed.

(** A goroutine of the fan-out sends only ClientErrors, and leaves the
    counters of the refreshes alone. *)
Lemma poolTask_keeps (user : option UserPrincipal) (kind : string)
    (cl : Cluster) (acc acc' : gmap string k8sClient * chan error)
    (cf cf' : clustersManager) :
  Forall (λ e, ∃ n e', e = ClientError n e') (chan_buf acc.2) →
  poolTask user kind cl acc cf = Returns acc' cf' →
  Forall (λ e, ∃ n e', e = ClientError n e') (chan_buf acc'.2)
  ∧ refresh_metrics cf' = refresh_metrics cf.
Proof.
  destruct acc as [pool ch]. intros Hbuf. simpl in Hbuf.
  unfold poolTask, bind.
  destruct (getOrCreateClient_returns user cl cf) as (cf1 & Hret & _ & _).
  assert (Hm : refresh_metrics cf1 = refresh_metrics cf).
  { clear Hbuf. revert Hret.
    unfold getOrCreateClient, bind, UsersClients_Get, UsersClients_Set, gets,
      modify, ret.
    destruct user as [u|]; simpl;
      (destruct (usersClients cf !! _); simpl; [by intros [= _ <-]|]).
    - destruct (GetUserClient cl u); simpl; by intros [= _ <-].
    - destruct (cluster_GetServerClient cl); simpl; by intros [= _ <-]. }
  rewrite Hret. simpl.
  assert (Hsend : ∀ e0 ch1 cf2,
            errChan_send ch (ClientError (GetName cl) e0) cf1 = Returns ch1 cf2 →
            Forall (λ e, ∃ n e', e = ClientError n e') (chan_buf ch1)
            ∧ cf2 = cf1).
  { intros e0 ch1 cf2. unfold errChan_send, chan_send.
    destruct (chan_closed ch); [done|]. case_bool_decide; [|done].
    intros [= <- <-]. split; [|done]. simpl.
    apply Forall_app. split; [done|]. apply Forall_singleton. by eexists _, _. }
  destruct (created user cl cf) as [err|client]; simpl.
  - destruct (errChan_send ch _ cf1) as [ch1 cf2| | |] eqn:Hs; simpl; try done.
    intros [= <- <-]. destruct (Hsend _ _ _ Hs) as [H1 ->]. by split.
  - destruct (ClientsPool_Add client cl pool) as [[err|] pool'].
    + destruct (errChan_send ch _ cf1) as [ch1 cf2| | |] eqn:Hs; simpl;
        try done.
      intros [= <- <-]. destruct (Hsend _ _ _ Hs) as [H1 ->]. by split.
    + intros [= <- <-]. by split.
Qed.

(** The error of GetServerClient is nil or a multierror of ClientErrors,
    at least one; the counters of the refreshes are as before. *)
Lemma GetServerClient_error (sched : scheduler) (cf cf1 : clustersManager)
    (client : option Client) (cerr : option error) :
  GetServerClient sched cf = Returns (client, cerr) cf1 →
  refresh_metrics cf1 = refresh_metrics cf
  ∧ (cerr = None
     ∨ ∃ e es, cerr = Some (multierror (e :: es))
               ∧ Forall (λ e, ∃ n e', e = ClientError n e') (e :: es)).
Proof.
  unfold GetServerClient, bind, Clusters_Get, gets. simpl.
  destruct (foldM (poolTask None "server") (sched (clusters cf))
              (NewClustersClientsPool, make_chan (length (clusters cf))) cf)
    as [[pool ch] cf2| | |] eqn:Hfold; simpl; try done.
  assert (HQ : Forall (λ e, ∃ n e', e = ClientError n e') (chan_buf ch)
               ∧ refresh_metrics cf2 = refresh_metrics cf).
  { apply (foldM_invariant (poolTask None "server")
             (λ acc cf', Forall (λ e, ∃ n e', e = ClientError n e')
                           (chan_buf acc.2)
                         ∧ refresh_metrics cf' = refresh_metrics cf)
             (sched (clusters cf)))
      with (acc := (NewClustersClientsPool, make_chan (length (clusters cf))))
           (cf := cf) (acc' := (pool, ch)).
    - intros x acc cf0 acc' cf' [HF Hm] Hb.
      destruct (poolTask_keeps None "server" x acc acc' cf0 cf' HF Hb)
        as [HF' Hm'].
      split; [done|congruence].
    - split; [constructor|done].
    - exact Hfold. }
  destruct HQ as [HF Hm].
  unfold collectErrors, chan_close.
  destruct (chan_closed ch); simpl; [done|].
  unfold ret. intros [= _ <- <-]. split; [done|].
  rewrite multierror_Append_fold.
  - destruct (chan_buf ch) as [|e es]; [by left|]. right. by exists e, es.
  - intros e He es ->. rewrite Forall_forall in HF.
    by destruct (HF _ He) as (? & ? & ?).
Qed.

Lemma listed_cons (l : ObjectList) (lists : list ObjectList) :
  listed (l :: lists)
  = match listed lists with
    | Some Items => Some Items
    | None => match l with
              | NamespaceList Items => Some Items
              | OtherList => None
              end
    end.
Proof.
  unfold listed. destruct l as [Items|]; simpl.
  - rewrite last_cons. by destruct (last _).
  - by destruct (last _).
Qed.

(** The loop over the lists of one cluster: the namespaces of the last
    namespace list are stored and counted; the entries of the other
    clusters are as before. *)
Lemma storeNamespaces_entry (clusterName : string) (lists : list ObjectList) :
  ∀ cf, ∃ cf',
    storeNamespaces (clusterName, lists) cf = Returns tt cf'
    ∧ listing_frame cf cf'
    ∧ opsUpdateNamespaces (metrics cf') = opsUpdateNamespaces (metrics cf)
    ∧ clustersNamespaces cf'
      = match listed lists with
        | Some Items => <[clusterName := Items]> (clustersNamespaces cf)
        | None => clustersNamespaces cf
        end
    ∧ opsNamespacesCount (metrics cf')
      = match listed lists with
        | Some Items =>
            <[clusterName := length Items]> (opsNamespacesCount (metrics cf))
        | None => opsNamespacesCount (metrics cf)
        end.
Proof.
  unfold storeNamespaces.
  induction lists as [|l rest IH]; intros cf; cbn [forM].
  - exists cf. split; [done|]. split; [auto with frames|]. done.
  - unfold bind. rewrite listed_cons.
    destruct l as [Items|]; simpl.
    + destruct (IH (set_metrics
                      (mkMetrics (opsUpdateClusters (metrics cf))
                         (opsClustersCount (metrics cf))
                         (opsUpdateNamespaces (metrics cf))
                         (<[clusterName := length Items]>
                            (opsNamespacesCount (metrics cf)))
                         (opsCreateServerClient (metrics cf))
                         (opsCreateUserClient (metrics cf)))
                      (set_clustersNamespaces
                         (<[clusterName := Items]> (clustersNamespaces cf)) cf)))
        as (cf' & Hret & Hfr & Hun & Hcn & Hcount).
      exists cf'. split; [exact Hret|]. split.
      { eapply listing_frame_trans; [|exact Hfr]. by repeat split. }
      split; [by rewrite Hun|]. rewrite Hcn, Hcount. simpl.
      destruct (listed rest); [|done]. by rewrite !insert_insert_eq.
    + destruct (IH cf) as (cf' & Hret & Hfr & Hun & Hcn & Hcount).
      exists cf'. split; [exact Hret|]. split; [exact Hfr|].
      split; [exact Hun|]. rewrite Hcn, Hcount. by destruct (listed rest).
Qed.

(** The loop over the clusters of a listing, given as entries with distinct
    names. *)
Lemma storeNamespaces_entries (entries : list (string * list ObjectList)) :
  NoDup entries.*1 →
  ∀ cf, ∃ cf',
    forM entries storeNamespaces cf = Returns tt cf'
    ∧ listing_frame cf cf'
    ∧ opsUpdateNamespaces (metrics cf') = opsUpdateNamespaces (metrics cf)
    ∧ (∀ n, clustersNamespaces cf' !! n
            = match (list_to_map entries : gmap string (list ObjectList)) !! n
                    ≫= listed with
              | Some Items => Some Items
              | None => clustersNamespaces cf !! n
              end)
    ∧ (∀ n, opsNamespacesCount (metrics cf') !! n
            = match (list_to_map entries : gmap string (list ObjectList)) !! n
                    ≫= listed with
              | Some Items => Some (length Items)
              | None => opsNamespacesCount (metrics cf) !! n
              end).
Proof.
  induction entries as [|[name lists] rest IH]; intros Hnd cf; cbn [forM].
  - exists cf. split; [done|]. split; [auto with frames|]. split; [done|].
    split; intros n; cbn [list_to_map foldr]; by rewrite lookup_empty.
  - rewrite fmap_cons in Hnd. apply NoDup_cons in Hnd as [Hfresh Hnd].
    unfold bind.
    destruct (storeNamespaces_entry name lists cf)
      as (cf1 & Hret1 & Hfr1 & Hun1 & Hcn1 & Hcount1).
    rewrite Hret1. simpl.
    destruct (IH Hnd cf1) as (cf' & Hret & Hfr & Hun & Hcn & Hcount).
    exists cf'. split; [exact Hret|].
    split; [by eapply listing_frame_trans|]. split; [congruence|].
    assert (Hrest : (list_to_map rest : gmap string (list ObjectList)) !! name
                    = None) by (by apply not_elem_of_list_to_map_1).
    split; intros n; [rewrite Hcn, Hcn1|rewrite Hcount, Hcount1];
      cbn [list_to_map foldr]; simpl;
      (destruct (decide (name = n)) as [<-|Hne];
       [rewrite Hrest, lookup_insert_eq; simpl;
        destruct (listed lists); [by rewrite lookup_insert_eq|done]
       |rewrite lookup_insert_ne by done;
        destruct (list_to_map rest !! n ≫= listed); [done|];
        destruct (listed lists); [by rewrite lookup_insert_ne|done]]).
Qed.

Lemma rewrap_fold (es : list error) (acc : option (list error)) :
  Forall (λ e, ∃ n e', e = ClientError n e') es →
  es ≠ [] →
  ∃ l, l ≠ []
       ∧ foldl (λ result err,
                  match err with
                  | ClientError ClusterName _ =>
                      multierror_Append result
                        (fmt_Errorf_after err (", cluster: " +:+ ClusterName))
                  | _ => result
                  end) acc es = Some l.
Proof.
  revert acc. induction es as [|e rest IH]; intros acc HF Hne; [done|].
  apply Forall_cons in HF as [(n & e' & ->) HF]. simpl.
  destruct rest as [|e2 rest].
  - simpl. eexists. split; [|reflexivity]. by destruct (default [] acc).
  - apply IH; [done|done].
Qed.

Lemma ErrorOrNil_append (l : list error) (lerr : option error) :
  l ≠ [] →
  ErrorOrNil match lerr with
             | Some err => multierror_Append (Some l) err
             | None => Some l
             end ≠ None.
Proof.
  intros Hl. destruct lerr as [err|]; simpl.
  - destruct l as [|x l]; [done|]. by destruct err.
  - by destruct l.
Qed.

(** What UpdateNamespaces does, step by step. *)
Lemma UpdateNamespaces_effect (sched : scheduler)
    (lister : Client → gmap string (list ObjectList) * option error)
    (cf : clustersManager) :
  ∃ pool cerr cf1 err cf',
    GetServerClient sched cf
    = Returns (Some (NewClient pool (clustersNamespaces cf)), cerr) cf1
    ∧ UpdateNamespaces sched lister cf = Returns err cf'
    ∧ (∀ n, clustersNamespaces cf' !! n
            = match (lister (NewClient pool (clustersNamespaces cf))).1 !! n
                    ≫= listed with
              | Some Items => Some Items
              | None =>
                  if bool_decide (Clusters_Hash (clusters cf) ≠ clustersHash cf)
                  then None
                  else clustersNamespaces cf !! n
              end)
    ∧ (∀ n, opsNamespacesCount (metrics cf') !! n
            = match (lister (NewClient pool (clustersNamespaces cf))).1 !! n
                    ≫= listed with
              | Some Items => Some (length Items)
              | None => opsNamespacesCount (metrics cf) !! n
              end)
    ∧ opsUpdateNamespaces (metrics cf') = S (opsUpdateNamespaces (metrics cf))
    ∧ (err = None
       ↔ cerr = None
         ∧ no_error (lister (NewClient pool (clustersNamespaces cf))).2).
Proof.
  destruct (GetServerClient_returns sched cf)
    as (pool & cerr & cf1 & Hget & Hfr & _).
  destruct (GetServerClient_error sched cf cf1 _ _ Hget) as [Hm Hcerr].
  destruct Hfr as (_ & Hcl & Hh & Hcn & _).
  exists pool, cerr, cf1.
  unfold UpdateNamespaces, bind. rewrite Hget. simpl.
  set (result0 := match cerr with
                  | Some (multierror Errors) => foldl _ None Errors
                  | _ => None
                  end).
  assert (Hsync : ∃ cf2,
             syncCaches cf1 = Returns tt cf2
             ∧ metrics cf2 = metrics cf1
             ∧ clustersNamespaces cf2
               = (if bool_decide (Clusters_Hash (clusters cf) ≠ clustersHash cf)
                  then ∅ else clustersNamespaces cf)).
  { rewrite <- Hcl, <- Hh, <- Hcn.
    unfold syncCaches, bind, gets. simpl.
    destruct (decide (Clusters_Hash (clusters cf1) = clustersHash cf1))
      as [Heq|Hne].
    - rewrite !bool_decide_eq_false_2 by (by intros Hc; apply Hc).
      by exists cf1.
    - rewrite !bool_decide_eq_true_2 by done. simpl.
      eexists. split; [reflexivity|]. done. }
  destruct Hsync as (cf2 & Hsync & Hm2 & Hcn2).
  rewrite Hsync. simpl.
  destruct (lister (NewClient pool (clustersNamespaces cf)))
    as [nsLists lerr] eqn:Hlister. simpl.
  unfold bind.
  destruct (storeNamespaces_entries (map_to_list nsLists)
              (NoDup_fst_map_to_list nsLists) cf2)
    as (cf3 & Hstore & _ & Hun3 & Hcn3 & Hcount3).
  rewrite Hstore. simpl. rewrite list_to_map_to_list in Hcn3, Hcount3.
  eexists _, _. split; [reflexivity|]. split; [reflexivity|]. simpl.
  unfold refresh_metrics in Hm.
  split; [|split; [|split]].
  - intros n. rewrite Hcn3, Hcn2.
    destruct (nsLists !! n ≫= listed); [done|].
    case_bool_decide; [apply lookup_empty|done].
  - intros n. rewrite Hcount3, Hm2.
    destruct (nsLists !! n ≫= listed); [done|]. congruence.
  - rewrite Hun3, Hm2. congruence.
  - unfold no_error. destruct Hcerr as [->|(e & es & -> & HF)].
    + subst result0. simpl. split.
      * intros Herr. split; [done|].
        destruct lerr as [[| | | |[|x l]]|]; simpl in Herr; try done; auto.
      * intros [_ [->| ->]]; done.
    + destruct (rewrap_fold (e :: es) None HF ltac:(done)) as (l & Hl & Hfold).
      subst result0. cbv beta iota. simpl in Hfold. simpl. rewrite Hfold.
      split; [|by intros [? _]].
      intros Herr. by apply (ErrorOrNil_append l lerr) in Hl.
Qed.

(** X12: UpdateNamespaces always returns, and counts itself once whatever
    went wrong. For every cluster name: if the listing has a namespace list
    for it, the Namespace Cache holds the namespaces of the last such list
    and the gauge their number; if not, the gauge is as before and the
    cache entry is the one from before the call (possibly stale), or none
    when the hash of the registry had changed. *)
Theorem UpdateNamespaces_stores (sched : scheduler)
    (lister : Client → gmap string (list ObjectList) * option error)
    (cf : clustersManager) :
  ∃ serverClient cerr cf1 err cf',
    GetServerClient sched cf = Returns (Some serverClient, cerr) cf1
    ∧ UpdateNamespaces sched lister cf = Returns err cf'
    ∧ opsUpdateNamespaces (metrics cf') = S (opsUpdateNamespaces (metrics cf))
    ∧ ∀ n,
        match (lister serverClient).1 !! n ≫= listed with
        | Some Items =>
            clustersNamespaces cf' !! n = Some Items
            ∧ opsNamespacesCount (metrics cf') !! n = Some (length Items)
        | None =>
            clustersNamespaces cf' !! n
            = (if bool_decide (Clusters_Hash (clusters cf) ≠ clustersHash cf)
               then None
               else clustersNamespaces cf !! n)
            ∧ opsNamespacesCount (metrics cf') !! n
              = opsNamespacesCount (metrics cf) !! n
        end.
Proof.
  destruct (UpdateNamespaces_effect sched lister cf)
    as (pool & cerr & cf1 & err & cf' & Hget & Hret & Hcn & Hcount & Hun & _).
  exists (NewClient pool (clustersNamespaces cf)), cerr, cf1, err, cf'.
  split; [done|]. split; [done|]. split; [done|].
  intros n. specialize (Hcn n). specialize (Hcount n).
  by destruct (_ ≫= listed).
Qed.

(** X13: the error UpdateNamespaces returns is nil exactly when
    GetServerClient returned no error and the listing reported none: a
    server client that could not be built makes the refresh report an
    error even if every listing succeeded. *)
Theorem UpdateNamespaces_error (sched : scheduler)
    (lister : Client → gmap string (list ObjectList) * option error)
    (cf : clustersManager) :
  ∃ serverClient cerr cf1 err cf',
    GetServerClient sched cf = Returns (Some serverClient, cerr) cf1
    ∧ UpdateNamespaces sched lister cf = Returns err cf'
    ∧ (err = None ↔ cerr = None ∧ no_error (lister serverClient).2).
Proof.
  destruct (UpdateNamespaces_effect sched lister cf)
    as (pool & cerr & cf1 & err & cf' & Hget & Hret & _ & _ & _ & Herr).
  by exists (NewClient pool (clustersNamespaces cf)), cerr, cf1, err, cf'.
Qed.

(** X14: invalidation happens once per change. After a call of
    UpdateNamespaces, a second call with no refresh of the registry in
    between keeps the User Namespace Cache as the first left it, and keeps
    the Namespace Cache entry of every cluster the second listing has no
    namespace list for. *)
Theorem UpdateNamespaces_twice (sched1 sched2 : scheduler)
    (lister1 lister2 : Client → gmap string (list ObjectList) * option error)
    (cf cf1 cf2 : clustersManager) (err1 err2 : option error) :
  UpdateNamespaces sched1 lister1 cf = Returns err1 cf1 →
  UpdateNamespaces sched2 lister2 cf1 = Returns err2 cf2 →
  usersNamespaces cf2 = usersNamespaces cf1
  ∧ clustersHash cf2 = clustersHash cf1
  ∧ ∃ serverClient cerr cf1',
      GetServerClient sched2 cf1 = Returns (Some serverClient, cerr) cf1'
      ∧ ∀ n, (lister2 serverClient).1 !! n ≫= listed = None →
             clustersNamespaces cf2 !! n = clustersNamespaces cf1 !! n.
Proof.
  intros Hret1 Hret2.
  destruct (UpdateNamespaces_returns sched1 lister1 cf)
    as (? & ? & ? & e1 & c1 & _ & Hr1 & _ & _ & Hh1 & Hcl1 & _).
  rewrite Hret1 in Hr1. injection Hr1 as <- <-.
  assert (Hsame : Clusters_Hash (clusters cf1) = clustersHash cf1)
    by congruence.
  destruct (UpdateNamespaces_returns sched2 lister2 cf1)
    as (? & ? & ? & e2 & c2 & _ & Hr2 & _ & Hun2 & Hh2 & _).
  rewrite Hret2 in Hr2. injection Hr2 as <- <-.
  rewrite bool_decide_eq_false_2 in Hun2 by (by intros Hc; apply Hc).
  split; [done|]. split; [congruence|].
  destruct (UpdateNamespaces_effect sched2 lister2 cf1)
    as (pool & cerr & cf1' & e2' & c2' & Hget & Hr2' & Hcn & _).
  rewrite Hret2 in Hr2'. injection Hr2' as <- <-.
  exists (NewClient pool (clustersNamespaces cf1)), cerr, cf1'.
  split; [done|]. intros n Hn. rewrite Hcn, Hn.
  by rewrite bool_decide_eq_false_2 by (by intros Hc; apply Hc).
Qed.

Lemma UpdateNamespaces_twice_witness :
  ∃ err1 cf1 err2 cf2,
    UpdateNamespaces fifo
      (λ _, ({["management" := [NamespaceList [mkNamespace "flux-system"]]]},
             None)) sampleManager = Returns err1 cf1
    ∧ UpdateNamespaces fifo (λ _, (∅, None)) cf1 = Returns err2 cf2
    ∧ clustersNamespaces cf2 !! "management"
      = Some [mkNamespace "flux-system"].
Proof.
  destruct (UpdateNamespaces_returns fifo
              (λ _, ({["management" := [NamespaceList [mkNamespace "flux-system"]]]},
                     None)) sampleManager)
    as (_ & _ & _ & err1 & cf1 & _ & Hret1 & _).
  destruct (UpdateNamespaces_returns fifo (λ _, (∅, None)) cf1)
    as (_ & _ & _ & err2 & cf2 & _ & Hret2 & _).
  destruct (UpdateNamespaces_twice _ _ _ _ _ _ _ _ _ Hret1 Hret2)
    as (_ & _ & sc & cerr & cf1' & _ & Hkeep).
  exists err1, cf1, err2, cf2. split; [exact Hret1|]. split; [exact Hret2|].
  rewrite (Hkeep "management") by reflexivity.
  destruct (UpdateNamespaces_effect fifo
              (λ _, ({["management" := [NamespaceList [mkNamespace "flux-system"]]]},
                     None)) sampleManager)
    as (? & ? & ? & e & c & _ & Hr & Hcn & _).
  rewrite Hret1 in Hr. injection Hr as <- <-. rewrite (Hcn "management"). reflexivity.
Defined.

(** ** The namespaces a user may access *)

Lemma accessible_frame (u : UserPrincipal) (c : Cluster)
    (cf cf' : clustersManager) :
  nsChecker cf' = nsChecker cf →
  clustersNamespaces cf' = clustersNamespaces cf →
  accessible u c cf' = accessible u c cf.
Proof. intros Hck Hcn. unfold accessible. by rewrite Hck, Hcn. Qed.

Lemma userNamespacesTask_entry (u : UserPrincipal) (c : Cluster)
    (cf : clustersManager) :
  ∃ cf',
    userNamespacesTask u c cf = Returns tt cf'
    ∧ namespaces_frame cf cf'
    ∧ usersNamespaces cf'
      = match accessible u c cf with
        | Some nss => <[(ID u, GetName c) := nss]> (usersNamespaces cf)
        | None => usersNamespaces cf
        end.
Proof.
  unfold userNamespacesTask, accessible, bind, ClustersNamespaces_Get, gets.
  simpl.
  destruct (GetUserClientset c u) as [err|clientset]; simpl.
  - exists cf. split; [done|]. split; [auto with frames|done].
  - destruct (FilterAccessibleNamespaces _ _ _) as [err|filteredNs].
    + exists cf. split; [done|]. split; [auto with frames|done].
    + eexists. split; [reflexivity|]. split; [by repeat split|done].
Qed.

Lemma UpdateUserNamespaces_loop (u : UserPrincipal) (l : list Cluster) :
  NoDup (names l) →
  ∀ cf, ∃ cf',
    forM l (userNamespacesTask u) cf = Returns tt cf'
    ∧ namespaces_frame cf cf'
    ∧ (∀ c, c ∈ l →
         usersNamespaces cf' !! (ID u, GetName c)
         = match accessible u c cf with
           | Some nss => Some nss
           | None => usersNamespaces cf !! (ID u, GetName c)
           end)
    ∧ (∀ key, (∀ c, c ∈ l → key ≠ (ID u, GetName c)) →
         usersNamespaces cf' !! key = usersNamespaces cf !! key).
Proof.
  induction l as [|c0 rest IH]; intros Hnd cf; cbn [forM].
  - exists cf. split; [done|]. split; [auto with frames|].
    split; [|done]. intros c Hc. by apply elem_of_nil in Hc.
  - unfold names in Hnd. rewrite fmap_cons in Hnd.
    apply NoDup_cons in Hnd as [Hfresh Hnd].
    assert (Hne : ∀ c, c ∈ rest → GetName c ≠ GetName c0).
    { intros c Hc Heq. apply Hfresh. rewrite <- Heq.
      unfold names. by apply list_elem_of_fmap_2. }
    unfold bind.
    destruct (userNamespacesTask_entry u c0 cf) as (cf1 & Hret1 & Hfr1 & Hun1).
    rewrite Hret1. simpl.
    destruct (IH Hnd cf1) as (cf' & Hret & Hfr & Hin & Hout).
    exists cf'. split; [exact Hret|].
    split; [by eapply namespaces_frame_trans|].
    assert (Hacc : ∀ c, accessible u c cf1 = accessible u c cf).
    { intros c. destruct Hfr1 as (Hck & _ & _ & Hcn & _).
      by apply accessible_frame. }
    split.
    + intros c Hc. apply elem_of_cons in Hc as [->|Hc].
      * rewrite Hout by (intros c Hc [= Heq]; by apply (Hne c)).
        destruct (accessible u c0 cf); rewrite Hun1; [|done].
        apply lookup_insert_eq.
      * rewrite (Hin c Hc), Hacc.
        destruct (accessible u c cf); [done|].
        destruct (accessible u c0 cf); rewrite Hun1; [|done].
        rewrite lookup_insert_ne; [done|]. intros [= Heq]. by apply (Hne c).
    + intros key Hkey. rewrite Hout.
      * destruct (accessible u c0 cf); rewrite Hun1; [|done].
        rewrite lookup_insert_ne; [done|]. intros <-.
        by apply (Hkey c0 (list_elem_of_here _ _)).
      * intros c Hc. apply Hkey. by apply list_elem_of_further.
Qed.

(** X15: for a set of clusters and any order of the goroutines,
    UpdateUserNamespaces returns having written only the User Namespace
    Cache. The entry of the user for a cluster becomes the namespaces the
    access check lets through, out of the cluster's entry in the Namespace
    Cache; when the clientset or the check fails for a cluster, the user's
    entry for it stays what it was (an old entry is not removed). The
    entries of other users and of unknown clusters are as before. *)
Theorem UpdateUserNamespaces_entries (sched : scheduler) (u : UserPrincipal)
    (cf : clustersManager) :
  ClusterSet_invariant (clusters cf) →
  ∃ cf',
    UpdateUserNamespaces sched u cf = Returns tt cf'
    ∧ namespaces_frame cf cf'
    ∧ (∀ c, c ∈ clusters cf →
         usersNamespaces cf' !! (ID u, GetName c)
         = match accessible u c cf with
           | Some nss => Some nss
           | None => usersNamespaces cf !! (ID u, GetName c)
           end)
    ∧ (∀ key, (∀ c, c ∈ clusters cf → key ≠ (ID u, GetName c)) →
         usersNamespaces cf' !! key = usersNamespaces cf !! key).
Proof.
  unfold ClusterSet_invariant. intros Hnd.
  unfold UpdateUserNamespaces, bind, Clusters_Get, gets. simpl.
  destruct (UpdateUserNamespaces_loop u (sched (clusters cf))) with (cf := cf)
    as (cf' & Hret & Hfr & Hin & Hout).
  { unfold names. by rewrite (sched_perm sched (clusters cf)). }
  exists cf'. split; [exact Hret|]. split; [exact Hfr|]. split.
  - intros c Hc. apply Hin. by apply sched_elem_of.
  - intros key Hkey. apply Hout. intros c Hc. apply Hkey.
    by apply (sched_elem_of sched).
Qed.

Lemma UpdateUserNamespaces_entries_witness :
  ClusterSet_invariant (clusters sampleManager)
  ∧ ∃ cf',
      UpdateUserNamespaces lifo alice sampleManager = Returns tt cf'
      ∧ usersNamespaces cf' !! ("alice", "production") = Some []
      ∧ usersNamespaces cf' !! ("alice", "staging") = None.
Proof.
  assert (Hnd : ClusterSet_invariant (clusters sampleManager)).
  { unfold ClusterSet_invariant. apply (bool_decide_unpack _).
    vm_compute. exact I. }
  split; [exact Hnd|].
  destruct (UpdateUserNamespaces_entries lifo alice sampleManager Hnd)
    as (cf' & Hret & _ & Hin & _).
  exists cf'. split; [exact Hret|]. split.
  - etransitivity; [apply (Hin production)|reflexivity].
    simpl. do 2 apply list_elem_of_further. apply list_elem_of_here.
  - etransitivity; [apply (Hin staging)|reflexivity].
    simpl. apply list_elem_of_further, list_elem_of_here.
Defined.

Lemma GetAll_lookup (u : UserPrincipal)
    (cache : gmap (string * string) (list Namespace)) (n : string)
    (l : list Cluster) :
  ∀ acc : gmap string (list Namespace),
    foldl (λ namespaces cluster,
             match cache !! (ID u, GetName cluster) with
             | Some nsList => <[GetName cluster := nsList]> namespaces
             | None => namespaces
             end) acc l !! n
    = match (if bool_decide (n ∈ names l) then cache !! (ID u, n) else None) with
      | Some nsList => Some nsList
      | None => acc !! n
      end.
Proof.
  induction l as [|c rest IH]; intros acc.
  - cbn [foldl]. rewrite bool_decide_eq_false_2; [done|].
    apply not_elem_of_nil.
  - cbn [foldl]. rewrite IH. unfold names. rewrite fmap_cons.
    destruct (decide (n = GetName c)) as [->|Hne].
    + rewrite (bool_decide_eq_true_2 (GetName c ∈ GetName c :: _))
        by apply list_elem_of_here.
      destruct (bool_decide (GetName c ∈ GetName <$> rest));
        destruct (cache !! (ID u, GetName c)) eqn:Hc; try done.
      apply lookup_insert_eq.
    + assert (Hiff : n ∈ GetName c :: (GetName <$> rest) ↔ n ∈ GetName <$> rest).
      { rewrite elem_of_cons. split; [by intros [?|?]|by right]. }
      rewrite (bool_decide_ext _ _ Hiff).
      destruct (if bool_decide (n ∈ GetName <$> rest) then cache !! (ID u, n)
                else None); [done|].
      destruct (cache !! (ID u, GetName c)); [|done].
      by rewrite lookup_insert_ne.
Qed.

Lemma UsersNamespaces_GetAll_lookup (u : UserPrincipal) (cs : list Cluster)
    (cache : gmap (string * string) (list Namespace)) (n : string) :
  UsersNamespaces_GetAll u cs cache !! n
  = if bool_decide (n ∈ names cs) then cache !! (ID u, n) else None.
Proof.
  unfold UsersNamespaces_GetAll. rewrite GetAll_lookup, lookup_empty.
  by destruct (if bool_decide _ then _ else _).
Qed.

Lemma userNsList_map (sched : scheduler) (u : UserPrincipal)
    (cf : clustersManager) :
  ClusterSet_invariant (clusters cf) →
  ∃ nss cf',
    userNsList sched u cf = Returns nss cf'
    ∧ namespaces_frame cf cf'
    ∧ (∀ n, n ∉ names (clusters cf) → nss !! n = None)
    ∧ (∀ c0, c0 ∈ clusters cf →
         is_Some (usersNamespaces cf !! (ID u, GetName c0)) →
         usersNamespaces cf' = usersNamespaces cf
         ∧ ∀ c, c ∈ clusters cf →
             nss !! GetName c = usersNamespaces cf !! (ID u, GetName c))
    ∧ ((∀ c, c ∈ clusters cf →
           usersNamespaces cf !! (ID u, GetName c) = None) →
       ∀ c, c ∈ clusters cf → nss !! GetName c = accessible u c cf).
Proof.
  intros Hnd.
  assert (Hname : ∀ c, c ∈ clusters cf → GetName c ∈ names (clusters cf)).
  { intros c Hc. unfold names. by apply list_elem_of_fmap_2. }
  unfold userNsList, bind, GetUserNamespaces, gets. simpl.
  case_bool_decide as Hsize.
  - eexists _, cf. split; [reflexivity|]. split; [auto with frames|].
    split; [|split].
    + intros n Hn. rewrite UsersNamespaces_GetAll_lookup.
      by rewrite bool_decide_eq_false_2.
    + intros _ _ _. split; [done|]. intros c Hc.
      rewrite UsersNamespaces_GetAll_lookup.
      by rewrite bool_decide_eq_true_2 by by apply Hname.
    + intros Hnone. exfalso.
      assert (Hempty : UsersNamespaces_GetAll u (clusters cf)
                          (usersNamespaces cf) = ∅).
      { apply map_empty. intros n. rewrite UsersNamespaces_GetAll_lookup.
        case_bool_decide as Hn; [|done].
        unfold names in Hn. apply list_elem_of_fmap in Hn as (c & -> & Hc).
        by apply Hnone. }
      rewrite Hempty, map_size_empty in Hsize. lia.
  - destruct (UpdateUserNamespaces_loop u (sched (clusters cf))) with (cf := cf)
      as (cf' & Hret & Hfr & Hin & Hout).
    { unfold ClusterSet_invariant in Hnd. unfold names.
      by rewrite (sched_perm sched (clusters cf)). }
    unfold UpdateUserNamespaces, bind, Clusters_Get, gets. simpl.
    rewrite Hret. simpl.
    assert (Hcl : clusters cf' = clusters cf) by (by destruct Hfr as (?&?&?)).
    rewrite Hcl.
    assert (Hnone : ∀ c, c ∈ clusters cf →
                      usersNamespaces cf !! (ID u, GetName c) = None).
    { intros c Hc.
      destruct (usersNamespaces cf !! (ID u, GetName c)) eqn:Hl; [|done].
      exfalso.
      assert (Hin' : UsersNamespaces_GetAll u (clusters cf)
                       (usersNamespaces cf) !! GetName c = Some l).
      { rewrite UsersNamespaces_GetAll_lookup.
        by rewrite bool_decide_eq_true_2 by by apply Hname. }
      assert (Hsz : size (UsersNamespaces_GetAll u (clusters cf)
                            (usersNamespaces cf)) ≠ 0).
      { apply map_size_non_empty_iff. intros Hempty.
        by rewrite Hempty, lookup_empty in Hin'. }
      lia. }
    eexists _, cf'. split; [reflexivity|]. split; [exact Hfr|].
    split; [|split].
    + intros n Hn. rewrite UsersNamespaces_GetAll_lookup.
      by rewrite bool_decide_eq_false_2.
    + intros c0 Hc0 [l Hl]. rewrite Hnone in Hl by done. done.
    + intros _ c Hc. rewrite UsersNamespaces_GetAll_lookup.
      rewrite bool_decide_eq_true_2 by by apply Hname.
      rewrite Hin by (by apply sched_elem_of).
      rewrite Hnone by done. by destruct (accessible u c cf).
Qed.

(** X16: the namespaces of the client GetImpersonatedClient returns, for a
    set of clusters. The map has no entry for a name that is not a
    cluster's. When the User Namespace Cache holds an entry of the user for
    some cluster, the map is what is cached and the cache is not written:
    a cluster with no cached entry is absent from the map, the access check
    is not run for it. When the cache holds nothing for the user, the map
    gives for each cluster the namespaces the access check lets through,
    and no entry for a cluster whose clientset or check fails. *)
Theorem GetImpersonatedClient_namespaces (sched : scheduler)
    (u : UserPrincipal) (cf : clustersManager) :
  ClusterSet_invariant (clusters cf) →
  ∃ pool nss err cf',
    GetImpersonatedClient sched (Some u) cf
    = Returns (Some (NewClient pool nss), err) cf'
    ∧ (∀ n, n ∉ names (clusters cf) → nss !! n = None)
    ∧ (∀ c0, c0 ∈ clusters cf →
         is_Some (usersNamespaces cf !! (ID u, GetName c0)) →
         usersNamespaces cf' = usersNamespaces cf
         ∧ ∀ c, c ∈ clusters cf →
             nss !! GetName c = usersNamespaces cf !! (ID u, GetName c))
    ∧ ((∀ c, c ∈ clusters cf →
           usersNamespaces cf !! (ID u, GetName c) = None) →
       ∀ c, c ∈ clusters cf → nss !! GetName c = accessible u c cf).
Proof.
  intros Hnd.
  unfold GetImpersonatedClient, bind, Clusters_Get, gets. simpl.
  destruct (foldM_poolTask_returns (Some u) "user" (sched (clusters cf))
              NewClustersClientsPool (make_chan (length (clusters cf))) cf)
    as (pool & ch & cf1 & Hret & Hfr & Hopen); [done| |].
  { simpl. by rewrite sched_length. }
  rewrite Hret. simpl. rewrite collectErrors_open by done. simpl.
  destruct Hfr as (Hck & Hcl & _ & Hcn & Hun & _).
  destruct (userNsList_map sched u cf1) as (nss & cf' & Hns & _ & Hout & Hhit & Hmiss).
  { by rewrite Hcl. }
  rewrite Hns. simpl. rewrite Hcl, Hun in *.
  eexists pool, nss, _, cf'. split; [reflexivity|]. split; [exact Hout|].
  split; [exact Hhit|].
  intros Hnone c Hc. rewrite (Hmiss Hnone c Hc). by apply accessible_frame.
Qed.

Lemma GetImpersonatedClient_namespaces_witness :
  ClusterSet_invariant (clusters sampleManager)
  ∧ ∃ pool nss err cf',
      GetImpersonatedClient fifo (Some alice) sampleManager
      = Returns (Some (NewClient pool nss), err) cf'
      ∧ nss !! "production" = Some []
      ∧ nss !! "staging" = None.
Proof.
  assert (Hnd : ClusterSet_invariant (clusters sampleManager)).
  { unfold ClusterSet_invariant. apply (bool_decide_unpack _).
    vm_compute. exact I. }
  split; [exact Hnd|].
  destruct (GetImpersonatedClient_namespaces fifo alice sampleManager Hnd)
    as (pool & nss & err & cf' & Hret & _ & _ & Hmiss).
  exists pool, nss, err, cf'. split; [exact Hret|].
  assert (Hnone : ∀ c, c ∈ clusters sampleManager →
            usersNamespaces sampleManager !! (ID alice, GetName c) = None)
    by (intros c _; reflexivity).
  split.
  - etransitivity; [apply (Hmiss Hnone production)|reflexivity].
    simpl. do 2 apply list_elem_of_further. apply list_elem_of_here.
  - etransitivity; [apply (Hmiss Hnone staging)|reflexivity].
    simpl. apply list_elem_of_further, list_elem_of_here.
Defined.

(** ** A subscriber that does not read *)

Lemma notify_loop_parks (added removed : list Cluster) (w : loc)
    (ws2 : list loc) (ws1 : list loc) :
  ∀ cf,
    NoDup (ws1 ++ [w]) →
    (∀ w', w' ∈ ws1 →
       ∃ c, heap cf !! w' = Some c ∧ chan_closed c = false
            ∧ length (chan_buf c) < chan_cap c) →
    (∃ c, heap cf !! w = Some c ∧ chan_closed c = false
          ∧ ¬ length (chan_buf c) < chan_cap c) →
    ∃ cf1 k,
      forM (ws1 ++ w :: ws2) (λ w', Notify w' added removed) cf
      = Parks w (mkUpdate added removed) cf1 k
      ∧ cf1 = set_heap (heap cf1) cf
      ∧ (∀ w', w' ∈ ws1 →
           sent_to w' cf1 = sent_to w' cf ++ [mkUpdate added removed])
      ∧ (∀ w', w' ∉ ws1 → heap cf1 !! w' = heap cf !! w').
Proof.
  induction ws1 as [|w0 rest IH]; intros cf Hnd Hroom (c & Hw & Hopen & Hfull).
  - cbn [app forM]. unfold bind, Notify. rewrite Hw. unfold chan_send.
    rewrite Hopen, bool_decide_eq_false_2 by done. simpl.
    eexists cf, _. split; [reflexivity|]. split; [by destruct cf|].
    split; [|done]. intros w' Hw'. by apply elem_of_nil in Hw'.
  - simpl in Hnd. apply NoDup_cons in Hnd as [Hfresh Hnd].
    destruct (Hroom w0 (list_elem_of_here _ _)) as (c0 & Hw0 & Hopen0 & Hroom0).
    cbn [app forM]. unfold bind at 1. unfold Notify at 1. rewrite Hw0.
    unfold chan_send. rewrite Hopen0, bool_decide_eq_true_2 by done.
    cbn [obind].
    set (c0' := mkChan (chan_cap c0) (chan_buf c0 ++ [mkUpdate added removed])
                  (chan_recvd c0) false).
    set (cf0 := set_heap (<[w0 := c0']> (heap cf)) cf).
    assert (Hsend : chan_send c0 (mkUpdate added removed) = SendOk c0').
    { unfold chan_send. by rewrite Hopen0, bool_decide_eq_true_2 by done. }
    destruct (IH cf0 Hnd) as (cf1 & k & Hret & Hfr & Hin & Hout).
    { intros w' Hw'. destruct (Hroom w' (list_elem_of_further _ _ _ Hw'))
        as (c' & Hc' & Ho' & Hr').
      exists c'. split; [|done]. subst cf0. simpl.
      rewrite lookup_insert_ne; [done|]. intros ->. apply Hfresh.
      apply elem_of_app. by left. }
    { exists c. split; [|done]. subst cf0. simpl.
      rewrite lookup_insert_ne; [done|]. intros ->. apply Hfresh.
      apply elem_of_app. right. apply list_elem_of_here. }
    exists cf1, k. split; [exact Hret|].
    split; [rewrite Hfr at 1; by destruct cf|]. split.
    + intros w' Hw'. apply elem_of_cons in Hw' as [->|Hw'].
      * unfold sent_to at 1. rewrite Hout.
        -- subst cf0. simpl. rewrite lookup_insert_eq.
           unfold sent_to. rewrite Hw0. unfold chan_history. simpl.
           by rewrite app_assoc.
        -- intros Hin0. apply Hfresh. apply elem_of_app. by left.
      * rewrite (Hin w' Hw'). f_equal. subst cf0.
        rewrite (send_sent_to cf w0 w' c0 c0' _ Hw0 Hsend).
        rewrite bool_decide_eq_false_2; [by rewrite app_nil_r|].
        intros ->. apply Hfresh. apply elem_of_app. by left.
    + intros w' Hw'. apply not_elem_of_cons in Hw' as [Hne Hw'].
      rewrite (Hout w' Hw'). subst cf0. simpl. by rewrite lookup_insert_ne.
Qed.

Lemma notifiedManager_hub : hub_invariant notifiedManager.
Proof.
  split; [apply (bool_decide_unpack _); vm_compute; exact I|].
  intros w Hw. change (watchers notifiedManager) with [0; 1] in Hw.
  exists (mkChan 1 [mkUpdate [] [production]] [] false).
  apply elem_of_cons in Hw as [->|Hw];
    [|apply elem_of_cons in Hw as [->|Hw]; [|by apply elem_of_nil in Hw]];
    (split; [reflexivity|]; split; [reflexivity|]; split; [reflexivity|];
     simpl; lia).
Qed.

(** X17: a subscriber that has not received its last update blocks the
    refresh. Let the refresh have an update to send, and let [w] be the
    first watcher of the list whose channel still holds an update. Then
    UpdateClusters does not return: it is parked sending to [w]. By then
    the registry holds the fetched list and the counters are set; the
    watchers before [w] have been sent the update, and no other channel has
    changed: the watchers after [w] wait for [w]'s subscriber. *)
Theorem UpdateClusters_blocks (fetched : list Cluster) (cf : clustersManager)
    (u : ClusterListUpdate) (ws1 ws2 : list loc) (w : loc) :
  hub_invariant cf →
  update_of fetched cf = Some u →
  watchers cf = ws1 ++ w :: ws2 →
  (∀ w', w' ∈ ws1 → ∃ c, heap cf !! w' = Some c ∧ chan_buf c = []) →
  (∃ c, heap cf !! w = Some c ∧ chan_buf c ≠ []) →
  ∃ cf1 k,
    UpdateClusters (inr fetched) cf = Parks w u cf1 k
    ∧ clusters cf1 = fetched
    ∧ updateClustersMetrics cf1
      = (S (opsUpdateClusters (metrics cf)), length fetched)
    ∧ watchers cf1 = watchers cf
    ∧ (∀ w', w' ∈ ws1 → sent_to w' cf1 = sent_to w' cf ++ [u])
    ∧ (∀ w', w' ∉ ws1 → heap cf1 !! w' = heap cf !! w').
Proof.
  intros [Hnd Hhub] Hu Hws Hempty (c & Hw & Hbuf).
  unfold update_of, diff_of in Hu.
  unfold UpdateClusters, bind, Clusters_Set in *. simpl in *.
  unfold bind, gets. simpl.
  set (added := filter (λ c, GetName c ∉ names (clusters cf)) fetched) in *.
  set (removed := filter (λ c, GetName c ∉ names fetched) (clusters cf)) in *.
  assert (Htest : bool_decide (0 < length added)
                  || bool_decide (0 < length removed) = true).
  { destruct (bool_decide (0 < length added)
              || bool_decide (0 < length removed)) eqn:Htest; [done|].
    apply diff_test in Htest as [Ha Hr]. by rewrite Ha, Hr in Hu. }
  assert (Hu' : u = mkUpdate added removed)
    by (destruct added, removed; congruence).
  rewrite Htest. simpl. rewrite Hws.
  set (cf3 := set_metrics _ (set_metrics _ (set_clusters fetched cf))).
  destruct (notify_loop_parks added removed w ws2 ws1 cf3)
    as (cf1 & k & Hret & Hfr & Hin & Hout).
  { rewrite Hws in Hnd. apply NoDup_app in Hnd as (Hnd1 & Hdisj & Hnd2).
    apply NoDup_app. split; [done|]. split; [|apply NoDup_singleton].
    intros w' Hw' ->%list_elem_of_singleton.
    apply (Hdisj w Hw'), list_elem_of_here. }
  { intros w' Hw'. destruct (Hempty w' Hw') as (c' & Hc' & Hb').
    destruct (Hhub w') as (c'' & Hc'' & Hopen & Hcap & _).
    { rewrite Hws. apply elem_of_app. by left. }
    rewrite Hc' in Hc''. injection Hc'' as <-.
    exists c'. split; [done|]. split; [done|]. rewrite Hb', Hcap. simpl. lia. }
  { destruct (Hhub w) as (c'' & Hc'' & Hopen & Hcap & Hlen).
    { rewrite Hws. apply elem_of_app. right. apply list_elem_of_here. }
    rewrite Hw in Hc''. injection Hc'' as <-.
    exists c. split; [done|]. split; [done|]. rewrite Hcap.
    destruct (chan_buf c); [done|]. simpl. lia. }
  rewrite Hret. simpl. eexists cf1, _. rewrite Hu'.
  split; [reflexivity|].
  split; [by rewrite Hfr|]. split; [by rewrite Hfr|].
  split; [by rewrite Hfr|]. split; [exact Hin|exact Hout].
Qed.

Lemma UpdateClusters_blocks_witness :
  ∃ cf1 k,
    UpdateClusters (inr [management]) notifiedManager
    = Parks 0 (mkUpdate [] [staging]) cf1 k
    ∧ clusters cf1 = [management]
    ∧ heap cf1 !! 1 = heap notifiedManager !! 1.
Proof.
  destruct (UpdateClusters_blocks [management] notifiedManager
              (mkUpdate [] [staging]) [] [1] 0 notifiedManager_hub)
    as (cf1 & k & Hret & Hcl & _ & _ & _ & Hout).
  - reflexivity.
  - reflexivity.
  - intros w' Hw'. by apply elem_of_nil in Hw'.
  - exists (mkChan 1 [mkUpdate [] [production]] [] false). by split.
  - exists cf1, k. split; [exact Hret|]. split; [exact Hcl|].
    apply Hout, not_elem_of_nil.
Defined.

(** ** The loops keep going *)






(** ** The session logs handler *)

Lemma GetImpersonatedClient_outcome (sched : scheduler) (u : UserPrincipal)
    (cf : clustersManager) :
  ClusterSet_invariant (clusters cf) →
  ∃ pool nss errs cf',
    GetImpersonatedClient sched (Some u) cf
    = Returns (Some (NewClient pool nss), ErrorOrNil (Some errs)) cf'
    ∧ (∀ x, x ∈ errs
            ↔ ∃ c e, c ∈ clusters cf ∧ created (Some u) c cf = inl e
                     ∧ x = ClientError (GetName c)
                             (fmt_Errorf
                                "failed creating user client to pool: " e))
    ∧ (∀ n k, pool !! n = Some k
              ↔ ∃ c, c ∈ clusters cf ∧ GetName c = n
                     ∧ created (Some u) c cf = inr k).
Proof.
  intros Hinv.
  destruct (fanOut_collect (Some u) "user" sched cf Hinv)
    as (pool & ch & cf1 & Hret & Hfr & Hopen & Hperm & Herr & Hpool).
  unfold GetImpersonatedClient, bind, Clusters_Get, gets. simpl.
  rewrite Hret. simpl. rewrite collectErrors_open by done. simpl.
  destruct (userNsList_returns sched u cf1) as (nss & cf' & Hns & _).
  rewrite Hns. simpl. rewrite Herr.
  exists pool, nss, (chan_buf ch), cf'. split; [reflexivity|].
  split; [|exact Hpool].
  intros x. rewrite Hperm. apply (failureOf_elem_of "user").
Qed.

Lemma readLogs_inr (backend : SessionBackend) (minioClient bucketName : string)
    (objs : list ObjectInfo) :
  ∀ logs lastToken logs' lastToken',
    readLogs backend minioClient bucketName objs logs lastToken
    = inr (logs', lastToken') →
    ∃ new,
      logs' = logs ++ new
      ∧ Forall2 (λ obj log,
                   Err obj = None
                   ∧ ∃ o, GetObject backend minioClient bucketName (Key obj)
                          = inr o
                          ∧ Close o = None ∧ ReadAll o = inr log)
          objs new
      ∧ lastToken' = default lastToken (last (Key <$> objs)).
Proof.
  induction objs as [|obj rest IH]; intros logs tok logs' tok' Hread;
    cbn [readLogs] in Hread.
  - injection Hread as <- <-. exists []. split; [by rewrite app_nil_r|].
    split; [constructor|done].
  - destruct (Err obj) eqn:Herr; [done|].
    destruct (GetObject backend minioClient bucketName (Key obj))
      as [?|o] eqn:Hget; [done|].
    destruct (Close o) eqn:Hclose; [done|].
    destruct (ReadAll o) as [?|b] eqn:Hall; [done|].
    destruct (IH _ _ _ _ Hread) as (new & -> & Hall2 & ->).
    exists (b :: new). split; [by rewrite <- app_assoc|]. split.
    + constructor; [|done]. split; [done|]. by exists o.
    + rewrite fmap_cons, last_cons. by destruct (last (Key <$> rest)).
Qed.

(** X19: one unreachable cluster fails the handler for all of them. For a
    set of clusters, when the construction of the user's client fails for
    some cluster, GetSessionLogs returns no response and the error of
    GetImpersonatedClient wrapped in "error getting impersonating client":
    a list that holds the ClientError of that cluster. That is so whatever
    the request asks for, a healthy cluster included, and whatever the
    object store holds; the user's "no user supplied" error is wrapped the
    same way. *)
Theorem GetSessionLogs_needs_every_cluster (backend : SessionBackend)
    (sched : scheduler) (u : UserPrincipal) (msg : GetSessionLogsRequest)
    (cf : clustersManager) (c : Cluster) (e : error) :
  ClusterSet_invariant (clusters cf) →
  c ∈ clusters cf →
  created (Some u) c cf = inl e →
  (∃ errs cf',
     GetSessionLogs backend sched (Some u) msg cf
     = Returns (None,
                Some (fmt_Errorf "error getting impersonating client: "
                        (multierror errs))) cf'
     ∧ ClientError (GetName c)
         (fmt_Errorf "failed creating user client to pool: " e) ∈ errs)
  ∧ GetSessionLogs backend sched None msg cf
    = Returns (None,
               Some (fmt_Errorf "error getting impersonating client: "
                       (errors_New "no user supplied"))) cf.
Proof.
  intros Hinv Hc Hcr. split; [|done].
  destruct (GetImpersonatedClient_outcome sched u cf Hinv)
    as (pool & nss & errs & cf' & Hret & Herrs & _).
  assert (Hin : ClientError (GetName c)
                  (fmt_Errorf "failed creating user client to pool: " e)
                ∈ errs) by (apply Herrs; by exists c, e).
  exists errs, cf'. split; [|done].
  unfold GetSessionLogs, bind. rewrite Hret. simpl.
  destruct errs; [by apply elem_of_nil in Hin|done].
Qed.

Lemma GetSessionLogs_needs_every_cluster_witness :
  ∃ errs cf',
    GetSessionLogs sampleBackend fifo (Some alice) sampleRequest sampleManager
    = Returns (None,
               Some (fmt_Errorf "error getting impersonating client: "
                       (multierror errs))) cf'
    ∧ ClientError "staging"
        (fmt_Errorf "failed creating user client to pool: "
           (fmt_Errorf "failed creating client for cluster=staging: "
              (errors_New "connection refused"))) ∈ errs.
Proof.
  assert (Hnd : ClusterSet_invariant (clusters sampleManager)).
  { unfold ClusterSet_invariant. apply (bool_decide_unpack _).
    vm_compute. exact I. }
  refine (proj1 (GetSessionLogs_needs_every_cluster sampleBackend fifo alice
                   sampleRequest sampleManager staging _ Hnd _ _)).
  - simpl. apply list_elem_of_further, list_elem_of_here.
  - reflexivity.
Defined.

(** X20: GetSessionLogs returns a response or an error, never both and
    never neither. For a set of clusters, a response means that the
    construction of the user's client succeeded for every cluster, not only
    for the one asked for; the response has one log per listed object, in
    the order of the listing, each the content read from an object that
    listed, opened, closed and read without error; the next token is the
    key of the last object listed, and the empty string (not the token of
    the request) when nothing was listed. *)
Theorem GetSessionLogs_response (backend : SessionBackend) (sched : scheduler)
    (user : option UserPrincipal) (msg : GetSessionLogsRequest)
    (cf cf' : clustersManager)
    (resp : option GetSessionLogsResponse) (err : option error) :
  ClusterSet_invariant (clusters cf) →
  GetSessionLogs backend sched user msg cf = Returns (resp, err) cf' →
  (is_Some resp ↔ err = None)
  ∧ ∀ response, resp = Some response →
      ∃ u c cli minioClient,
        user = Some u
        ∧ (∀ c', c' ∈ clusters cf → ∃ k, created (Some u) c' cf = inr k)
        ∧ c ∈ clusters cf ∧ GetName c = req_ClusterName msg
        ∧ created (Some u) c cf = inr cli
        ∧ Forall2 (λ obj log,
                     Err obj = None
                     ∧ ∃ o, GetObject backend minioClient "gitops-run-logs"
                              (Key obj) = inr o
                            ∧ Close o = None ∧ ReadAll o = inr log)
            (ListObjects backend minioClient "gitops-run-logs"
               (req_SessionId msg) (req_Token msg))
            (Logs response)
        ∧ NextToken response
          = default EmptyString
              (last (Key <$> ListObjects backend minioClient "gitops-run-logs"
                               (req_SessionId msg) (req_Token msg))).
Proof.
  intros Hinv Hret. destruct user as [u|].
  2:{ injection Hret as <- <- <-. split; [|done].
      split; [by intros [? ?]|done]. }
  destruct (GetImpersonatedClient_outcome sched u cf Hinv)
    as (pool & nss & errs & cf1 & Hget & Herrs & Hpool).
  unfold GetSessionLogs, bind in Hret. rewrite Hget in Hret. simpl in Hret.
  destruct errs as [|x errs].
  2:{ injection Hret as <- <- <-. split; [|done].
      split; [by intros [? ?]|done]. }
  simpl in Hret. unfold Scoped in Hret. simpl in Hret.
  destruct (pool !! req_ClusterName msg) as [cli|] eqn:Hcli.
  2:{ injection Hret as <- <- <-. split; [|done].
      split; [by intros [? ?]|done]. }
  destruct (getSecret backend cli (req_Namespace msg) _) as [?|data].
  { injection Hret as <- <- <-. split; [|done].
    split; [by intros [? ?]|done]. }
  destruct (getBucket backend cli (req_Namespace msg) _) as [?|bucket].
  { injection Hret as <- <- <-. split; [|done].
    split; [by intros [? ?]|done]. }
  destruct (minio_New backend _ _ _ _) as [?|minioClient].
  { injection Hret as <- <- <-. split; [|done].
    split; [by intros [? ?]|done]. }
  destruct (readLogs backend minioClient _ _ _ _) as [?|[logs tok]] eqn:Hread.
  { injection Hret as <- <- <-. split; [|done].
    split; [by intros [? ?]|done]. }
  injection Hret as <- <- <-. split; [by split|].
  intros response [= <-].
  apply Hpool in Hcli as (c & Hc & Hname & Hcr).
  apply readLogs_inr in Hread as (new & -> & Hall & ->).
  exists u, c, cli, minioClient. split; [done|]. split.
  { intros c' Hc'. destruct (created (Some u) c' cf) as [e|k] eqn:Hcr';
      [|by exists k].
    exfalso. eapply elem_of_nil. apply Herrs. by exists c', e. }
  by repeat split.
Qed.

Lemma GetSessionLogs_response_witness :
  ∃ cf',
    GetSessionLogs sampleBackend fifo (Some alice) sampleRequest healthyManager
    = Returns (Some (mkLogsResponse ["log of s1/1.txt"; "log of s1/2.txt"]
                       "s1/2.txt"), None) cf'
    ∧ ∀ c, c ∈ clusters healthyManager →
           ∃ k, created (Some alice) c healthyManager = inr k.
Proof.
  assert (Hnd : ClusterSet_invariant (clusters healthyManager)).
  { unfold ClusterSet_invariant. apply (bool_decide_unpack _).
    vm_compute. exact I. }
  assert (∃ cf',
            GetSessionLogs sampleBackend fifo (Some alice) sampleRequest
              healthyManager
            = Returns (Some (mkLogsResponse
                               ["log of s1/1.txt"; "log of s1/2.txt"]
                               "s1/2.txt"), None) cf') as [cf' Hret]
    by (eexists; vm_compute; reflexivity).
  destruct (GetSessionLogs_response _ _ _ _ _ _ _ _ Hnd Hret) as [_ Hresp].
  destruct (Hresp _ eq_refl) as (u & c & cli & mc & [= <-] & Hall & _).
  exists cf'. split; [exact Hret|exact Hall].
Defined.
